(** * O2Physics: the CFFilterQA femtoscopy filter and the FT0 QA task

    A shallow embedding of two analysis tasks,
      - [EventFiltering/PWGCF/CFFilterQA.cxx] (struct [CFFilterQA]) and
      - [Common/Tasks/ft0Task.cxx]            (struct [ft0Task]),
    together with the properties their specification states about them.

    Numbers are modelled as the code has them.  A C++ [float] is an IEEE-754
    binary32 value and a [double] a binary64 value; both are values of the
    Standard Library's [spec_float], and every arithmetic operation names the
    format it rounds to.  Comparisons follow IEEE-754: every ordered
    comparison with a NaN is false.  Integer columns are [Z] (or [N] for the
    unsigned ones) and are converted to floating point where the C++
    comparison converts them. *)

From Stdlib Require Import ZArith NArith List Bool String Lia.
From Stdlib Require Import Floats.SpecFloat.
Import ListNotations.
Local Open Scope string_scope.
Local Open Scope Z_scope.

(* ===================================================================== *)
(** * IEEE-754 numbers *)
(* ===================================================================== *)

Module IEEE.

(** C++ [float] (binary32) and [double] (binary64). *)
Definition float := spec_float.
Definition double := spec_float.

Definition prec32 : Z := 24.
Definition emax32 : Z := 128.
Definition prec64 : Z := 53.
Definition emax64 : Z := 1024.

(** Integer to floating point (exact below 2^24, resp. 2^53). *)
Definition f32_of_int (z : Z) : float := binary_normalize prec32 emax32 z 0 false.
Definition f64_of_int (z : Z) : double := binary_normalize prec64 emax64 z 0 false.

(** [float] to [double] (exact) and [double] to [float] (round to nearest even). *)
Definition f64_of_f32 (x : float) : double :=
  match x with
  | S754_finite s m e => binary_round prec64 emax64 s m e
  | _ => x
  end.

Definition f32_of_f64 (x : double) : float :=
  match x with
  | S754_finite s m e => binary_round prec32 emax32 s m e
  | _ => x
  end.

Definition f32_add : float -> float -> float := SFadd prec32 emax32.
Definition f32_sub : float -> float -> float := SFsub prec32 emax32.
Definition f32_mul : float -> float -> float := SFmul prec32 emax32.
Definition f32_div : float -> float -> float := SFdiv prec32 emax32.
Definition f64_add : double -> double -> double := SFadd prec64 emax64.
Definition f64_sub : double -> double -> double := SFsub prec64 emax64.
Definition f64_mul : double -> double -> double := SFmul prec64 emax64.
Definition f64_div : double -> double -> double := SFdiv prec64 emax64.
Definition f64_sqrt : double -> double := SFsqrt prec64 emax64.

(** [std::pow(x, 2)] on a double: the correctly rounded square. *)
Definition f64_pow2 (x : double) : double := f64_mul x x.

(** The C++ comparison operators; operands already share a format. *)
Definition flt (x y : spec_float) : bool := SFltb x y.   (* x <  y *)
Definition fle (x y : spec_float) : bool := SFleb x y.   (* x <= y *)
Definition fgt (x y : spec_float) : bool := SFltb y x.   (* x >  y *)
Definition fge (x y : spec_float) : bool := SFleb y x.   (* x >= y *)
Definition feq (x y : spec_float) : bool := SFeqb x y.   (* x == y *)
Definition fabs (x : spec_float) : spec_float := SFabs x.
Definition fneg (x : spec_float) : spec_float := SFopp x.

Definition is_nan (x : spec_float) : bool :=
  match x with S754_nan => true | _ => false end.

(** A decimal literal [n/d] with the [f] suffix, and one without (a double). *)
Definition f32_dec (n d : Z) : float := f32_div (f32_of_int n) (f32_of_int d).
Definition f64_dec (n d : Z) : double := f64_div (f64_of_int n) (f64_of_int d).

Definition f32_zero : float := S754_zero false.
Definition f64_zero : double := S754_zero false.

End IEEE.
Import IEEE.

(* ===================================================================== *)
(** * Results of calls that may abort *)
(* ===================================================================== *)

(** What an out-of-range access went into. *)
Inductive Access : Type :=
| LabeledArrayAccess   (* LabeledArray<float>::get past the table *)
| VectorAccess.        (* operator[] past the end of a vector or span *)

(** A call returns a value, ends the program through [LOG(fatal)], or reads
    out of range (undefined behaviour in C++; the model stops there). *)
Inductive Res (A : Type) : Type :=
| Ok (a : A)
| Fatal (msg : string)
| OutOfRange (w : Access).
Arguments Ok {A} a.
Arguments Fatal {A} msg.
Arguments OutOfRange {A} w.

Definition rbind {A B} (r : Res A) (k : A -> Res B) : Res B :=
  match r with
  | Ok a => k a
  | Fatal m => Fatal m
  | OutOfRange w => OutOfRange w
  end.

Notation "x <-- r ;; k" := (rbind r (fun x => k))
  (at level 61, r at next level, right associativity).

(* ===================================================================== *)
(** * The framework's [LabeledArray<float>] *)
(* ===================================================================== *)

(** The framework stores the table row-major in one array ([Array2D]) and
    reads entry (y, x) as [data[y * cols + x]] without a bounds check; the
    string overloads first look the label up in the row or column names. *)
Record LabeledArray : Type := {
  la_rows : nat;
  la_cols : nat;
  la_data : list float;
  la_labels_rows : list string;
  la_labels_cols : list string
}.

Fixpoint label_index (labels : list string) (l : string) : option nat :=
  match labels with
  | [] => None
  | l' :: rest =>
      if String.eqb l' l then Some O
      else option_map S (label_index rest l)
  end.

Definition la_at (a : LabeledArray) (y x : nat) : Res float :=
  match nth_error (la_data a) (y * la_cols a + x) with
  | Some v => Ok v
  | None => OutOfRange LabeledArrayAccess
  end.

(** [get(uint32_t y, uint32_t x)] *)
Definition get_ii (a : LabeledArray) (y x : nat) : Res float := la_at a y x.

(** [get(uint32_t y, const char* x)] *)
Definition get_is (a : LabeledArray) (y : nat) (x : string) : Res float :=
  match label_index (la_labels_cols a) x with
  | Some xi => la_at a y xi
  | None => OutOfRange LabeledArrayAccess
  end.

(** [get(const char* y, uint32_t x)] *)
Definition get_si (a : LabeledArray) (y : string) (x : nat) : Res float :=
  match label_index (la_labels_rows a) y with
  | Some yi => la_at a yi x
  | None => OutOfRange LabeledArrayAccess
  end.

(** [get(const char* y, const char* x)] *)
Definition get_ss (a : LabeledArray) (y x : string) : Res float :=
  match label_index (la_labels_rows a) y, label_index (la_labels_cols a) x with
  | Some yi, Some xi => la_at a yi xi
  | _, _ => OutOfRange LabeledArrayAccess
  end.

(* ===================================================================== *)
(** * namespace CFTrigger: enumerations and default tables *)
(* ===================================================================== *)

Module CFTrigger.

Inductive ParticleSpecies : Type :=
| kProton | kDeuteron | kLambda | kNParticleSpecies.

Inductive V0Daughters : Type :=
| kDaughPion | kDaughProton | kNV0Daughters.

Inductive ParticleRejection : Type :=
| kRejProton | kRejPion | kRejElectron | kNParticleRejection.

Inductive PIDLimits : Type :=
| kTPCMin | kTPCMax | kTOFMin | kTOFMax | kTPCTOF | kNPIDLimits.

(** The enumerators' integer values. *)
Definition speciesIndex (s : ParticleSpecies) : nat :=
  match s with
  | kProton => 0 | kDeuteron => 1 | kLambda => 2 | kNParticleSpecies => 3
  end%nat.

Definition daughterIndex (s : V0Daughters) : nat :=
  match s with
  | kDaughPion => 0 | kDaughProton => 1 | kNV0Daughters => 2
  end%nat.

Definition rejectionIndex (s : ParticleRejection) : nat :=
  match s with
  | kRejProton => 0 | kRejPion => 1 | kRejElectron => 2
  | kNParticleRejection => 3
  end%nat.

Definition limitIndex (l : PIDLimits) : nat :=
  match l with
  | kTPCMin => 0 | kTPCMax => 1 | kTOFMin => 2 | kTOFMax => 3
  | kTPCTOF => 4 | kNPIDLimits => 5
  end%nat.

Definition SpeciesNameAll : list string := ["Proton"; "Deuteron"; "Lambda"].
Definition SpeciesName : list string := ["Proton"; "Deuteron"].
Definition SpeciesNameAnti : list string := ["AntiProton"; "AntiDeuteron"].
Definition SpeciesV0DaughterName : list string := ["Pion"; "Proton"].
Definition SpeciesRejectionName : list string := ["Proton"; "Pion"; "Electron"].
Definition TPCCutName : list string := ["TPC min"; "TPC max"].
Definition SpeciesMinTPCClustersName : list string := ["Proton"; "Deuteron"].
Definition SpeciesAvgTPCTOFName : list string :=
  ["Proton"; "AntiProton"; "Deuteron"; "AntiDeuteron"].
Definition TPCTOFAvgName : list string := ["TPC Avg"; "TOF Avg"].
Definition PidCutsName : list string :=
  ["TPC min"; "TPC max"; "TOF min"; "TOF max"; "TPCTOF max"].
Definition PtCutsName : list string := ["Pt min"; "Pt max"; "P thres"].

Definition nPidRejection : nat := 2.
Definition nTracks : nat := 2.
Definition nPidAvg : nat := 4.
Definition nPidCutsDaughers : nat := 2.
Definition nPtCuts : nat := 3.

(** The static tables, row-major. *)
Definition pidcutsTable : list float :=
  map f32_of_int [-6; 6; -6; 6; 6;
                  -6; 6; -99; 99; 99].
Definition pidcutsTableAnti : list float :=
  map f32_of_int [-6; 6; -6; 6; 6;
                  -6; 6; -99; 99; 99].
(** Declared with kNParticleRejection rows; the initialiser gives two and the
    third is zero-initialised. *)
Definition pidRejectionTable : list float :=
  map f32_of_int [-2; 2;
                  -2; 2;
                  0; 0].
Definition pidTPCTOFAvgTable : list float :=
  map f32_of_int [0; 0;
                  0; 0;
                  0; 0;
                  0; 0].
Definition pidcutsV0DaughterTable : list float :=
  map f32_of_int [-6; 6;
                  -6; 6].
Definition ptcutsTable : list float :=
  [f32_dec 35 100; f32_of_int 6; f32_dec 75 100;
   f32_dec 35 100; f32_dec 16 10; f32_of_int 99;
   f32_dec 35 100; f32_of_int 6; f32_of_int 99].
Definition NClustersMin : list float :=
  map f32_of_int [60; 60].

End CFTrigger.
Import CFTrigger.

(* ===================================================================== *)
(** * The task's configurables *)
(* ===================================================================== *)

(** The [Configurable<...>] members of [CFFilterQA] that its code reads. *)
Record Config : Type := {
  ConfIsRun3 : bool;
  ConfEvtSelectZvtx : bool;
  ConfEvtZvtx : float;
  ConfEvtOfflineCheck : bool;
  ConfCutBitPart : Z;
  ConfCutBitAntiPart : Z;
  ConfPidBitProton : Z;
  ConfDeuteronThPVMom : bool;
  ConfUseManualPIDproton : bool;
  ConfPIDBBProton : string;
  ConfPIDBBAntiProton : string;
  ConfUseManualPIDdeuteron : bool;
  ConfPIDBBDeuteron : string;
  ConfPIDBBAntiDeuteron : string;
  ConfUseManualPIDpion : bool;
  ConfPIDBBPion : string;
  ConfPIDBBAntiPion : string;
  ConfUseManualPIDel : bool;
  ConfPIDBBElectron : string;
  ConfPIDBBAntiElectron : string;
  ConfUseManualPIDdaughterPion : bool;
  ConfUseManualPIDdaughterProton : bool;
  ConfRejectNotPropagatedTracks : bool;
  ConfTrkEta : float;
  ConfTPCNClustersMin : LabeledArray;
  ConfTrkTPCfCls : float;
  ConfTrkTPCcRowsMin : float;
  ConfTrkTPCsClsMax : float;
  ConfTrkITSnclsMin : float;
  ConfTrkITSnclsIbMin : float;
  ConfTrkDCAxyMax : float;
  ConfTrkDCAzMax : float;
  ConfTrkRequireChi2MaxTPC : bool;
  ConfTrkRequireChi2MaxITS : bool;
  ConfTrkMaxChi2PerClusterTPC : float;
  ConfTrkMaxChi2PerClusterITS : float;
  ConfTrkTPCRefit : bool;
  ConfTrkITSRefit : bool;
  ConfPIDCuts : LabeledArray;
  ConfPIDCutsAnti : LabeledArray;
  ConfPtCuts : LabeledArray;
  ConfPIDRejection : LabeledArray;
  ConfPIDTPCTOFAvg : LabeledArray;
  ConfDaughEta : float;
  ConfDaughTPCnclsMin : float;
  ConfDaughDCAMin : float;
  ConfDaughPIDCuts : LabeledArray
}.

(** The defaults written in the struct, with three of the switches left
    open: [ConfIsRun3], [ConfUseManualPIDproton] and [ConfUseManualPIDpion]. *)
Definition configWith (isRun3 manualPIDproton manualPIDpion : bool) : Config := {|
  ConfIsRun3 := isRun3;
  ConfEvtSelectZvtx := true;
  ConfEvtZvtx := f32_of_int 10;
  ConfEvtOfflineCheck := false;
  ConfCutBitPart := 8190;
  ConfCutBitAntiPart := 8189;
  ConfPidBitProton := 1;
  ConfDeuteronThPVMom := false;
  ConfUseManualPIDproton := manualPIDproton;
  ConfPIDBBProton := "Users/l/lserksny/PIDProton";
  ConfPIDBBAntiProton := "Users/l/lserksny/PIDAntiProton";
  ConfUseManualPIDdeuteron := false;
  ConfPIDBBDeuteron := "Users/l/lserksny/PIDDeuteron";
  ConfPIDBBAntiDeuteron := "Users/l/lserksny/PIDAntiDeuteron";
  ConfUseManualPIDpion := manualPIDpion;
  ConfPIDBBPion := "Users/l/lserksny/PIDPion";
  ConfPIDBBAntiPion := "Users/l/lserksny/PIDAntiPion";
  ConfUseManualPIDel := false;
  ConfPIDBBElectron := "Users/l/lserksny/PIDElectron";
  ConfPIDBBAntiElectron := "Users/l/lserksny/PIDAntiElectron";
  ConfUseManualPIDdaughterPion := false;
  ConfUseManualPIDdaughterProton := false;
  ConfRejectNotPropagatedTracks := false;
  ConfTrkEta := f32_of_f64 (f64_dec 85 100);
  ConfTPCNClustersMin :=
    {| la_rows := 1; la_cols := nTracks; la_data := NClustersMin;
       la_labels_rows := ["TPCNClusMin"];
       la_labels_cols := SpeciesMinTPCClustersName |};
  ConfTrkTPCfCls := f32_of_f64 (f64_dec 83 100);
  ConfTrkTPCcRowsMin := f32_of_int 70;
  ConfTrkTPCsClsMax := f32_of_int 160;
  ConfTrkITSnclsMin := f32_of_int 0;
  ConfTrkITSnclsIbMin := f32_of_int 0;
  ConfTrkDCAxyMax := f32_of_f64 (f64_dec 15 100);
  ConfTrkDCAzMax := f32_of_f64 (f64_dec 3 10);
  ConfTrkRequireChi2MaxTPC := false;
  ConfTrkRequireChi2MaxITS := false;
  ConfTrkMaxChi2PerClusterTPC := f32_of_int 4;
  ConfTrkMaxChi2PerClusterITS := f32_of_int 36;
  ConfTrkTPCRefit := false;
  ConfTrkITSRefit := false;
  ConfPIDCuts :=
    {| la_rows := nTracks; la_cols := limitIndex kNPIDLimits;
       la_data := pidcutsTable;
       la_labels_rows := SpeciesName; la_labels_cols := PidCutsName |};
  ConfPIDCutsAnti :=
    {| la_rows := nTracks; la_cols := limitIndex kNPIDLimits;
       la_data := pidcutsTableAnti;
       la_labels_rows := SpeciesNameAnti; la_labels_cols := PidCutsName |};
  ConfPtCuts :=
    {| la_rows := rejectionIndex kNParticleRejection; la_cols := nPtCuts;
       la_data := ptcutsTable;
       la_labels_rows := SpeciesNameAll; la_labels_cols := PtCutsName |};
  ConfPIDRejection :=
    {| la_rows := rejectionIndex kNParticleRejection; la_cols := nPidRejection;
       la_data := pidRejectionTable;
       la_labels_rows := SpeciesRejectionName; la_labels_cols := TPCCutName |};
  ConfPIDTPCTOFAvg :=
    {| la_rows := nPidAvg; la_cols := nTracks;
       la_data := pidTPCTOFAvgTable;
       la_labels_rows := SpeciesAvgTPCTOFName;
       la_labels_cols := TPCTOFAvgName |};
  ConfDaughEta := f32_dec 85 100;
  ConfDaughTPCnclsMin := f32_of_int 60;
  ConfDaughDCAMin := f32_dec 4 100;
  ConfDaughPIDCuts :=
    {| la_rows := daughterIndex kNV0Daughters; la_cols := nPidCutsDaughers;
       la_data := pidcutsV0DaughterTable;
       la_labels_rows := SpeciesV0DaughterName;
       la_labels_cols := TPCCutName |}
|}.

(** The configuration as the struct declares it: run 3, no manual PID. *)
Definition defaultConfig : Config := configWith true false false.

(* ===================================================================== *)
(** * Input tables *)
(* ===================================================================== *)

(** One row of [aod::FemtoFullTracks], with the columns the task reads.
    The columns are defined by the framework's data model: momenta, angles,
    DCAs, chi2 and nSigma values are [float]; cluster counts and the charge
    sign are integers. *)
Module track.
Record t : Type := {
  pt : float;
  eta : float;
  phi : float;
  p : float;
  sign : Z;
  tpcInnerParam : float;
  tpcSignal : float;
  tpcNClsFound : Z;
  tpcCrossedRowsOverFindableCls : float;
  tpcNClsCrossedRows : Z;
  tpcNClsShared : Z;
  itsNCls : Z;
  itsNClsInnerBarrel : Z;
  dcaXY : float;
  dcaZ : float;
  tpcChi2NCl : float;
  itsChi2NCl : float;
  hasTPC : bool;
  hasITS : bool;
  tpcNSigmaPr : float;
  tpcNSigmaDe : float;
  tpcNSigmaPi : float;
  tpcNSigmaEl : float;
  tofNSigmaPr : float;
  tofNSigmaDe : float
}.
End track.
Definition Track : Type := track.t.

(** One row of [aod::FemtoFullCollision] with the bunch crossing it points
    to ([col.bc_as<aod::BCsWithTimestamps>()]). *)
Module col.
Record t : Type := {
  posZ : float;
  sel8 : bool;
  multNTracksPV : Z;
  multFV0M : float;
  bc_runNumber : Z;
  bc_timestamp : Z
}.
End col.
Definition Collision : Type := col.t.

(** The conditions database: the histogram stored under a path for a
    timestamp, if there is one.  A [TH1F] is read only through
    [GetBinContent(axis->FindBin(label))], so it is its labelled contents. *)
Definition TH1F : Type := string -> double.
Definition CCDB : Type := string -> Z -> option TH1F.

(* ===================================================================== *)
(** * Output tables and histograms *)
(* ===================================================================== *)

(** A value handed to [registry.fill] or [histos.fill]. *)
Inductive HVal : Type :=
| HInt (z : Z)
| HFloat (x : float)
| HDouble (x : double).

Record Fill : Type := { h_name : string; h_values : list HVal }.

(** A row of [aod::FemtoDreamCollisions]. *)
Record CollisionRow : Type := {
  cr_posZ : float;
  cr_multV0M : float;
  cr_multNtr : Z;
  cr_sphericity : Z;
  cr_magField : Z
}.

Inductive ParticleType : Type := kTrack.

(** A row of [aod::FemtoDreamParticles]. *)
Record ParticleRow : Type := {
  pr_collisionId : Z;
  pr_pt : float;
  pr_eta : float;
  pr_phi : float;
  pr_partType : ParticleType;
  pr_cut : Z;
  pr_pidcut : Z;
  pr_tempFitVar : float;
  pr_childrenIds : Z * Z;
  pr_mLambda : float;
  pr_mAntiLambda : float
}.

(** [static_cast<uint32_t>(int)] *)
Definition to_uint32 (z : Z) : Z := z mod 2 ^ 32.

(* ===================================================================== *)
(** * The task struct *)
(* ===================================================================== *)

(** The members of [struct CFFilterQA].  [registry], [outputCollision] and
    [outputParts] hold what has been filled and appended so far, oldest
    first; [ccdbApi] holds the retrievals made through the CCDB client. *)
Record CFFilterQA : Type := {
  conf : Config;
  mMassElectron : float;
  mMassPion : float;
  mMassProton : float;
  mMassLambda : float;
  mMassDeuteron : float;
  currentRunNumber : Z;
  lastRunNumber : Z;
  BBProton : list double;
  BBAntiproton : list double;
  BBDeuteron : list double;
  BBAntideuteron : list double;
  BBPion : list double;
  BBAntipion : list double;
  BBElectron : list double;
  BBAntielectron : list double;
  registry : list Fill;
  outputCollision : list CollisionRow;
  outputParts : list ParticleRow;
  ccdbApi : list (string * Z)
}.

(** Assignments to single members. *)
Definition set_currentRunNumber (v : Z) (s : CFFilterQA) : CFFilterQA :=
  let '(Build_CFFilterQA c me mpi mp ml md _ lr b1 b2 b3 b4 b5 b6 b7 b8 r oc op cc) := s in
  Build_CFFilterQA c me mpi mp ml md v lr b1 b2 b3 b4 b5 b6 b7 b8 r oc op cc.
Definition set_lastRunNumber (v : Z) (s : CFFilterQA) : CFFilterQA :=
  let '(Build_CFFilterQA c me mpi mp ml md cr _ b1 b2 b3 b4 b5 b6 b7 b8 r oc op cc) := s in
  Build_CFFilterQA c me mpi mp ml md cr v b1 b2 b3 b4 b5 b6 b7 b8 r oc op cc.
Definition set_BBProton (v : list double) (s : CFFilterQA) : CFFilterQA :=
  let '(Build_CFFilterQA c me mpi mp ml md cr lr _ b2 b3 b4 b5 b6 b7 b8 r oc op cc) := s in
  Build_CFFilterQA c me mpi mp ml md cr lr v b2 b3 b4 b5 b6 b7 b8 r oc op cc.
Definition set_BBAntiproton (v : list double) (s : CFFilterQA) : CFFilterQA :=
  let '(Build_CFFilterQA c me mpi mp ml md cr lr b1 _ b3 b4 b5 b6 b7 b8 r oc op cc) := s in
  Build_CFFilterQA c me mpi mp ml md cr lr b1 v b3 b4 b5 b6 b7 b8 r oc op cc.
Definition set_BBDeuteron (v : list double) (s : CFFilterQA) : CFFilterQA :=
  let '(Build_CFFilterQA c me mpi mp ml md cr lr b1 b2 _ b4 b5 b6 b7 b8 r oc op cc) := s in
  Build_CFFilterQA c me mpi mp ml md cr lr b1 b2 v b4 b5 b6 b7 b8 r oc op cc.
Definition set_BBAntideuteron (v : list double) (s : CFFilterQA) : CFFilterQA :=
  let '(Build_CFFilterQA c me mpi mp ml md cr lr b1 b2 b3 _ b5 b6 b7 b8 r oc op cc) := s in
  Build_CFFilterQA c me mpi mp ml md cr lr b1 b2 b3 v b5 b6 b7 b8 r oc op cc.
Definition set_BBPion (v : list double) (s : CFFilterQA) : CFFilterQA :=
  let '(Build_CFFilterQA c me mpi mp ml md cr lr b1 b2 b3 b4 _ b6 b7 b8 r oc op cc) := s in
  Build_CFFilterQA c me mpi mp ml md cr lr b1 b2 b3 b4 v b6 b7 b8 r oc op cc.
Definition set_BBAntipion (v : list double) (s : CFFilterQA) : CFFilterQA :=
  let '(Build_CFFilterQA c me mpi mp ml md cr lr b1 b2 b3 b4 b5 _ b7 b8 r oc op cc) := s in
  Build_CFFilterQA c me mpi mp ml md cr lr b1 b2 b3 b4 b5 v b7 b8 r oc op cc.
Definition set_BBElectron (v : list double) (s : CFFilterQA) : CFFilterQA :=
  let '(Build_CFFilterQA c me mpi mp ml md cr lr b1 b2 b3 b4 b5 b6 _ b8 r oc op cc) := s in
  Build_CFFilterQA c me mpi mp ml md cr lr b1 b2 b3 b4 b5 b6 v b8 r oc op cc.
Definition set_BBAntielectron (v : list double) (s : CFFilterQA) : CFFilterQA :=
  let '(Build_CFFilterQA c me mpi mp ml md cr lr b1 b2 b3 b4 b5 b6 b7 _ r oc op cc) := s in
  Build_CFFilterQA c me mpi mp ml md cr lr b1 b2 b3 b4 b5 b6 b7 v r oc op cc.
Definition set_registry (v : list Fill) (s : CFFilterQA) : CFFilterQA :=
  let '(Build_CFFilterQA c me mpi mp ml md cr lr b1 b2 b3 b4 b5 b6 b7 b8 _ oc op cc) := s in
  Build_CFFilterQA c me mpi mp ml md cr lr b1 b2 b3 b4 b5 b6 b7 b8 v oc op cc.
Definition set_outputCollision (v : list CollisionRow) (s : CFFilterQA) : CFFilterQA :=
  let '(Build_CFFilterQA c me mpi mp ml md cr lr b1 b2 b3 b4 b5 b6 b7 b8 r _ op cc) := s in
  Build_CFFilterQA c me mpi mp ml md cr lr b1 b2 b3 b4 b5 b6 b7 b8 r v op cc.
Definition set_outputParts (v : list ParticleRow) (s : CFFilterQA) : CFFilterQA :=
  let '(Build_CFFilterQA c me mpi mp ml md cr lr b1 b2 b3 b4 b5 b6 b7 b8 r oc _ cc) := s in
  Build_CFFilterQA c me mpi mp ml md cr lr b1 b2 b3 b4 b5 b6 b7 b8 r oc v cc.
Definition set_ccdbApi (v : list (string * Z)) (s : CFFilterQA) : CFFilterQA :=
  let '(Build_CFFilterQA c me mpi mp ml md cr lr b1 b2 b3 b4 b5 b6 b7 b8 r oc op _) := s in
  Build_CFFilterQA c me mpi mp ml md cr lr b1 b2 b3 b4 b5 b6 b7 b8 r oc op v.

(* ===================================================================== *)
(** * Member functions that run against a task's state *)
(* ===================================================================== *)

(** Why a member function stopped the program. *)
Inductive Abort : Type :=
| AbortFatal (msg : string)
| AbortOutOfRange (w : Access).

(** A run of a member function of a task struct [S] ends normally with a
    value, or stops the program; both leave the struct in the state reached
    so far. *)
Inductive Outcome (S A : Type) : Type :=
| Done (a : A) (st : S)
| Aborted (why : Abort) (st : S).
Arguments Done {S A} a st.
Arguments Aborted {S A} why st.

Definition outcome_state {S A} (o : Outcome S A) : S :=
  match o with
  | Done _ st => st
  | Aborted _ st => st
  end.

Definition Task (S A : Type) : Type := S -> Outcome S A.

Definition ret {S A} (a : A) : Task S A := fun st => Done a st.

Definition bind {S A B} (m : Task S A) (k : A -> Task S B) : Task S B :=
  fun st =>
    match m st with
    | Done a st' => k a st'
    | Aborted why st' => Aborted why st'
    end.

Notation "x <- m ;; k" := (bind m (fun x => k))
  (at level 61, m at next level, right associativity).
Notation "m ;; k" := (bind m (fun _ => k))
  (at level 61, right associativity).

(** The task itself ([this]). *)
Definition this {S} : Task S S := fun st => Done st st.

Definition modify {S} (f : S -> S) : Task S unit :=
  fun st => Done tt (f st).

(** [LOG(fatal) << msg]: the framework ends the program. *)
Definition fatal {S A} (msg : string) : Task S A :=
  fun st => Aborted (AbortFatal msg) st.

(** The result of a call that left the task as it was. *)
Definition lift {S A} (r : Res A) : Task S A :=
  fun st =>
    match r with
    | Ok a => Done a st
    | Fatal msg => Aborted (AbortFatal msg) st
    | OutOfRange w => Aborted (AbortOutOfRange w) st
    end.

(** Call a member function that only reads the task. *)
Definition call {S A} (f : S -> Res A) : Task S A :=
  fun st => lift (f st) st.

Definition when {S} (b : bool) (m : Task S unit) : Task S unit :=
  if b then m else ret tt.

Fixpoint forEach {S A} (xs : list A) (body : A -> Task S unit) : Task S unit :=
  match xs with
  | [] => ret tt
  | x :: rest => body x ;; forEach rest body
  end.

(** [registry.fill(HIST(name), values...)] of [CFFilterQA]. *)
Definition fill (name : string) (values : list HVal) : Task CFFilterQA unit :=
  modify (fun st =>
    set_registry (registry st ++ [{| h_name := name; h_values := values |}])%list st).

(* ===================================================================== *)
(** * CFFilterQA: the selection predicates *)
(* ===================================================================== *)

(** [bool isSelectedEvent(T const& col)] *)
Definition isSelectedEvent (st : CFFilterQA) (c : Collision) : bool :=
  let cfg := conf st in
  if ConfEvtSelectZvtx cfg && fgt (fabs (col.posZ c)) (ConfEvtZvtx cfg) then false
  else if ConfEvtOfflineCheck cfg && negb (col.sel8 c) then false
  else true.

(** [bool isSelectedTrack(T const& track, CFTrigger::ParticleSpecies partSpecies)] *)
Definition isSelectedTrack (st : CFFilterQA) (trk : Track)
    (partSpecies : ParticleSpecies) : Res bool :=
  let cfg := conf st in
  let pT := track.pt trk in
  let eta := track.eta trk in
  let tpcNClsF := track.tpcNClsFound trk in
  let tpcRClsC := track.tpcCrossedRowsOverFindableCls trk in
  let tpcNClsC := track.tpcNClsCrossedRows trk in
  let tpcNClsS := track.tpcNClsShared trk in
  let itsNCls := track.itsNCls trk in
  let itsNClsIB := track.itsNClsInnerBarrel trk in
  let dcaXY := track.dcaXY trk in
  let dcaZ := track.dcaZ trk in
  ptMin <-- get_is (ConfPtCuts cfg) (speciesIndex partSpecies) "Pt min" ;;
  if flt pT ptMin then Ok false else
  ptMax <-- get_is (ConfPtCuts cfg) (speciesIndex partSpecies) "Pt max" ;;
  if fgt pT ptMax then Ok false else
  if fgt (fabs eta) (ConfTrkEta cfg) then Ok false else
  nClsMin <-- get_si (ConfTPCNClustersMin cfg) "TPCNClusMin" (speciesIndex partSpecies) ;;
  if flt (f32_of_int tpcNClsF) nClsMin then Ok false else
  if flt tpcRClsC (ConfTrkTPCfCls cfg) then Ok false else
  if flt (f32_of_int tpcNClsC) (ConfTrkTPCcRowsMin cfg) then Ok false else
  if fgt (f32_of_int tpcNClsS) (ConfTrkTPCsClsMax cfg) then Ok false else
  if flt (f32_of_int itsNCls) (ConfTrkITSnclsMin cfg) then Ok false else
  if flt (f32_of_int itsNClsIB) (ConfTrkITSnclsIbMin cfg) then Ok false else
  if fgt (fabs dcaXY) (ConfTrkDCAxyMax cfg) then Ok false else
  if fgt (fabs dcaZ) (ConfTrkDCAzMax cfg) then Ok false else
  if ConfRejectNotPropagatedTracks cfg
     && fgt (f64_of_f32 (fabs dcaXY)) (f64_of_int 1000) then Ok false else
  if ConfTrkRequireChi2MaxTPC cfg
     && fge (track.tpcChi2NCl trk) (ConfTrkMaxChi2PerClusterTPC cfg) then Ok false else
  if ConfTrkRequireChi2MaxITS cfg
     && fge (track.itsChi2NCl trk) (ConfTrkMaxChi2PerClusterITS cfg) then Ok false else
  if ConfTrkTPCRefit cfg && negb (track.hasTPC trk) then Ok false else
  if ConfTrkITSRefit cfg && negb (track.hasITS trk) then Ok false else
  Ok true.

(** [bool isSelectedV0Daughter(T const& track, float charge,
                               CFTrigger::V0Daughters species,
                               double nSigmaTPCDaug[2])] *)
Definition isSelectedV0Daughter (st : CFFilterQA) (trk : Track) (charge : float)
    (species : V0Daughters) (nSigmaTPCDaug : double * double) : Res bool :=
  let cfg := conf st in
  let eta := track.eta trk in
  let tpcNClsF := track.tpcNClsFound trk in
  let dcaXY := track.dcaXY trk in
  let sign := track.sign trk in
  if flt charge (f32_of_int 0) && (sign >? 0) then Ok false else
  if fgt charge (f32_of_int 0) && (sign <? 0) then Ok false else
  if fgt (fabs eta) (ConfDaughEta cfg) then Ok false else
  if flt (f32_of_int tpcNClsF) (ConfDaughTPCnclsMin cfg) then Ok false else
  if flt (fabs dcaXY) (ConfDaughDCAMin cfg) then Ok false else
  nSigmaTPC <-- match species with
                | kDaughPion => Ok (snd nSigmaTPCDaug)
                | kDaughProton => Ok (fst nSigmaTPCDaug)
                | kNV0Daughters => Fatal "Particle species for V0 daughters not found"
                end ;;
  tpcMin <-- get_is (ConfDaughPIDCuts cfg) (daughterIndex species) "TPC min" ;;
  if flt nSigmaTPC (f64_of_f32 tpcMin) then Ok false else
  tpcMax <-- get_is (ConfDaughPIDCuts cfg) (daughterIndex species) "TPC max" ;;
  if fgt nSigmaTPC (f64_of_f32 tpcMax) then Ok false else
  Ok true.

(** [BB[i]] on a [std::vector<double>] *)
Definition vec_at (v : list double) (i : nat) : Res double :=
  match nth_error v i with
  | Some x => Ok x
  | None => OutOfRange VectorAccess
  end.

(** The combined TPC and TOF nSigma,
    [std::sqrt(std::pow(nSigmaTPC - avgTPC, 2) + std::pow(tof - avgTOF, 2))],
    computed as C++ does: the TPC difference in double, the TOF difference
    in float, the squares, sum and root in double.  [combinedNSigma] is the
    value once stored in the [float] local [nSigma]. *)
Definition combinedNSigma64 (nSigmaTPC : double) (avgTPC : float)
    (tof : float) (avgTOF : float) : double :=
  f64_sqrt
    (f64_add (f64_pow2 (f64_sub nSigmaTPC (f64_of_f32 avgTPC)))
             (f64_pow2 (f64_of_f32 (f32_sub tof avgTOF)))).

Definition combinedNSigma (nSigmaTPC : double) (avgTPC : float)
    (tof : float) (avgTOF : float) : float :=
  f32_of_f64 (combinedNSigma64 nSigmaTPC avgTPC tof avgTOF).

Section WithBetheBloch.

(** [o2::tpc::BetheBlochAleph(bg, kp1, kp2, kp3, kp4, kp5)] of the framework's
    [DataFormatsTPC/BetheBlochAleph.h]: a parameter of the development. *)
Variable BetheBlochAleph : double -> double -> double -> double -> double -> double -> double.

(** [double updatePID(T const& track, double bgScaling, std::vector<double> BB)] *)
Definition updatePID (trk : Track) (bgScaling : double) (BB : list double)
  : Res double :=
  bb0 <-- vec_at BB 0 ;;
  bb1 <-- vec_at BB 1 ;;
  bb2 <-- vec_at BB 2 ;;
  bb3 <-- vec_at BB 3 ;;
  bb4 <-- vec_at BB 4 ;;
  let expBethe :=
    BetheBlochAleph (f64_mul (f64_of_f32 (track.tpcInnerParam trk)) bgScaling)
                    bb0 bb1 bb2 bb3 bb4 in
  bb5 <-- vec_at BB 5 ;;
  let expSigma := f64_mul expBethe bb5 in
  Ok (f64_of_f32
        (f32_of_f64
           (f64_div (f64_sub (f64_of_f32 (track.tpcSignal trk)) expBethe)
                    expSigma))).

(** The momentum test of [isSelectedTrackPID] (its [pThres]). *)
Definition momentumBelowThreshold (st : CFFilterQA) (trk : Track)
    (partSpecies : ParticleSpecies) : Res bool :=
  let cfg := conf st in
  pThresCut <-- get_is (ConfPtCuts cfg) (speciesIndex partSpecies) "P thres" ;;
  let pThres := fle (track.tpcInnerParam trk) pThresCut in
  match partSpecies with
  | kDeuteron =>
      if ConfDeuteronThPVMom cfg then
        pThresCut' <-- get_is (ConfPtCuts cfg) (speciesIndex partSpecies) "P thres" ;;
        Ok (fle (track.p trk) pThresCut')
      else Ok pThres
  | _ => Ok pThres
  end.

(** The [switch] of [isSelectedTrackPID] that computes the [float] local
    [nSigma]. *)
Definition pidNSigma (st : CFFilterQA) (trk : Track)
    (partSpecies : ParticleSpecies) (pThres : bool)
    (nSigmaTPC : double * double) (charge : Z) : Res float :=
  let cfg := conf st in
  match partSpecies with
  | kProton =>
      if pThres then Ok (f32_of_f64 (fst nSigmaTPC))
      else
        let row := if charge >? 0 then "Proton" else "AntiProton" in
        avgTPC <-- get_ss (ConfPIDTPCTOFAvg cfg) row "TPC Avg" ;;
        avgTOF <-- get_ss (ConfPIDTPCTOFAvg cfg) row "TOF Avg" ;;
        Ok (combinedNSigma (fst nSigmaTPC) avgTPC (track.tofNSigmaPr trk) avgTOF)
  | kDeuteron =>
      if pThres then Ok (f32_of_f64 (snd nSigmaTPC))
      else
        let row := if charge >? 0 then "Deuteron" else "AntiDeuteron" in
        avgTPC <-- get_ss (ConfPIDTPCTOFAvg cfg) row "TPC Avg" ;;
        avgTOF <-- get_ss (ConfPIDTPCTOFAvg cfg) row "TOF Avg" ;;
        Ok (combinedNSigma (snd nSigmaTPC) avgTPC (track.tofNSigmaDe trk) avgTOF)
  | kLambda => Fatal "No PID selection for Lambdas"
  | kNParticleSpecies => Fatal "Particle species not known"
  end.

(** [ConfPIDCuts] for a positive charge, [ConfPIDCutsAnti] otherwise. *)
Definition pidCut (st : CFFilterQA) (partSpecies : ParticleSpecies)
    (charge : Z) (limit : PIDLimits) : Res float :=
  if charge >? 0
  then get_ii (ConfPIDCuts (conf st)) (speciesIndex partSpecies) (limitIndex limit)
  else get_ii (ConfPIDCutsAnti (conf st)) (speciesIndex partSpecies) (limitIndex limit).

(** The pion nSigma of the [if (Rejection)] block: the track's TPC value,
    replaced by [updatePID] when [ConfUseManualPIDpion] is on and the vector
    for the charge has six entries. *)
Definition rejectionNSigmaPi (st : CFFilterQA) (trk : Track) (charge : Z) : Res double :=
  let nSigmaPi := f64_of_f32 (track.tpcNSigmaPi trk) in
  if ConfUseManualPIDpion (conf st) then
    let bgScalingPion := f32_div (f32_of_int 1) (mMassPion st) in
    nSigmaPi <-- (if (List.length (BBPion st) =? 6)%nat && (charge >? 0)
                  then updatePID trk (f64_of_f32 bgScalingPion) (BBPion st)
                  else Ok nSigmaPi) ;;
    (if (List.length (BBAntipion st) =? 6)%nat && (charge <? 0)
     then updatePID trk (f64_of_f32 bgScalingPion) (BBAntipion st)
     else Ok nSigmaPi)
  else Ok nSigmaPi.

(** The electron nSigma of the [if (Rejection)] block. *)
Definition rejectionNSigmaEl (st : CFFilterQA) (trk : Track) (charge : Z) : Res double :=
  let nSigmaEl := f64_of_f32 (track.tpcNSigmaEl trk) in
  if ConfUseManualPIDel (conf st) then
    let bgScalingElectron := f32_div (f32_of_int 1) (mMassElectron st) in
    nSigmaEl <-- (if (List.length (BBElectron st) =? 6)%nat && (charge <? 0)
                  then updatePID trk (f64_of_f32 bgScalingElectron) (BBElectron st)
                  else Ok nSigmaEl) ;;
    (if (List.length (BBAntielectron st) =? 6)%nat && (charge >? 0)
     then updatePID trk (f64_of_f32 bgScalingElectron) (BBAntielectron st)
     else Ok nSigmaEl)
  else Ok nSigmaEl.

(** [ConfPIDRejection->get(r, kTPCMin) < x && ConfPIDRejection->get(r, kTPCMax) > x] *)
Definition withinRejection (st : CFFilterQA) (r : ParticleRejection) (x : double)
  : Res bool :=
  lo <-- get_ii (ConfPIDRejection (conf st)) (rejectionIndex r) (limitIndex kTPCMin) ;;
  if flt (f64_of_f32 lo) x then
    hi <-- get_ii (ConfPIDRejection (conf st)) (rejectionIndex r) (limitIndex kTPCMax) ;;
    Ok (fgt (f64_of_f32 hi) x)
  else Ok false.

(** The [if (Rejection)] block of [isSelectedTrackPID]: true when the track
    is compatible with a proton, pion or electron and is to be rejected. *)
Definition rejectedAsOther (st : CFFilterQA) (trk : Track)
    (nSigmaTPC : double * double) (charge : Z) : Res bool :=
  nSigmaPi <-- rejectionNSigmaPi st trk charge ;;
  nSigmaEl <-- rejectionNSigmaEl st trk charge ;;
  isPr <-- withinRejection st kRejProton (fst nSigmaTPC) ;;
  if isPr then Ok true else
  isPi <-- withinRejection st kRejPion nSigmaPi ;;
  if isPi then Ok true else
  withinRejection st kRejElectron nSigmaEl.

(** [bool isSelectedTrackPID(T const& track, CFTrigger::ParticleSpecies partSpecies,
                             bool Rejection, double nSigmaTPC[2], int charge)] *)
Definition isSelectedTrackPID (st : CFFilterQA) (trk : Track)
    (partSpecies : ParticleSpecies) (Rejection : bool)
    (nSigmaTPC : double * double) (charge : Z) : Res bool :=
  pThres <-- momentumBelowThreshold st trk partSpecies ;;
  nSigma <-- pidNSigma st trk partSpecies pThres nSigmaTPC charge ;;
  TPCmin <-- pidCut st partSpecies charge kTPCMin ;;
  TPCmax <-- pidCut st partSpecies charge kTPCMax ;;
  TPCTOFmax <-- pidCut st partSpecies charge kTPCTOF ;;
  let isSelected :=
    if pThres then fgt nSigma TPCmin && flt nSigma TPCmax
    else flt nSigma TPCTOFmax in
  if Rejection then
    rejected <-- rejectedAsOther st trk nSigmaTPC charge ;;
    if rejected then Ok false else Ok isSelected
  else Ok isSelected.

(* ===================================================================== *)
(** * CFFilterQA: Bethe-Bloch parameters and [process] *)
(* ===================================================================== *)

(** [std::vector<double> setValuesBB(aod::BCsWithTimestamps::iterator const&
                                     bunchCrossing, const std::string ccdbPath)]
    The retrieval goes through [ccdbApi]; the two [LOG(info)] lines leave no
    trace in the task. *)
Definition setValuesBB (ccdb : CCDB) (c : Collision) (ccdbPath : string)
  : Task CFFilterQA (list double) :=
  modify (fun st => set_ccdbApi (ccdbApi st ++ [(ccdbPath, col.bc_timestamp c)])%list st) ;;
  match ccdb ccdbPath (col.bc_timestamp c) with
  | None => ret []
  | Some h =>
      ret [h "bb1"; h "bb2"; h "bb3"; h "bb4"; h "bb5"; h "Resolution"]
  end.

(** [BB = setValuesBB(bc, path); BBAnti = setValuesBB(bc, antiPath);] *)
Definition fetchPair (ccdb : CCDB) (c : Collision) (path antiPath : string)
    (set setAnti : list double -> CFFilterQA -> CFFilterQA) : Task CFFilterQA unit :=
  v <- setValuesBB ccdb c path ;;
  modify (set v) ;;
  v' <- setValuesBB ccdb c antiPath ;;
  modify (setAnti v').

(** The four reloads inside [if (currentRunNumber != lastRunNumber)]; as in
    the source, the electron pair is reloaded under [ConfUseManualPIDpion]. *)
Definition reloadVectors (ccdb : CCDB) (c : Collision) (cfg : Config)
  : Task CFFilterQA unit :=
  when (ConfUseManualPIDproton cfg || ConfUseManualPIDdaughterProton cfg)
    (fetchPair ccdb c (ConfPIDBBProton cfg) (ConfPIDBBAntiProton cfg)
               set_BBProton set_BBAntiproton) ;;
  when (ConfUseManualPIDdeuteron cfg)
    (fetchPair ccdb c (ConfPIDBBDeuteron cfg) (ConfPIDBBAntiDeuteron cfg)
               set_BBDeuteron set_BBAntideuteron) ;;
  when (ConfUseManualPIDpion cfg || ConfUseManualPIDdaughterPion cfg)
    (fetchPair ccdb c (ConfPIDBBPion cfg) (ConfPIDBBAntiPion cfg)
               set_BBPion set_BBAntipion) ;;
  when (ConfUseManualPIDpion cfg)
    (fetchPair ccdb c (ConfPIDBBElectron cfg) (ConfPIDBBAntiElectron cfg)
               set_BBElectron set_BBAntielectron).

(** The run-number block at the head of [process]: reload the Bethe-Bloch
    vectors when manual PID is on and the run number changed. *)
Definition reloadBB (ccdb : CCDB) (c : Collision) : Task CFFilterQA unit :=
  st <- this ;;
  when (ConfUseManualPIDproton (conf st) || ConfUseManualPIDdeuteron (conf st)) (
    modify (set_currentRunNumber (col.bc_runNumber c)) ;;
    st1 <- this ;;
    when (negb (currentRunNumber st1 =? lastRunNumber st1)) (
      reloadVectors ccdb c (conf st1) ;;
      st2 <- this ;;
      modify (set_lastRunNumber (currentRunNumber st2)))).

(** The arrays [nTPCSigmaP] and [nTPCSigmaN] of the track loop, after the
    two [ConfUseManualPID...] blocks. *)
Definition nTPCSigma (st : CFFilterQA) (trk : Track)
  : Res ((double * double) * (double * double)) :=
  let cfg := conf st in
  let nominalPr := f64_of_f32 (track.tpcNSigmaPr trk) in
  let nominalDe := f64_of_f32 (track.tpcNSigmaDe trk) in
  pr <--
    (if ConfUseManualPIDproton cfg then
       let bgScalingProton := f32_div (f32_of_int 1) (mMassProton st) in
       a <-- (if (List.length (BBProton st) =? 6)%nat
              then updatePID trk (f64_of_f32 bgScalingProton) (BBProton st)
              else Ok nominalPr) ;;
       b <-- (if (List.length (BBAntiproton st) =? 6)%nat
              then updatePID trk (f64_of_f32 bgScalingProton) (BBAntiproton st)
              else Ok nominalPr) ;;
       Ok (a, b)
     else Ok (nominalPr, nominalPr)) ;;
  de <--
    (if ConfUseManualPIDdeuteron cfg then
       let bgScalingDeuteron := f32_div (f32_of_int 1) (mMassDeuteron st) in
       a <-- (if (List.length (BBDeuteron st) =? 6)%nat
              then updatePID trk (f64_of_f32 bgScalingDeuteron) (BBDeuteron st)
              else Ok nominalDe) ;;
       b <-- (if (List.length (BBAntideuteron st) =? 6)%nat
              then updatePID trk (f64_of_f32 bgScalingDeuteron) (BBAntideuteron st)
              else Ok nominalDe) ;;
       Ok (a, b)
     else Ok (nominalDe, nominalDe)) ;;
  Ok ((fst pr, fst de), (snd pr, snd de)).

(** The combined nSigma handed to a histogram (a double). *)
Definition fillCombined (name : string) (trk : Track) (nSigma : double)
    (row : string) : Task CFFilterQA unit :=
  avgTPC <- call (fun st => get_ss (ConfPIDTPCTOFAvg (conf st)) row "TPC Avg") ;;
  avgTOF <- call (fun st => get_ss (ConfPIDTPCTOFAvg (conf st)) row "TOF Avg") ;;
  fill name [HFloat (track.tpcInnerParam trk);
             HDouble (combinedNSigma64 nSigma avgTPC (track.tofNSigmaPr trk) avgTOF)].

(** [outputParts(outputCollision.lastIndex(), pt, eta, phi, kTrack, cutbit,
                 pidbit, dcaXY, childIDs, 0.f, 0.f)] with [childIDs = {0, 0}];
    [cutbit] is [ConfCutBitPart] or [ConfCutBitAntiPart]. *)
Definition appendParticle (trk : Track) (cutbit : Config -> Z) : Task CFFilterQA unit :=
  modify (fun st =>
    set_outputParts
      (outputParts st ++
       [{| pr_collisionId := Z.of_nat (List.length (outputCollision st)) - 1;
           pr_pt := track.pt trk;
           pr_eta := track.eta trk;
           pr_phi := track.phi trk;
           pr_partType := kTrack;
           pr_cut := to_uint32 (cutbit (conf st));
           pr_pidcut := to_uint32 (ConfPidBitProton (conf st));
           pr_tempFitVar := track.dcaXY trk;
           pr_childrenIds := (0, 0);
           pr_mLambda := f32_of_int 0;
           pr_mAntiLambda := f32_of_int 0 |}])%list st).

(** The histograms filled for a selected proton or antiproton after the
    momentum ones ([tag] is "Proton" or "AntiProton"). *)
Definition fillSelected (tag : string) (trk : Track) (nSigma : double) : Task CFFilterQA unit :=
  let h (suffix : string) := ("TrackCuts/" ++ tag ++ "/" ++ suffix ++ tag)%string in
  fill (h "fPt") [HFloat (track.pt trk)] ;;
  fill (h "fEta") [HFloat (track.eta trk)] ;;
  fill (h "fPhi") [HFloat (track.phi trk)] ;;
  fill (h "fNsigmaTPCvsP") [HFloat (track.tpcInnerParam trk); HDouble nSigma] ;;
  fill (h "fNsigmaTOFvsP") [HFloat (track.tpcInnerParam trk);
                             HFloat (track.tofNSigmaPr trk)] ;;
  fillCombined (h "fNsigmaTPCTOFvsP") trk nSigma tag ;;
  fill (h "fDCAxy") [HFloat (track.dcaXY trk)] ;;
  fill (h "fDCAz") [HFloat (track.dcaZ trk)] ;;
  fill (h "fTPCsCls") [HInt (track.tpcNClsShared trk)] ;;
  fill (h "fTPCcRows") [HInt (track.tpcNClsCrossedRows trk)] ;;
  fill (h "fTrkTPCfCls") [HFloat (track.tpcCrossedRowsOverFindableCls trk)] ;;
  fill (h "fTPCncls") [HInt (track.tpcNClsFound trk)].

(** The body of [for (auto& track : tracks)]. *)
Definition processTrack (trk : Track) : Task CFFilterQA unit :=
  nS <- call (fun st => nTPCSigma st trk) ;;
  let nTPCSigmaP := fst nS in
  let nTPCSigmaN := snd nS in
  fill "TrackCuts/TracksBefore/fPtTrackBefore" [HFloat (track.pt trk)] ;;
  fill "TrackCuts/TracksBefore/fEtaTrackBefore" [HFloat (track.eta trk)] ;;
  fill "TrackCuts/TracksBefore/fPhiTrackBefore" [HFloat (track.phi trk)] ;;
  when (track.sign trk >? 0) (
    fill "TrackCuts/TPCSignal/fTPCSignal"
         [HFloat (track.tpcInnerParam trk); HFloat (track.tpcSignal trk)] ;;
    fill "TrackCuts/TPCSignal/fTPCSignalP"
         [HFloat (track.p trk); HFloat (track.tpcSignal trk)] ;;
    sel <- call (fun st => isSelectedTrack st trk kProton) ;;
    when sel (
      fill "TrackCuts/TPCSignal/fTPCSignalALLCUTS"
           [HFloat (track.tpcInnerParam trk); HFloat (track.tpcSignal trk)] ;;
      fill "TrackCuts/TPCSignal/fTPCSignalALLCUTSP"
           [HFloat (track.p trk); HFloat (track.tpcSignal trk)] ;;
      fill "TrackCuts/TracksBefore/fMomCorrelationAfterCuts"
           [HFloat (track.p trk); HFloat (track.tpcInnerParam trk)]) ;;
    fill "TrackCuts/NSigmaBefore/fNsigmaTPCvsPProtonBefore"
         [HFloat (track.tpcInnerParam trk); HDouble (fst nTPCSigmaP)] ;;
    fill "TrackCuts/NSigmaBefore/fNsigmaTOFvsPProtonBefore"
         [HFloat (track.tpcInnerParam trk); HFloat (track.tofNSigmaPr trk)] ;;
    fillCombined "TrackCuts/NSigmaBefore/fNsigmaTPCTOFvsPProtonBefore"
                 trk (fst nTPCSigmaP) "Proton") ;;
  when (track.sign trk <? 0) (
    fill "TrackCuts/TPCSignal/fTPCSignalAnti"
         [HFloat (track.tpcInnerParam trk); HFloat (track.tpcSignal trk)] ;;
    fill "TrackCuts/TPCSignal/fTPCSignalAntiP"
         [HFloat (track.p trk); HFloat (track.tpcSignal trk)] ;;
    sel <- call (fun st => isSelectedTrack st trk kProton) ;;
    when sel (
      fill "TrackCuts/TPCSignal/fTPCSignalAntiALLCUTS"
           [HFloat (track.tpcInnerParam trk); HFloat (track.tpcSignal trk)] ;;
      fill "TrackCuts/TPCSignal/fTPCSignalAntiALLCUTSP"
           [HFloat (track.p trk); HFloat (track.tpcSignal trk)]) ;;
    fill "TrackCuts/NSigmaBefore/fNsigmaTPCvsPAntiProtonBefore"
         [HFloat (track.tpcInnerParam trk); HDouble (fst nTPCSigmaN)] ;;
    fill "TrackCuts/NSigmaBefore/fNsigmaTOFvsPAntiProtonBefore"
         [HFloat (track.tpcInnerParam trk); HFloat (track.tofNSigmaPr trk)] ;;
    fillCombined "TrackCuts/NSigmaBefore/fNsigmaTPCTOFvsPAntiProtonBefore"
                 trk (fst nTPCSigmaN) "Proton") ;;
  (* get protons *)
  sel <- call (fun st => isSelectedTrack st trk kProton) ;;
  when sel (
    pid <- (if track.sign trk >? 0
            then call (fun st => isSelectedTrackPID st trk kProton false nTPCSigmaP 1)
            else ret false) ;;
    when pid (
      appendParticle trk ConfCutBitPart ;;
      fill "TrackCuts/TPCSignal/fTPCSignalProton"
           [HFloat (track.tpcInnerParam trk); HFloat (track.tpcSignal trk)] ;;
      fill "TrackCuts/Proton/fPProton" [HFloat (track.p trk)] ;;
      fill "TrackCuts/Proton/fPTPCProton" [HFloat (track.tpcInnerParam trk)] ;;
      fillSelected "Proton" trk (fst nTPCSigmaP)) ;;
    pid' <- (if track.sign trk <? 0
             then call (fun st => isSelectedTrackPID st trk kProton false nTPCSigmaN (-1))
             else ret false) ;;
    when pid' (
      appendParticle trk ConfCutBitAntiPart ;;
      fill "TrackCuts/TPCSignal/fTPCSignalAntiProton"
           [HFloat (track.tpcInnerParam trk); HFloat (track.tpcSignal trk)] ;;
      fillSelected "AntiProton" trk (fst nTPCSigmaN))).

(** The row of [outputCollision(col.posZ(), col.multFV0M(), col.multNTracksPV(), -2, -2)] *)
Definition collisionRowOf (c : Collision) : CollisionRow :=
  {| cr_posZ := col.posZ c;
     cr_multV0M := col.multFV0M c;
     cr_multNtr := col.multNTracksPV c;
     cr_sphericity := -2;
     cr_magField := -2 |}.

Definition appendCollision (c : Collision) : Task CFFilterQA unit :=
  modify (fun st =>
    set_outputCollision (outputCollision st ++ [collisionRowOf c])%list st).

(** What [process] does with the collision once the Bethe-Bloch vectors are
    in place: the event histograms, the event selection and the track loop. *)
Definition processEvent (c : Collision) (tracks : list Track) : Task CFFilterQA unit :=
  fill "EventCuts/fMultiplicityBefore" [HInt (col.multNTracksPV c)] ;;
  fill "EventCuts/fZvtxBefore" [HFloat (col.posZ c)] ;;
  selected <- call (fun st => Ok (isSelectedEvent st c)) ;;
  when selected (
    appendCollision c ;;
    fill "EventCuts/fMultiplicityAfter" [HInt (col.multNTracksPV c)] ;;
    fill "EventCuts/fZvtxAfter" [HFloat (col.posZ c)] ;;
    forEach tracks processTrack).

(** [void process(aod::FemtoFullCollision const& col, aod::BCsWithTimestamps const&,
                  aod::FemtoFullTracks const& tracks, o2::aod::V0Datas const& fullV0s)]
    [fullV0s] is not read. *)
Definition process (ccdb : CCDB) (c : Collision) (tracks : list Track) : Task CFFilterQA unit :=
  st <- this ;;
  when (negb (ConfIsRun3 (conf st))) (fatal "Run 2 processing is not implemented!") ;;
  reloadBB ccdb c ;;
  processEvent c tracks.

(** The framework calls [process] once per collision. *)
Fixpoint processAll (ccdb : CCDB) (events : list (Collision * list Track))
  : Task CFFilterQA unit :=
  match events with
  | [] => ret tt
  | (c, tracks) :: rest => process ccdb c tracks ;; processAll ccdb rest
  end.

End WithBetheBloch.

(* ===================================================================== *)
(** * ft0Task *)
(* ===================================================================== *)

(** One row of [aod::FT0s] with the global bunch crossing of its [bc].
    Channel numbers and the trigger mask are [uint8_t], amplitudes and times
    are [float]. *)
Module ft0.
Record t : Type := {
  channelA : list N;
  amplitudeA : list float;
  channelC : list N;
  amplitudeC : list float;
  triggerMask : N;
  timeA : float;
  timeC : float;
  bc_globalBC : Z
}.
End ft0.

Module ft0Task.

(** The members of [struct ft0Task]: [histos] holds the fills made so far,
    oldest first. *)
Record t : Type := { histos : list Fill }.

Definition sNS2Cm : double := f64_dec 2997 100.
Definition sTDC2NS : double := f64_dec 1302 100000.
Definition sTDC2Cm : double := f64_mul sNS2Cm sTDC2NS.

(** [o2::ft0::Triggers::bitVertex] of the framework's trigger word. *)
Definition bitVertex : N := 2.

(** ROOT's [TESTBIT(n, i)]. *)
Definition TESTBIT (n i : N) : bool := N.testbit n i.

(** [histos.fill(HIST(name), values...)] *)
Definition fill (name : string) (values : list HVal) : Task t unit :=
  modify (fun st =>
    {| histos := (histos st ++ [{| h_name := name; h_values := values |}])%list |}).

(** [v[idx]] on a column of a row (a [gsl::span]): reading past its end
    ends the program. *)
Definition span_at {A} (v : list A) (idx : nat) : Task t A :=
  match nth_error v idx with
  | Some x => ret x
  | None => fun st => Aborted (AbortOutOfRange VectorAccess) st
  end.

(** The body of [for (size_t idx = 0; idx < ft0.channelA().size(); idx++)];
    it returns the new [sumAmpA]. *)
Definition bodyA (r : ft0.t) (isVrtTrg : bool) (sumAmpA : float) (idx : nat)
  : Task t float :=
  amp <- span_at (ft0.amplitudeA r) idx ;;
  ch <- span_at (ft0.channelA r) idx ;;
  let chID := Z.of_N ch in
  let sumAmpA := f32_add sumAmpA amp in
  fill "hAmpPerChannelID" [HInt chID; HFloat amp] ;;
  when isVrtTrg (fill "hAmpPerChannelID_VrtTrg" [HInt chID; HFloat amp]) ;;
  ret sumAmpA.

(** The body of [for (size_t idx = 0; idx < ft0.channelC().size(); idx++)];
    the [uint8_t] channel is promoted to [int] before 96 is added. *)
Definition bodyC (r : ft0.t) (isVrtTrg : bool) (sumAmpC : float) (idx : nat)
  : Task t float :=
  amp <- span_at (ft0.amplitudeC r) idx ;;
  ch <- span_at (ft0.channelC r) idx ;;
  let chID := Z.of_N ch + 96 in
  let sumAmpC := f32_add sumAmpC amp in
  fill "hAmpPerChannelID" [HInt chID; HFloat amp] ;;
  when isVrtTrg (fill "hAmpPerChannelID_VrtTrg" [HInt chID; HFloat amp]) ;;
  ret sumAmpC.

(** A counting loop that threads an accumulator through its body, over the
    indices [idxs]. *)
Fixpoint loopOver (body : float -> nat -> Task t float) (acc : float)
    (idxs : list nat) : Task t float :=
  match idxs with
  | [] => ret acc
  | idx :: rest => acc' <- body acc idx ;; loopOver body acc' rest
  end.

(** [-1e10] stored in a [float]. *)
Definition noSignal : float := f32_of_f64 (fneg (f64_of_int 10000000000)).

(** [const auto isVrtTrg = TESTBIT(trg, o2::ft0::Triggers::bitVertex)] *)
Definition isVrtTrg (r : ft0.t) : bool := TESTBIT (ft0.triggerMask r) bitVertex.

(** The loop over the A-side channels, started with [sumAmpA{0.0}]. *)
Definition loopA (r : ft0.t) : Task t float :=
  loopOver (bodyA r (isVrtTrg r)) f32_zero (seq 0 (List.length (ft0.channelA r))).

(** The loop over the C-side channels, started with [sumAmpC{0.0}]. *)
Definition loopC (r : ft0.t) : Task t float :=
  loopOver (bodyC r (isVrtTrg r)) f32_zero (seq 0 (List.length (ft0.channelC r))).

(** The body of [for (const auto& ft0 : ft0_entries)]. *)
Definition processRecord (r : ft0.t) : Task t unit :=
  let globalBC := ft0.bc_globalBC r in
  let bcid := globalBC mod 3564 in
  let trg := ft0.triggerMask r in
  let isVrtTrg := isVrtTrg r in
  let isTimeOk := flt (f64_of_f32 (ft0.timeA r)) (f64_dec 125 10)
                  && flt (f64_of_f32 (ft0.timeC r)) (f64_dec 125 10) in
  let collTime := f32_div (f32_add (ft0.timeA r) (ft0.timeC r)) (f32_of_int 2) in
  let vrtPos :=
    f64_mul (f64_of_f32 (f32_div (f32_sub (ft0.timeC r) (ft0.timeA r)) (f32_of_int 2)))
            sNS2Cm in
  sumAmpA <- loopA r ;;
  sumAmpC <- loopC r ;;
  let sumAmp := f32_add sumAmpA sumAmpC in
  let sumAmpA := if feq sumAmpA (f32_of_int 0) then noSignal else sumAmpA in
  let sumAmpC := if feq sumAmpC (f32_of_int 0) then noSignal else sumAmpC in
  fill "hSumAmpAvsC" [HFloat sumAmpA; HFloat sumAmpC] ;;
  fill "hSumAmpA" [HFloat sumAmpA] ;;
  fill "hSumAmpC" [HFloat sumAmpC] ;;
  fill "hSumAmp" [HFloat sumAmp] ;;
  when isTimeOk (fill "hVrtVsCollTime" [HDouble vrtPos; HFloat collTime]) ;;
  when isVrtTrg (
    fill "hSumAmpAvsC_vrtTrg" [HFloat sumAmpA; HFloat sumAmpC] ;;
    fill "hSumAmpA_vrtTrg" [HFloat sumAmpA] ;;
    fill "hSumAmpC_vrtTrg" [HFloat sumAmpC] ;;
    fill "hSumAmp_vrtTrg" [HFloat (f32_add sumAmpA sumAmpC)] ;;
    when isTimeOk (fill "hVrtVsCollTime_vrtTrg" [HDouble vrtPos; HFloat collTime])) ;;
  forEach (map Z.of_nat (seq 0 8)) (fun iTrg =>
    when (TESTBIT trg (Z.to_N iTrg)) (
      fill "hTriggers" [HInt iTrg] ;;
      fill "hTriggersPerBC" [HInt bcid; HInt iTrg])).

(** [void process(aod::FT0s const& ft0_entries, aod::BCs const&)] *)
Definition process (ft0_entries : list ft0.t) : Task t unit :=
  forEach ft0_entries processRecord.

End ft0Task.

(* ===================================================================== *)
(** * What the specification states, as propositions *)
(* ===================================================================== *)

(** ** Track cuts *)

(** The track quantities that [isSelectedTrack] compares are numbers. *)
Definition numericTrack (trk : Track) : Prop :=
  is_nan (track.pt trk) = false /\
  is_nan (track.eta trk) = false /\
  is_nan (track.tpcCrossedRowsOverFindableCls trk) = false /\
  is_nan (track.dcaXY trk) = false /\
  is_nan (track.dcaZ trk) = false /\
  is_nan (track.tpcChi2NCl trk) = false /\
  is_nan (track.itsChi2NCl trk) = false.

(** The thresholds that [isSelectedTrack] compares against are numbers. *)
Definition numericTrackCuts (cfg : Config) (ptMin ptMax nClsMin : float) : Prop :=
  is_nan ptMin = false /\
  is_nan ptMax = false /\
  is_nan nClsMin = false /\
  is_nan (ConfTrkEta cfg) = false /\
  is_nan (ConfTrkTPCfCls cfg) = false /\
  is_nan (ConfTrkTPCcRowsMin cfg) = false /\
  is_nan (ConfTrkTPCsClsMax cfg) = false /\
  is_nan (ConfTrkITSnclsMin cfg) = false /\
  is_nan (ConfTrkITSnclsIbMin cfg) = false /\
  is_nan (ConfTrkDCAxyMax cfg) = false /\
  is_nan (ConfTrkDCAzMax cfg) = false /\
  is_nan (ConfTrkMaxChi2PerClusterTPC cfg) = false /\
  is_nan (ConfTrkMaxChi2PerClusterITS cfg) = false.

(** The conditions the specification lists for an accepted track, with the
    species' thresholds [ptMin] = ConfPtCuts(s, "Pt min"), [ptMax] =
    ConfPtCuts(s, "Pt max") and [nClsMin] = ConfTPCNClustersMin(s). *)
Definition trackCuts (cfg : Config) (trk : Track) (ptMin ptMax nClsMin : float)
  : Prop :=
  fge (track.pt trk) ptMin = true /\
  fle (track.pt trk) ptMax = true /\
  fle (fabs (track.eta trk)) (ConfTrkEta cfg) = true /\
  fge (f32_of_int (track.tpcNClsFound trk)) nClsMin = true /\
  fge (track.tpcCrossedRowsOverFindableCls trk) (ConfTrkTPCfCls cfg) = true /\
  fge (f32_of_int (track.tpcNClsCrossedRows trk)) (ConfTrkTPCcRowsMin cfg) = true /\
  fle (f32_of_int (track.tpcNClsShared trk)) (ConfTrkTPCsClsMax cfg) = true /\
  fge (f32_of_int (track.itsNCls trk)) (ConfTrkITSnclsMin cfg) = true /\
  fge (f32_of_int (track.itsNClsInnerBarrel trk)) (ConfTrkITSnclsIbMin cfg) = true /\
  fle (fabs (track.dcaXY trk)) (ConfTrkDCAxyMax cfg) = true /\
  fle (fabs (track.dcaZ trk)) (ConfTrkDCAzMax cfg) = true /\
  (ConfRejectNotPropagatedTracks cfg = true ->
   fle (f64_of_f32 (fabs (track.dcaXY trk))) (f64_of_int 1000) = true) /\
  (ConfTrkRequireChi2MaxTPC cfg = true ->
   flt (track.tpcChi2NCl trk) (ConfTrkMaxChi2PerClusterTPC cfg) = true) /\
  (ConfTrkRequireChi2MaxITS cfg = true ->
   flt (track.itsChi2NCl trk) (ConfTrkMaxChi2PerClusterITS cfg) = true) /\
  (ConfTrkTPCRefit cfg = true -> track.hasTPC trk = true) /\
  (ConfTrkITSRefit cfg = true -> track.hasITS trk = true).

(** The specification's sentence about [isSelectedTrack] at one call: the
    thresholds it names exist, the call returns, and it returns true exactly
    when the listed conditions hold. *)
Definition isSelectedTrack_spec (st : CFFilterQA) (trk : Track)
    (s : ParticleSpecies) : Prop :=
  exists ptMin ptMax nClsMin b,
    get_is (ConfPtCuts (conf st)) (speciesIndex s) "Pt min" = Ok ptMin /\
    get_is (ConfPtCuts (conf st)) (speciesIndex s) "Pt max" = Ok ptMax /\
    get_si (ConfTPCNClustersMin (conf st)) "TPCNClusMin" (speciesIndex s) = Ok nClsMin /\
    isSelectedTrack st trk s = Ok b /\
    (b = true <-> trackCuts (conf st) trk ptMin ptMax nClsMin).

(* ===================================================================== *)
(** * Sample inputs *)
(* ===================================================================== *)

(** A freshly constructed task: the member initialisers of the struct, with
    the framework's particle masses (GeV/c^2) rounded to [float]. *)
Definition newTask (cfg : Config) : CFFilterQA := {|
  conf := cfg;
  mMassElectron := f32_dec 511 1000000;
  mMassPion := f32_dec 13957 100000;
  mMassProton := f32_dec 938272 1000000;
  mMassLambda := f32_dec 1115683 1000000;
  mMassDeuteron := f32_dec 18756129 10000000;
  currentRunNumber := -999;
  lastRunNumber := -999;
  BBProton := [];
  BBAntiproton := [];
  BBDeuteron := [];
  BBAntideuteron := [];
  BBPion := [];
  BBAntipion := [];
  BBElectron := [];
  BBAntielectron := [];
  registry := [];
  outputCollision := [];
  outputParts := [];
  ccdbApi := []
|}.

Definition sampleTask : CFFilterQA := newTask defaultConfig.

(** A positive track that passes every default cut when its transverse
    momentum [pT] does: central, 100 TPC clusters, no DCA, nSigma 0. *)
Definition sampleTrack (pT : float) : Track := {|
  track.pt := pT;
  track.eta := f32_of_int 0;
  track.phi := f32_of_int 0;
  track.p := f32_of_int 1;
  track.sign := 1;
  track.tpcInnerParam := f32_dec 5 10;
  track.tpcSignal := f32_of_int 100;
  track.tpcNClsFound := 100;
  track.tpcCrossedRowsOverFindableCls := f32_of_int 1;
  track.tpcNClsCrossedRows := 100;
  track.tpcNClsShared := 0;
  track.itsNCls := 7;
  track.itsNClsInnerBarrel := 3;
  track.dcaXY := f32_of_int 0;
  track.dcaZ := f32_of_int 0;
  track.tpcChi2NCl := f32_of_int 1;
  track.itsChi2NCl := f32_of_int 1;
  track.hasTPC := true;
  track.hasITS := true;
  track.tpcNSigmaPr := f32_of_int 0;
  track.tpcNSigmaDe := f32_of_int 0;
  track.tpcNSigmaPi := f32_of_int 0;
  track.tpcNSigmaEl := f32_of_int 0;
  track.tofNSigmaPr := f32_of_int 0;
  track.tofNSigmaDe := f32_of_int 0
|}.

Definition goodTrack : Track := sampleTrack (f32_of_int 1).
Definition nanPtTrack : Track := sampleTrack S754_nan.

(* ===================================================================== *)
(** * What a computation ensures *)
(* ===================================================================== *)

(** Tasks are reasoned about through what they ensure: a relation [R] between
    the state a computation starts from and the state it leaves, whether it
    returns or aborts, and a set [E] of the aborts it may end in. *)

(** The result [r] of a call is a value or an abort of [E]. *)
Definition res_allowed {A} (E : Abort -> Prop) (r : Res A) : Prop :=
  match r with
  | Ok _ => True
  | Fatal msg => E (AbortFatal msg)
  | OutOfRange w => E (AbortOutOfRange w)
  end.

(** [m] relates every start state to its final state by [R], and aborts
    only as [E] allows. *)
Definition ensures {S A} (R : S -> S -> Prop) (E : Abort -> Prop) (m : Task S A) : Prop :=
  forall st,
    match m st with
    | Done _ st' => R st st'
    | Aborted why st' => R st st' /\ E why
    end.

(** The part [f] of the state is left as it was. *)
Definition keeps {S X} (f : S -> X) : S -> S -> Prop := fun st st' => f st' = f st.

(** Sets of aborts: all of them, none, and all but a read past the end of
    a [std::vector]. *)
Definition anyAbort : Abort -> Prop := fun _ => True.

Definition noAbort : Abort -> Prop := fun _ => False.

Definition noVectorOverrun : Abort -> Prop :=
  fun why => why <> AbortOutOfRange VectorAccess.

(** The relation that holds between any two states. *)
Definition anyState {S} : S -> S -> Prop := fun _ _ => True.

(* ===================================================================== *)
(** * The specification's statements about CFFilterQA, and sample inputs *)
(* ===================================================================== *)

(** The fields of the task, by what [process] does with them: the
    configurables and mass constants, the Bethe-Bloch vectors, and the
    run-number cache. *)
Definition constantsOf (st : CFFilterQA) :=
  (conf st, mMassElectron st, mMassPion st, mMassProton st, mMassLambda st, mMassDeuteron st).

Definition betheBlochOf (st : CFFilterQA) :=
  (BBProton st, BBAntiproton st, BBDeuteron st, BBAntideuteron st,
   BBPion st, BBAntipion st, BBElectron st, BBAntielectron st).

Definition runNumbersOf (st : CFFilterQA) := (currentRunNumber st, lastRunNumber st).

(** A collision at [z] of run [run], with timestamp [ts], that passes the
    offline selection. *)
Definition sampleCollision (z : float) (run ts : Z) : Collision := {|
  col.posZ := z; col.sel8 := true; col.multNTracksPV := 10;
  col.multFV0M := f32_of_int 100; col.bc_runNumber := run; col.bc_timestamp := ts |}.

(** A stand-in for [tpc::BetheBlochAleph]: an expected signal of 50. *)
Definition sampleAleph : double -> double -> double -> double -> double -> double -> double :=
  fun _ _ _ _ _ _ => f64_of_int 50.

(** ** Event selection *)

(** The event passes the selection, in the specification's words. *)
Definition eventCuts (cfg : Config) (c : Collision) : Prop :=
  (ConfEvtSelectZvtx cfg = false \/ fle (fabs (col.posZ c)) (ConfEvtZvtx cfg) = true) /\
  (ConfEvtOfflineCheck cfg = false \/ col.sel8 c = true).

(** What the specification states about the collision table: exactly the one
    row is appended if and only if the event passes, and a rejected event
    appends nothing to either table. *)
Definition process_appends_spec aleph (ccdb : CCDB) (st : CFFilterQA)
    (c : Collision) (tracks : list Track) : Prop :=
  let st' := outcome_state (process aleph ccdb c tracks st) in
  (outputCollision st' = (outputCollision st ++ [collisionRowOf c])%list
   <-> eventCuts (conf st) c) /\
  (~ eventCuts (conf st) c ->
   outputCollision st' = outputCollision st /\ outputParts st' = outputParts st).

(** ** PID cuts *)

(** The momentum compared with "P thres": the momentum at the primary vertex
    for deuterons when ConfDeuteronThPVMom is set, tpcInnerParam otherwise. *)
Definition thresholdMomentum (cfg : Config) (trk : Track) (s : ParticleSpecies) : float :=
  match s with
  | kDeuteron => if ConfDeuteronThPVMom cfg then track.p trk else track.tpcInnerParam trk
  | _ => track.tpcInnerParam trk
  end.

(** The TPC and TOF nSigma of the species, and the row of the averages
    table for the charge. *)
Definition speciesTPC (s : ParticleSpecies) (nSigmaTPC : double * double) : double :=
  match s with kDeuteron => snd nSigmaTPC | _ => fst nSigmaTPC end.

Definition speciesTOF (s : ParticleSpecies) (trk : Track) : float :=
  match s with kDeuteron => track.tofNSigmaDe trk | _ => track.tofNSigmaPr trk end.

Definition avgRow (s : ParticleSpecies) (charge : Z) : string :=
  match s with
  | kDeuteron => if charge >? 0 then "Deuteron" else "AntiDeuteron"
  | _ => if charge >? 0 then "Proton" else "AntiProton"
  end.

(** The table of PID cuts for the charge: [ConfPIDCuts] for a positive
    charge, [ConfPIDCutsAnti] otherwise. *)
Definition cutsFor (cfg : Config) (charge : Z) : LabeledArray :=
  if charge >? 0 then ConfPIDCuts cfg else ConfPIDCutsAnti cfg.

(** The configuration holds the thresholds and averages that the sentence
    about the PID cut names: "P thres" of the species, TPC min, TPC max and
    TPCTOF max of the species in the table for the charge, and the two
    averages of the species' row for the charge. *)
Definition configuredPID (cfg : Config) (s : ParticleSpecies) (charge : Z)
    (pThresCut TPCmin TPCmax TPCTOFmax avgTPC avgTOF : float) : Prop :=
  get_is (ConfPtCuts cfg) (speciesIndex s) "P thres" = Ok pThresCut /\
  get_ii (cutsFor cfg charge) (speciesIndex s) (limitIndex kTPCMin) = Ok TPCmin /\
  get_ii (cutsFor cfg charge) (speciesIndex s) (limitIndex kTPCMax) = Ok TPCmax /\
  get_ii (cutsFor cfg charge) (speciesIndex s) (limitIndex kTPCTOF) = Ok TPCTOFmax /\
  get_ss (ConfPIDTPCTOFAvg cfg) (avgRow s charge) "TPC Avg" = Ok avgTPC /\
  get_ss (ConfPIDTPCTOFAvg cfg) (avgRow s charge) "TOF Avg" = Ok avgTOF.

(** The combined value of the specification,
    sqrt((nSigmaTPC - TPC Avg)^2 + (tofNSigma - TOF Avg)^2), evaluated in
    double precision. *)
Definition combinedValue (nSigmaTPC : double) (avgTPC tofNSigma avgTOF : float)
  : double :=
  let dTPC := f64_sub nSigmaTPC (f64_of_f32 avgTPC) in
  let dTOF := f64_sub (f64_of_f32 tofNSigma) (f64_of_f32 avgTOF) in
  f64_sqrt (f64_add (f64_mul dTPC dTPC) (f64_mul dTOF dTOF)).

(** The PID cut in the specification's words: when the momentum does not
    exceed "P thres", the TPC nSigma lies strictly between TPC min and TPC
    max; otherwise the combined value lies strictly below TPCTOF max. *)
Definition pidAccepts (cfg : Config) (trk : Track) (s : ParticleSpecies)
    (nSigmaTPC : double * double)
    (pThresCut TPCmin TPCmax TPCTOFmax avgTPC avgTOF : float) : Prop :=
  (fgt (thresholdMomentum cfg trk s) pThresCut = false ->
   flt (f64_of_f32 TPCmin) (speciesTPC s nSigmaTPC) = true /\
   flt (speciesTPC s nSigmaTPC) (f64_of_f32 TPCmax) = true) /\
  (fgt (thresholdMomentum cfg trk s) pThresCut = true ->
   flt (combinedValue (speciesTPC s nSigmaTPC) avgTPC (speciesTOF s trk) avgTOF)
       (f64_of_f32 TPCTOFmax) = true).

(** The specification's sentence about [isSelectedTrackPID] at one call with
    Rejection off: the thresholds and averages it names exist, the call
    returns, and it returns true exactly when the PID cut holds. *)
Definition isSelectedTrackPID_spec
    (aleph : double -> double -> double -> double -> double -> double -> double)
    (st : CFFilterQA) (trk : Track) (s : ParticleSpecies)
    (nSigmaTPC : double * double) (charge : Z) : Prop :=
  exists pThresCut TPCmin TPCmax TPCTOFmax avgTPC avgTOF b,
    configuredPID (conf st) s charge pThresCut TPCmin TPCmax TPCTOFmax avgTPC avgTOF /\
    isSelectedTrackPID aleph st trk s false nSigmaTPC charge = Ok b /\
    (b = true <->
     pidAccepts (conf st) trk s nSigmaTPC pThresCut TPCmin TPCmax TPCTOFmax avgTPC avgTOF).

(** The momentum and the threshold it is compared with are numbers. *)
Definition numericMomentum (cfg : Config) (trk : Track) (s : ParticleSpecies)
    (pThresCut : float) : Prop :=
  is_nan (thresholdMomentum cfg trk s) = false /\ is_nan pThresCut = false.

(** The combined value as a [float]: the TPC difference taken in double
    precision, the TOF difference in single precision, the squares, the sum
    and the root in double precision, and the result narrowed to [float]. *)
Definition storedCombinedValue (nSigmaTPC : double) (avgTPC tofNSigma avgTOF : float)
  : float :=
  let dTPC := f64_sub nSigmaTPC (f64_of_f32 avgTPC) in
  let dTOF := f64_of_f32 (f32_sub tofNSigma avgTOF) in
  f32_of_f64 (f64_sqrt (f64_add (f64_mul dTPC dTPC) (f64_mul dTOF dTOF))).

(** The PID cut on the values narrowed to [float]: when the momentum does
    not exceed "P thres", the TPC nSigma as a [float] lies strictly between
    TPC min and TPC max; otherwise the combined value as a [float] lies
    strictly below TPCTOF max. *)
Definition pidAcceptsStored (cfg : Config) (trk : Track) (s : ParticleSpecies)
    (nSigmaTPC : double * double)
    (pThresCut TPCmin TPCmax TPCTOFmax avgTPC avgTOF : float) : Prop :=
  (fgt (thresholdMomentum cfg trk s) pThresCut = false ->
   flt TPCmin (f32_of_f64 (speciesTPC s nSigmaTPC)) = true /\
   flt (f32_of_f64 (speciesTPC s nSigmaTPC)) TPCmax = true) /\
  (fgt (thresholdMomentum cfg trk s) pThresCut = true ->
   flt (storedCombinedValue (speciesTPC s nSigmaTPC) avgTPC (speciesTOF s trk) avgTOF)
       TPCTOFmax = true).

(** A positive track like [sampleTrack 1], with its momentum at the inner
    wall of the TPC and its proton nSigma in the TPC and in the TOF given. *)
Definition pidTrack (pTPC nSigmaTPCPr nSigmaTOFPr : float) : Track := {|
  track.pt := f32_of_int 1;
  track.eta := f32_of_int 0;
  track.phi := f32_of_int 0;
  track.p := f32_of_int 1;
  track.sign := 1;
  track.tpcInnerParam := pTPC;
  track.tpcSignal := f32_of_int 100;
  track.tpcNClsFound := 100;
  track.tpcCrossedRowsOverFindableCls := f32_of_int 1;
  track.tpcNClsCrossedRows := 100;
  track.tpcNClsShared := 0;
  track.itsNCls := 7;
  track.itsNClsInnerBarrel := 3;
  track.dcaXY := f32_of_int 0;
  track.dcaZ := f32_of_int 0;
  track.tpcChi2NCl := f32_of_int 1;
  track.itsChi2NCl := f32_of_int 1;
  track.hasTPC := true;
  track.hasITS := true;
  track.tpcNSigmaPr := nSigmaTPCPr;
  track.tpcNSigmaDe := f32_of_int 0;
  track.tpcNSigmaPi := f32_of_int 0;
  track.tpcNSigmaEl := f32_of_int 0;
  track.tofNSigmaPr := nSigmaTOFPr;
  track.tofNSigmaDe := f32_of_int 0
|}.

(** The nSigma pair that the track loop hands over without manual PID: the
    track's own TPC values for protons and deuterons. *)
Definition nominalNSigma (trk : Track) : double * double :=
  (f64_of_f32 (track.tpcNSigmaPr trk), f64_of_f32 (track.tpcNSigmaDe trk)).

(** A track above the proton threshold of 0.75 with TPC nSigma 3.59999967
    (the [float] next below 3.6f) and TOF nSigma 4.8f: its combined value is
    5.99999995. *)
Definition nearSixTrack : Track :=
  pidTrack (f32_of_int 1) (S754_finite false 15099493 (-22)) (f32_dec 48 10).

(** A track whose momentum at the inner wall is NaN, with TPC nSigma 0 and
    TOF nSigma 10. *)
Definition nanMomentumTrack : Track :=
  pidTrack S754_nan (f32_of_int 0) (f32_of_int 10).

(** ** Statelessness, frame and the missing conditions object *)

(** The type of [tpc::BetheBlochAleph]. *)
Definition AlephFn : Type := double -> double -> double -> double -> double -> double -> double.

(** What the specification states about the three predicates: with the
    configuration (and the constants) fixed, the task they run against does
    not matter. *)
Definition predicates_stateless_spec (aleph : AlephFn) : Prop :=
  forall st1 st2 : CFFilterQA,
    constantsOf st1 = constantsOf st2 ->
    (forall trk s, isSelectedTrack st1 trk s = isSelectedTrack st2 trk s) /\
    (forall trk s rej nSigmaTPC charge,
        isSelectedTrackPID aleph st1 trk s rej nSigmaTPC charge
        = isSelectedTrackPID aleph st2 trk s rej nSigmaTPC charge) /\
    (forall trk charge s nSigmaTPCDaug,
        isSelectedV0Daughter st1 trk charge s nSigmaTPCDaug
        = isSelectedV0Daughter st2 trk charge s nSigmaTPCDaug).

(** The part of the task that the rejection block of [isSelectedTrackPID]
    reads besides the configuration. *)
Definition rejectionInputsOf (st : CFFilterQA) :=
  (mMassPion st, mMassElectron st, BBPion st, BBAntipion st, BBElectron st, BBAntielectron st).

(** Bethe-Bloch parameters with a zero resolution. *)
Definition flatBB : list double :=
  [f64_of_int 1; f64_of_int 1; f64_of_int 1; f64_of_int 1; f64_of_int 1; f64_zero].

(** A task with manual pion PID, before and after its pion vector is
    loaded. *)
Definition pionTask : CFFilterQA := newTask (configWith true false true).

Definition pionTaskLoaded : CFFilterQA := set_BBPion flatBB pionTask.

(** The Bethe-Bloch vectors that the track loop of [process] uses. *)
Inductive BBVector : Type := vProton | vAntiproton | vDeuteron | vAntideuteron.

Definition vectorOf (st : CFFilterQA) (v : BBVector) : list double :=
  match v with
  | vProton => BBProton st
  | vAntiproton => BBAntiproton st
  | vDeuteron => BBDeuteron st
  | vAntideuteron => BBAntideuteron st
  end.

Definition vectorPath (cfg : Config) (v : BBVector) : string :=
  match v with
  | vProton => ConfPIDBBProton cfg
  | vAntiproton => ConfPIDBBAntiProton cfg
  | vDeuteron => ConfPIDBBDeuteron cfg
  | vAntideuteron => ConfPIDBBAntiDeuteron cfg
  end.

(** The switch under which [process] reloads the vector on a new run. *)
Definition vectorReloaded (cfg : Config) (v : BBVector) : bool :=
  match v with
  | vProton | vAntiproton =>
      ConfUseManualPIDproton cfg || ConfUseManualPIDdaughterProton cfg
  | vDeuteron | vAntideuteron => ConfUseManualPIDdeuteron cfg
  end.

(** The entry of [nTPCSigmaP] / [nTPCSigmaN] that the vector corrects, and
    the detector-provided value it starts from. *)
Definition entryOf (nS : (double * double) * (double * double)) (v : BBVector) : double :=
  match v with
  | vProton => fst (fst nS)
  | vAntiproton => fst (snd nS)
  | vDeuteron => snd (fst nS)
  | vAntideuteron => snd (snd nS)
  end.

Definition nominalOf (trk : Track) (v : BBVector) : double :=
  match v with
  | vProton | vAntiproton => f64_of_f32 (track.tpcNSigmaPr trk)
  | vDeuteron | vAntideuteron => f64_of_f32 (track.tpcNSigmaDe trk)
  end.

(** The task when [process], called for collision [c], reaches its track loop. *)
Definition stateAtTrackLoop (ccdb : CCDB) (c : Collision) (st : CFFilterQA) : CFFilterQA :=
  outcome_state (reloadBB ccdb c st).

(** The nSigma entry for [v] is the detector-provided one for every track. *)
Definition usesNominal (aleph : AlephFn) (st : CFFilterQA) (v : BBVector) : Prop :=
  forall trk, exists nS, nTPCSigma aleph st trk = Ok nS /\ entryOf nS v = nominalOf trk v.

(** What the specification states about a missing object: [process] for collision [c] reloads
    vector [v] and finds no object; then the vector is empty and every track
    processed afterwards, in this call or in a later one (for [c'], after the
    events [later]), keeps its nominal nSigma. *)
Definition missing_object_spec (aleph : AlephFn) (ccdb : CCDB) (st : CFFilterQA)
    (c : Collision) (tracks : list Track)
    (later : list (Collision * list Track)) (c' : Collision) (v : BBVector) : Prop :=
  ConfIsRun3 (conf st) = true ->
  ConfUseManualPIDproton (conf st) || ConfUseManualPIDdeuteron (conf st) = true ->
  col.bc_runNumber c <> lastRunNumber st ->
  vectorReloaded (conf st) v = true ->
  ccdb (vectorPath (conf st) v) (col.bc_timestamp c) = None ->
  (exists st', setValuesBB ccdb c (vectorPath (conf st) v) st = Done [] st') /\
  usesNominal aleph (stateAtTrackLoop ccdb c st) v /\
  usesNominal aleph
    (stateAtTrackLoop ccdb c'
       (outcome_state (processAll aleph ccdb ((c, tracks) :: later) st))) v.

(** The event belongs to the run of collision [c]. *)
Definition sameRun (c : Collision) (ev : Collision * list Track) : Prop :=
  col.bc_runNumber (fst ev) = col.bc_runNumber c.

(** A conditions database that has, for every path, no object at timestamp 1
    and Bethe-Bloch parameters with zero resolution at timestamp 2. *)
Definition sampleCCDB : CCDB :=
  fun path ts =>
    if ts =? 2
    then Some (fun label => if String.eqb label "Resolution" then f64_zero else f64_of_int 1)
    else None.

(** A fresh task with manual proton PID, and one configured for Run 2. *)
Definition protonTask : CFFilterQA := newTask (configWith true true false).

(** What the specification states about the fields of the task that are
    neither the run-number cache nor an output (histograms, output tables,
    conditions-database handle): [process] leaves them as they were. *)
Definition process_frame_spec (aleph : AlephFn) (ccdb : CCDB) (st : CFFilterQA)
    (c : Collision) (tracks : list Track) : Prop :=
  let st' := outcome_state (process aleph ccdb c tracks st) in
  constantsOf st' = constantsOf st /\ betheBlochOf st' = betheBlochOf st.

Definition run2Task : CFFilterQA := newTask (configWith false false false).

(* ===================================================================== *)
(** * The specification's statements about ft0Task, and sample records *)
(* ===================================================================== *)

Module ft0Spec.
Import ft0Task.

(** The sentinel substitution: [if (sum == 0) sum = -1e10]. *)
Definition substituted (x : float) : float :=
  if feq x (f32_of_int 0) then noSignal else x.

(** A float (not NaN, not infinite) of magnitude below 1e10. *)
Definition smallSum (s : float) : Prop :=
  valid_binary prec32 emax32 s = true /\
  flt (fabs s) (f32_of_int 10000000000) = true.

(** The fills made between two states of the task. *)
Definition newFills (st st' : ft0Task.t) : list Fill :=
  skipn (List.length (histos st)) (histos st').

(** After [st], the task has only appended fills that satisfy [P]. *)
Definition appendsOnly (P : Fill -> Prop) (st st' : ft0Task.t) : Prop :=
  exists new, histos st' = (histos st ++ new)%list /\ Forall P new.

(** The fills of one histogram, oldest first. *)
Definition named (name : string) (fs : list Fill) : list Fill :=
  filter (fun f => String.eqb (h_name f) name) fs.

(** A fill of hAmpPerChannelID or hAmpPerChannelID_VrtTrg. *)
Definition ampFill (f : Fill) : Prop :=
  h_name f = "hAmpPerChannelID" \/ h_name f = "hAmpPerChannelID_VrtTrg".

(** A fill of hTriggers or hTriggersPerBC. *)
Definition trigFill (f : Fill) : Prop :=
  h_name f = "hTriggers" \/ h_name f = "hTriggersPerBC".


(** An entry for an A-side channel: its raw ID, unchanged. *)
Definition aSideEntry (r : ft0.t) (f : Fill) : Prop :=
  exists raw amp, In raw (ft0.channelA r) /\
                  h_values f = [HInt (Z.of_N raw); HFloat amp].

(** An entry for a C-side channel: its raw ID plus 96. *)
Definition cSideEntry (r : ft0.t) (f : Fill) : Prop :=
  exists raw amp, In raw (ft0.channelC r) /\
                  h_values f = [HInt (Z.of_N raw + 96); HFloat amp].

(** Every record of the table carries one amplitude per channel. *)
Definition wellFormed (r : ft0.t) : Prop :=
  List.length (ft0.amplitudeA r) = List.length (ft0.channelA r) /\
  List.length (ft0.amplitudeC r) = List.length (ft0.channelC r).

(** [sumAmpA] and [sumAmpC] as the loops leave them. *)
Definition rawSum (amps : list float) : float := fold_left f32_add amps f32_zero.

(** A fill of a one-dimensional histogram with [x]. *)
Definition sumFill (name : string) (x : float) : Fill :=
  {| h_name := name; h_values := [HFloat x] |}.



(** A vertex-triggered record with two channels on each side, and a task
    that has filled nothing yet. *)
Definition sampleRecord : ft0.t :=
  {| ft0.channelA := [3%N; 95%N];
     ft0.channelC := [0%N; 7%N];
     ft0.amplitudeA := [f32_of_int 10; f32_of_int 20];
     ft0.amplitudeC := [f32_of_int 5; f32_of_int 6];
     ft0.triggerMask := 4%N;
     ft0.timeA := f32_of_int 1;
     ft0.timeC := f32_of_int 2;
     ft0.bc_globalBC := 7 |}.

Definition emptyTask : ft0Task.t := {| histos := [] |}.

(** What the specification states about the two sum histograms, for the
    record [r] processed from the state [st]. *)
Definition sum_histograms_spec (r : ft0.t) (st : ft0Task.t) : Prop :=
  let new := newFills st (outcome_state (processRecord r st)) in
  let sumAmpA := rawSum (ft0.amplitudeA r) in
  let sumAmpC := rawSum (ft0.amplitudeC r) in
  named "hSumAmp" new = [sumFill "hSumAmp" (f32_add sumAmpA sumAmpC)] /\
  (isVrtTrg r = true ->
   named "hSumAmp_vrtTrg" new
   = [sumFill "hSumAmp_vrtTrg"
        (f32_add (substituted sumAmpA) (substituted sumAmpC))]) /\
  (isVrtTrg r = true -> ft0.channelA r = [] \/ ft0.channelC r = [] ->
   forall x y, In (sumFill "hSumAmp" x) new ->
               In (sumFill "hSumAmp_vrtTrg" y) new -> x <> y).

(** A vertex-triggered record without A-side channels whose only C-side
    amplitude is 2^100. *)
Definition absorbRecord : ft0.t :=
  {| ft0.channelA := [];
     ft0.channelC := [0%N];
     ft0.amplitudeA := [];
     ft0.amplitudeC := [S754_finite false 8388608 77];
     ft0.triggerMask := 4%N;
     ft0.timeA := f32_of_int 1;
     ft0.timeC := f32_of_int 2;
     ft0.bc_globalBC := 7 |}.

(** A record with an A-side channel but no amplitude for it. *)
Definition shortRecord : ft0.t :=
  {| ft0.channelA := [0%N];
     ft0.channelC := [];
     ft0.amplitudeA := [];
     ft0.amplitudeC := [];
     ft0.triggerMask := 4%N;
     ft0.timeA := f32_of_int 1;
     ft0.timeC := f32_of_int 2;
     ft0.bc_globalBC := 7 |}.

(** A vertex-triggered record without A-side channels. *)
Definition vertexRecord : ft0.t :=
  {| ft0.channelA := [];
     ft0.channelC := [0%N; 7%N];
     ft0.amplitudeA := [];
     ft0.amplitudeC := [f32_of_int 5; f32_of_int 6];
     ft0.triggerMask := 4%N;
     ft0.timeA := f32_of_int 1;
     ft0.timeC := f32_of_int 2;
     ft0.bc_globalBC := 7 |}.

End ft0Spec.
Import ft0Spec.

(* ===================================================================== *)
(** * The histograms that [init] registers *)
(* ===================================================================== *)

(** ROOT's [TMath::TwoPi()]: [2.0 * 3.14159265358979323846] as a double. *)
Module TMath.
Definition TwoPi : double := S754_finite false 7074237752028440 (-50).
End TMath.

(** What [HistogramRegistry::add] records about a histogram. *)
Module hist.

Inductive HistType : Type := kTH1F | kTH2F.

(** [AxisSpec{nBins, binMin, binMax, title}]; the bounds are doubles. *)
Record AxisSpec : Type := {
  nBins : Z;
  binMin : double;
  binMax : double;
  axisTitle : option string
}.

Record HistSpec : Type := {
  name : string;
  title : string;
  type : HistType;
  axes : list AxisSpec
}.

(** [registry.add(name, title, type, {axes...})] appends to the registry. *)
Definition add (name title : string) (type : HistType) (axes : list AxisSpec)
    (registry : list HistSpec) : list HistSpec :=
  (registry ++ [{| name := name; title := title; type := type; axes := axes |}])%list.

(** An axis given as [{nBins, binMin, binMax}], without a title. *)
Definition axis (n : Z) (lo hi : double) : AxisSpec :=
  {| nBins := n; binMin := lo; binMax := hi; axisTitle := None |}.

(** An [int] literal and a [float] literal [n/d] used as an axis bound. *)
Definition il (n : Z) : double := f64_of_int n.
Definition fl (n d : Z) : double := f64_of_f32 (f32_dec n d).

(** The number of values a fill of the histogram takes. *)
Definition dimension (t : HistType) : nat :=
  match t with kTH1F => 1%nat | kTH2F => 2%nat end.

End hist.

Module ft0Init.
Import hist.

(** [void init(InitContext&)] of [ft0Task]: the axes and the histograms it
    adds to [histos]. *)
Definition axisAmp : AxisSpec :=
  {| nBins := 4200; binMin := f64_of_int (-100); binMax := f64_of_int 4200;
     axisTitle := Some "Amp [ADC]" |}.
Definition axisSumAmp : AxisSpec :=
  {| nBins := 2000; binMin := f64_of_int 0; binMax := f64_of_int 200000;
     axisTitle := Some "SumAmp [ADC]" |}.
Definition axisChannels : AxisSpec :=
  {| nBins := 208; binMin := f64_of_int 0; binMax := f64_of_int 208;
     axisTitle := Some "ChannelID" |}.
Definition axisVertex : AxisSpec :=
  {| nBins := 1200; binMin := f64_of_int (-200); binMax := f64_of_int 400;
     axisTitle := Some "Vertex [cm]" |}.
Definition axisCollisionTime : AxisSpec :=
  {| nBins := 1000; binMin := f64_of_int (-20); binMax := f64_of_int 20;
     axisTitle := Some "Collision time [ns]" |}.
Definition axisTriggers : AxisSpec :=
  {| nBins := 8; binMin := f64_of_int 0; binMax := f64_of_int 8;
     axisTitle := Some "Trigger bits" |}.
Definition axisBC : AxisSpec :=
  {| nBins := 3564; binMin := f64_of_int 0; binMax := f64_of_int 3564;
     axisTitle := Some "BCID" |}.

Definition init (histos : list HistSpec) : list HistSpec :=
  let histos := add "hAmpPerChannelID" "Amplitude FT0;ChannelID;Amp [ADC]"
                    kTH2F [axisChannels; axisAmp] histos in
  let histos := add "hAmpPerChannelID_VrtTrg"
                    "Amplitude FT0(Vertex trigger);ChannelID;Amp [ADC]"
                    kTH2F [axisChannels; axisAmp] histos in
  let histos := add "hSumAmpAvsC" "Sum amp FT0, A vs C;SumAmpA [ADC];SumAmpC [ADC]"
                    kTH2F [axisSumAmp; axisSumAmp] histos in
  let histos := add "hSumAmpA" "Sum amp FT0, A-side;SumAmpA [ADC]"
                    kTH1F [axisSumAmp] histos in
  let histos := add "hSumAmpC" "Sum amp FT0, C-side;SumAmpC [ADC]"
                    kTH1F [axisSumAmp] histos in
  let histos := add "hSumAmp" "Sum amp FT0, A+C;SumAmp [ADC]"
                    kTH1F [axisSumAmp] histos in
  let histos := add "hSumAmpAvsC_vrtTrg"
                    "Sum amp FT0, A vs C(Vertex trigger);SumAmpA [ADC];SumAmpC [ADC]"
                    kTH2F [axisSumAmp; axisSumAmp] histos in
  let histos := add "hSumAmpA_vrtTrg" "Sum amp FT0(Vertex trigger), A-side;SumAmpA [ADC]"
                    kTH1F [axisSumAmp] histos in
  let histos := add "hSumAmpC_vrtTrg" "Sum amp FT0(Vertex trigger), C-side;SumAmpC [ADC]"
                    kTH1F [axisSumAmp] histos in
  let histos := add "hSumAmp_vrtTrg" "Sum amp FT0, A+C(Vertex trigger);SumAmp [ADC]"
                    kTH1F [axisSumAmp] histos in
  let histos := add "hTriggers" "FT0 trigger bit statistics;Trigger bits"
                    kTH1F [axisTriggers] histos in
  let histos := add "hTriggersPerBC" "FT0 trigger bit statistics per BC"
                    kTH2F [axisBC; axisTriggers] histos in
  let histos := add "hVrtVsCollTime"
                    "FT0 Vertex vs collision time;Vertex [cm];Collision time [ns]"
                    kTH2F [axisVertex; axisCollisionTime] histos in
  add "hVrtVsCollTime_vrtTrg"
      "FT0 Vertex vs collision time (Vertex trigger);Vertex [cm];Collision time [ns]"
      kTH2F [axisVertex; axisCollisionTime] histos.

End ft0Init.

(** ** Statements about what ft0Task fills *)
Module ft0Props.
Import ft0Task ft0Spec.

(** The fill names a histogram of the registry and carries as many values as
    the histogram has dimensions. *)
Definition registeredFill (registry : list hist.HistSpec) (f : Fill) : bool :=
  existsb (fun h => String.eqb (hist.name h) (h_name f)
                    && Nat.eqb (hist.dimension (hist.type h)) (List.length (h_values f)))
          registry.

(** No name occurs twice in the list. *)
Fixpoint distinctNames (names : list string) : bool :=
  match names with
  | [] => true
  | n :: rest => negb (existsb (String.eqb n) rest) && distinctNames rest
  end.

(** No histogram is added twice, and each has one axis per dimension. *)
Definition wellRegistered (registry : list hist.HistSpec) : Prop :=
  NoDup (map hist.name registry) /\
  Forall (fun h => List.length (hist.axes h) = hist.dimension (hist.type h)) registry.

(** Both loops of [process] find an amplitude for every channel. *)
Definition enoughAmplitudes (r : ft0.t) : Prop :=
  (List.length (ft0.channelA r) <= List.length (ft0.amplitudeA r))%nat /\
  (List.length (ft0.channelC r) <= List.length (ft0.amplitudeC r))%nat.

(** The amplitudes the loops read: one per channel. *)
Definition readA (r : ft0.t) : list float :=
  firstn (List.length (ft0.channelA r)) (ft0.amplitudeA r).
Definition readC (r : ft0.t) : list float :=
  firstn (List.length (ft0.channelC r)) (ft0.amplitudeC r).

(** An entry (channel, amplitude) of one of the amplitude histograms. *)
Definition ampEntry (name : string) (chID : Z) (amp : float) : Fill :=
  {| h_name := name; h_values := [HInt chID; HFloat amp] |}.

(** The entries for the channels of one side, in channel order. *)
Definition sideEntries (name : string) (chID : N -> Z)
    (chans : list N) (amps : list float) : list Fill :=
  map (fun p => ampEntry name (chID (fst p)) (snd p)) (combine chans amps).

Definition chIDA (ch : N) : Z := Z.of_N ch.
Definition chIDC (ch : N) : Z := Z.of_N ch + 96.

(** What one pass of an amplitude loop fills for the pair (channel,
    amplitude). *)
Definition loopEntries (vrt : bool) (chID : N -> Z) (p : N * float) : list Fill :=
  ampEntry "hAmpPerChannelID" (chID (fst p)) (snd p)
  :: (if vrt then [ampEntry "hAmpPerChannelID_VrtTrg" (chID (fst p)) (snd p)] else []).

(** What one pass of the trigger loop fills for bit [iTrg]. *)
Definition trigEntries (trg : N) (bcid : Z) (iTrg : Z) : list Fill :=
  if TESTBIT trg (Z.to_N iTrg)
  then [{| h_name := "hTriggers"; h_values := [HInt iTrg] |};
        {| h_name := "hTriggersPerBC"; h_values := [HInt bcid; HInt iTrg] |}]
  else [].

(** The histograms filled between the amplitude loops and the trigger loop. *)
Definition sumHistogram (name : string) : bool :=
  existsb (String.eqb name)
    ["hSumAmpAvsC"; "hSumAmpA"; "hSumAmpC"; "hSumAmp"; "hVrtVsCollTime";
     "hSumAmpAvsC_vrtTrg"; "hSumAmpA_vrtTrg"; "hSumAmpC_vrtTrg"; "hSumAmp_vrtTrg";
     "hVrtVsCollTime_vrtTrg"].

(** The only abort of the task: a read past the end of a span. *)
Definition spanOverrun : Abort -> Prop :=
  fun why => why = AbortOutOfRange VectorAccess.

(** The trigger bits that [process] looks at, in loop order. *)
Definition triggerBits : list Z := map Z.of_nat (seq 0 8).

(** The bits among them that are set in the record's trigger mask. *)
Definition firedBits (r : ft0.t) : list Z :=
  filter (fun iTrg => N.testbit (ft0.triggerMask r) (Z.to_N iTrg)) triggerBits.

(** The histograms that receive [sumAmpA] or [sumAmpC] after the
    substitution. *)
Definition sideSumHistogram (name : string) : bool :=
  existsb (String.eqb name)
    ["hSumAmpAvsC"; "hSumAmpA"; "hSumAmpC";
     "hSumAmpAvsC_vrtTrg"; "hSumAmpA_vrtTrg"; "hSumAmpC_vrtTrg"].

(** No value of the fill is a float equal to zero. *)
Definition noZeroValue (f : Fill) : Prop :=
  forall x, In (HFloat x) (h_values f) -> feq x (f32_of_int 0) = false.



(** The entry of hSumAmp for a record. *)
Definition sumAmpEntry (r : ft0.t) : Fill :=
  sumFill "hSumAmp" (f32_add (rawSum (readA r)) (rawSum (readC r))).

End ft0Props.

(** [void init(o2::framework::InitContext&)] of [CFFilterQA]: what it sets up
    on the two conditions-database handles and the histograms it adds to
    [registry], in the order of the source. *)
Module CFInit.
Import hist.

Record t : Type := {
  ccdb_url : option string;           (* ccdb->setURL *)
  ccdb_caching : bool;                (* ccdb->setCaching *)
  ccdb_localValidity : bool;          (* ccdb->setLocalObjectValidityChecking *)
  ccdbApi_url : option string;        (* ccdbApi.init *)
  registry : list HistSpec
}.

(** The task before [init]. *)
Definition fresh : t :=
  {| ccdb_url := None; ccdb_caching := false; ccdb_localValidity := false;
     ccdbApi_url := None; registry := [] |}.

Definition addHistograms (registry : list HistSpec) : list HistSpec :=
  let registry :=
    add "EventCuts/fMultiplicityBefore"
        "Multiplicity of all processed events"
        kTH1F [axis 1000 (il 0) (il 1000)] registry in
  let registry :=
    add "EventCuts/fMultiplicityAfter"
        "Multiplicity after event cuts"
        kTH1F [axis 1000 (il 0) (il 1000)] registry in
  let registry :=
    add "EventCuts/fZvtxBefore"
        "Zvtx of all processed events"
        kTH1F [axis 1000 (il (-15)) (il 15)] registry in
  let registry :=
    add "EventCuts/fZvtxAfter"
        "Zvtx after event cuts"
        kTH1F [axis 1000 (il (-15)) (il 15)] registry in
  let registry :=
    add "TrackCuts/TracksBefore/fPtTrackBefore"
        "Transverse momentum of all processed tracks"
        kTH1F [axis 1000 (il 0) (il 10)] registry in
  let registry :=
    add "TrackCuts/TracksBefore/fEtaTrackBefore"
        "Pseudorapidity of all processed tracks"
        kTH1F [axis 1000 (il (-2)) (il 2)] registry in
  let registry :=
    add "TrackCuts/TracksBefore/fPhiTrackBefore"
        "Azimuthal angle of all processed tracks"
        kTH1F [axis 720 (il 0) TMath.TwoPi] registry in
  let registry :=
    add "TrackCuts/TracksBefore/fMomCorrelation"
        "fMomCorrelation"
        kTH2F [axis 1000 (fl 0 1) (fl 100 1); axis 1000 (fl 0 1) (fl 100 1)] registry in
  let registry :=
    add "TrackCuts/TracksBefore/fMomCorrelationAfterCuts"
        "fMomCorrelationAfterCuts"
        kTH2F [axis 1000 (fl 0 1) (fl 100 1); axis 1000 (fl 0 1) (fl 100 1)] registry in
  let registry :=
    add "TrackCuts/NSigmaBefore/fNsigmaTPCvsPProtonBefore"
        "NSigmaTPC Proton Before"
        kTH2F [axis 100 (fl 0 1) (fl 10 1); axis 100 (fl (-10) 1) (fl 10 1)] registry in
  let registry :=
    add "TrackCuts/NSigmaBefore/fNsigmaTOFvsPProtonBefore"
        "NSigmaTOF Proton Before"
        kTH2F [axis 100 (fl 0 1) (fl 10 1); axis 100 (fl (-10) 1) (fl 10 1)] registry in
  let registry :=
    add "TrackCuts/NSigmaBefore/fNsigmaTPCTOFvsPProtonBefore"
        "NSigmaTPCTOF Proton Before"
        kTH2F [axis 100 (fl 0 1) (fl 10 1); axis 100 (fl 0 1) (fl 10 1)] registry in
  let registry :=
    add "TrackCuts/NSigmaBefore/fNsigmaTPCvsPAntiProtonBefore"
        "NSigmaTPC AntiProton Before"
        kTH2F [axis 100 (fl 0 1) (fl 10 1); axis 100 (fl (-10) 1) (fl 10 1)] registry in
  let registry :=
    add "TrackCuts/NSigmaBefore/fNsigmaTOFvsPAntiProtonBefore"
        "NSigmaTOF AntiProton Before"
        kTH2F [axis 100 (fl 0 1) (fl 10 1); axis 100 (fl (-10) 1) (fl 10 1)] registry in
  let registry :=
    add "TrackCuts/NSigmaBefore/fNsigmaTPCTOFvsPAntiProtonBefore"
        "NSigmaTPCTOF AntiProton Before"
        kTH2F [axis 100 (fl 0 1) (fl 10 1); axis 100 (fl 0 1) (fl 10 1)] registry in
  let registry :=
    add "TrackCuts/TPCSignal/fTPCSignal"
        "TPCSignal"
        kTH2F [axis 1000 (fl 0 1) (fl 6 1); axis 2000 (fl (-100) 1) (fl 1000 1)] registry in
  let registry :=
    add "TrackCuts/TPCSignal/fTPCSignalP"
        "TPCSignalP"
        kTH2F [axis 1000 (fl 0 1) (fl 6 1); axis 2000 (fl (-100) 1) (fl 1000 1)] registry in
  let registry :=
    add "TrackCuts/TPCSignal/fTPCSignalALLCUTS"
        "TPCSignalALLCUTS"
        kTH2F [axis 1000 (fl 0 1) (fl 6 1); axis 2000 (fl (-100) 1) (fl 1000 1)] registry in
  let registry :=
    add "TrackCuts/TPCSignal/fTPCSignalALLCUTSP"
        "TPCSignalALLCUTSP"
        kTH2F [axis 1000 (fl 0 1) (fl 6 1); axis 2000 (fl (-100) 1) (fl 1000 1)] registry in
  let registry :=
    add "TrackCuts/TPCSignal/fTPCSignalAnti"
        "TPCSignal"
        kTH2F [axis 1000 (fl 0 1) (fl 6 1); axis 2000 (fl (-100) 1) (fl 1000 1)] registry in
  let registry :=
    add "TrackCuts/TPCSignal/fTPCSignalAntiP"
        "TPCSignalP"
        kTH2F [axis 1000 (fl 0 1) (fl 6 1); axis 2000 (fl (-100) 1) (fl 1000 1)] registry in
  let registry :=
    add "TrackCuts/TPCSignal/fTPCSignalAntiALLCUTS"
        "TPCSignalALLCUTS"
        kTH2F [axis 1000 (fl 0 1) (fl 6 1); axis 2000 (fl (-100) 1) (fl 1000 1)] registry in
  let registry :=
    add "TrackCuts/TPCSignal/fTPCSignalAntiALLCUTSP"
        "TPCSignalALLCUTSP"
        kTH2F [axis 1000 (fl 0 1) (fl 6 1); axis 2000 (fl (-100) 1) (fl 1000 1)] registry in
  let registry :=
    add "TrackCuts/TPCSignal/fTPCSignalProton"
        "fTPCSignalProton"
        kTH2F [axis 1000 (fl 0 1) (fl 6 1); axis 20000 (fl (-100) 1) (fl 1000 1)] registry in
  let registry :=
    add "TrackCuts/TPCSignal/fTPCSignalAntiProton"
        "fTPCSignalAntiProton"
        kTH2F [axis 1000 (fl 0 1) (fl 6 1); axis 20000 (fl (-100) 1) (fl 1000 1)] registry in
  let registry :=
    add "TrackCuts/TPCSignal/fTPCSignalPionMinusV0Daughter"
        "fTPCSignalPionMinusV0Daughter"
        kTH2F [axis 1000 (fl 0 1) (fl 6 1); axis 20000 (fl (-100) 1) (fl 1000 1)] registry in
  let registry :=
    add "TrackCuts/TPCSignal/fTPCSignalPionPlusV0Daughter"
        "fTPCSignalPionPlusV0Daughter"
        kTH2F [axis 1000 (fl 0 1) (fl 6 1); axis 20000 (fl (-100) 1) (fl 1000 1)] registry in
  let registry :=
    add "TrackCuts/TPCSignal/fTPCSignalProtonMinusV0Daughter"
        "fTPCSignalProtonMinusV0Daughter"
        kTH2F [axis 1000 (fl 0 1) (fl 6 1); axis 20000 (fl (-100) 1) (fl 1000 1)] registry in
  let registry :=
    add "TrackCuts/TPCSignal/fTPCSignalProtonPlusV0Daughter"
        "fTPCSignalProtonPlusV0Daughter"
        kTH2F [axis 1000 (fl 0 1) (fl 6 1); axis 20000 (fl (-100) 1) (fl 1000 1)] registry in
  let registry :=
    add "TrackCuts/NSigmaBefore/fNsigmaTPCvsPProtonV0DaughBefore"
        "NSigmaTPC Proton V0Daught Before"
        kTH2F [axis 100 (fl 0 1) (fl 10 1); axis 100 (fl (-10) 1) (fl 10 1)] registry in
  let registry :=
    add "TrackCuts/NSigmaBefore/fNsigmaTPCvsPPionMinusV0DaughBefore"
        "NSigmaTPC AntiPion V0Daught Before"
        kTH2F [axis 100 (fl 0 1) (fl 10 1); axis 100 (fl (-10) 1) (fl 10 1)] registry in
  let registry :=
    add "TrackCuts/NSigmaBefore/fNsigmaTPCvsPAntiProtonAntiV0DaughBefore"
        "NSigmaTPC AntiProton antiV0Daught Before"
        kTH2F [axis 100 (fl 0 1) (fl 10 1); axis 100 (fl (-10) 1) (fl 10 1)] registry in
  let registry :=
    add "TrackCuts/NSigmaBefore/fNsigmaTPCvsPPionPlusAntiV0DaughBefore"
        "NSigmaTPC Pion antiV0Daught Before"
        kTH2F [axis 100 (fl 0 1) (fl 10 1); axis 100 (fl (-10) 1) (fl 10 1)] registry in
  let registry :=
    add "TrackCuts/Proton/fPProton"
        "Momentum of protons at PV"
        kTH1F [axis 1000 (il 0) (il 10)] registry in
  let registry :=
    add "TrackCuts/Proton/fPTPCProton"
        "Momentum of protons at TPC inner wall"
        kTH1F [axis 1000 (il 0) (il 10)] registry in
  let registry :=
    add "TrackCuts/Proton/fPtProton"
        "Transverse momentum of all processed tracks"
        kTH1F [axis 1000 (il 0) (il 10)] registry in
  let registry :=
    add "TrackCuts/Proton/fEtaProton"
        "Pseudorapidity of all processed tracks"
        kTH1F [axis 1000 (il (-2)) (il 2)] registry in
  let registry :=
    add "TrackCuts/Proton/fPhiProton"
        "Azimuthal angle of all processed tracks"
        kTH1F [axis 720 (il 0) TMath.TwoPi] registry in
  let registry :=
    add "TrackCuts/Proton/fNsigmaTPCvsPProton"
        "NSigmaTPC Proton"
        kTH2F [axis 100 (fl 0 1) (fl 10 1); axis 100 (fl (-10) 1) (fl 10 1)] registry in
  let registry :=
    add "TrackCuts/Proton/fNsigmaTOFvsPProton"
        "NSigmaTOF Proton"
        kTH2F [axis 100 (fl 0 1) (fl 10 1); axis 100 (fl (-10) 1) (fl 10 1)] registry in
  let registry :=
    add "TrackCuts/Proton/fNsigmaTPCTOFvsPProton"
        "NSigmaTPCTOF Proton"
        kTH2F [axis 100 (fl 0 1) (fl 10 1); axis 100 (fl 0 1) (fl 10 1)] registry in
  let registry :=
    add "TrackCuts/Proton/fDCAxyProton"
        "fDCAxy Proton"
        kTH1F [axis 500 (fl (-5) 10) (fl 5 10)] registry in
  let registry :=
    add "TrackCuts/Proton/fDCAzProton"
        "fDCAz Proton"
        kTH1F [axis 500 (fl (-5) 10) (fl 5 10)] registry in
  let registry :=
    add "TrackCuts/Proton/fTPCsClsProton"
        "fTPCsCls Proton"
        kTH1F [axis 163 (fl (-1) 1) (fl 162 1)] registry in
  let registry :=
    add "TrackCuts/Proton/fTPCcRowsProton"
        "fTPCcRows Proton"
        kTH1F [axis 163 (fl (-1) 1) (fl 162 1)] registry in
  let registry :=
    add "TrackCuts/Proton/fTrkTPCfClsProton"
        "fTrkTPCfCls Proton"
        kTH1F [axis 500 (fl 0 1) (fl 3 1)] registry in
  let registry :=
    add "TrackCuts/Proton/fTPCnclsProton"
        "fTPCncls Proton"
        kTH1F [axis 163 (fl (-1) 1) (fl 162 1)] registry in
  let registry :=
    add "TrackCuts/AntiProton/fPtAntiProton"
        "Transverse momentum of all processed tracks"
        kTH1F [axis 1000 (il 0) (il 10)] registry in
  let registry :=
    add "TrackCuts/AntiProton/fEtaAntiProton"
        "Pseudorapidity of all processed tracks"
        kTH1F [axis 1000 (il (-2)) (il 2)] registry in
  let registry :=
    add "TrackCuts/AntiProton/fPhiAntiProton"
        "Azimuthal angle of all processed tracks"
        kTH1F [axis 720 (il 0) TMath.TwoPi] registry in
  let registry :=
    add "TrackCuts/AntiProton/fNsigmaTPCvsPAntiProton"
        "NSigmaTPC AntiProton"
        kTH2F [axis 100 (fl 0 1) (fl 10 1); axis 100 (fl (-10) 1) (fl 10 1)] registry in
  let registry :=
    add "TrackCuts/AntiProton/fNsigmaTOFvsPAntiProton"
        "NSigmaTOF AntiProton"
        kTH2F [axis 100 (fl 0 1) (fl 10 1); axis 100 (fl (-10) 1) (fl 10 1)] registry in
  let registry :=
    add "TrackCuts/AntiProton/fNsigmaTPCTOFvsPAntiProton"
        "NSigmaTPCTOF AntiProton"
        kTH2F [axis 100 (fl 0 1) (fl 10 1); axis 100 (fl 0 1) (fl 10 1)] registry in
  let registry :=
    add "TrackCuts/AntiProton/fDCAxyAntiProton"
        "fDCAxy AntiProton"
        kTH1F [axis 500 (fl (-5) 10) (fl 5 10)] registry in
  let registry :=
    add "TrackCuts/AntiProton/fDCAzAntiProton"
        "fDCAz AntiProton"
        kTH1F [axis 500 (fl (-5) 10) (fl 5 10)] registry in
  let registry :=
    add "TrackCuts/AntiProton/fTPCsClsAntiProton"
        "fTPCsCls AntiProton"
        kTH1F [axis 163 (fl (-1) 1) (fl 162 1)] registry in
  let registry :=
    add "TrackCuts/AntiProton/fTPCcRowsAntiProton"
        "fTPCcRows AntiProton"
        kTH1F [axis 163 (fl (-1) 1) (fl 162 1)] registry in
  let registry :=
    add "TrackCuts/AntiProton/fTrkTPCfClsAntiProton"
        "fTrkTPCfCls AntiProton"
        kTH1F [axis 500 (fl 0 1) (fl 3 1)] registry in
  add "TrackCuts/AntiProton/fTPCnclsAntiProton"
      "fTPCncls AntiProton"
      kTH1F [axis 163 (fl (-1) 1) (fl 162 1)] registry.

Definition init (s : t) : t :=
  {| ccdb_url := Some "http://alice-ccdb.cern.ch";
     ccdb_caching := true;
     ccdb_localValidity := true;
     ccdbApi_url := Some "http://alice-ccdb.cern.ch";
     registry := addHistograms (registry s) |}.

End CFInit.

(** ** Statements about what CFFilterQA does *)

(** The list [f] of the state has only grown, by entries that satisfy [P]. *)
Definition extends {S X} (f : S -> list X) (P : X -> Prop) : S -> S -> Prop :=
  fun st st' => exists new, f st' = (f st ++ new)%list /\ Forall P new.

(** The histogram fills made between two states of the task. *)
Definition newRegistryFills (st st' : CFFilterQA) : list Fill :=
  skipn (List.length (registry st)) (registry st').

(** The histograms of a task that went through [init]. *)
Definition cfRegistry : list hist.HistSpec := CFInit.registry (CFInit.init CFInit.fresh).

(** NaN or an infinity. *)
Definition notFinite (x : spec_float) : Prop :=
  x = S754_nan \/ exists s, x = S754_infinity s.

(** The track with its electron nSigma in the TPC replaced by [x]. *)
Definition withElectronNSigma (x : float) (trk : Track) : Track := {|
  track.pt := track.pt trk;
  track.eta := track.eta trk;
  track.phi := track.phi trk;
  track.p := track.p trk;
  track.sign := track.sign trk;
  track.tpcInnerParam := track.tpcInnerParam trk;
  track.tpcSignal := track.tpcSignal trk;
  track.tpcNClsFound := track.tpcNClsFound trk;
  track.tpcCrossedRowsOverFindableCls := track.tpcCrossedRowsOverFindableCls trk;
  track.tpcNClsCrossedRows := track.tpcNClsCrossedRows trk;
  track.tpcNClsShared := track.tpcNClsShared trk;
  track.itsNCls := track.itsNCls trk;
  track.itsNClsInnerBarrel := track.itsNClsInnerBarrel trk;
  track.dcaXY := track.dcaXY trk;
  track.dcaZ := track.dcaZ trk;
  track.tpcChi2NCl := track.tpcChi2NCl trk;
  track.itsChi2NCl := track.itsChi2NCl trk;
  track.hasTPC := track.hasTPC trk;
  track.hasITS := track.hasITS trk;
  track.tpcNSigmaPr := track.tpcNSigmaPr trk;
  track.tpcNSigmaDe := track.tpcNSigmaDe trk;
  track.tpcNSigmaPi := track.tpcNSigmaPi trk;
  track.tpcNSigmaEl := x;
  track.tofNSigmaPr := track.tofNSigmaPr trk;
  track.tofNSigmaDe := track.tofNSigmaDe trk
|}.

(** The electron row of the rejection table has equal bounds, as in the
    declared table, whose third row is zero-initialised. *)
Definition electronWindowEmpty (cfg : Config) : Prop :=
  exists bound,
    get_ii (ConfPIDRejection cfg) (rejectionIndex kRejElectron) (limitIndex kTPCMin) = Ok bound /\
    get_ii (ConfPIDRejection cfg) (rejectionIndex kRejElectron) (limitIndex kTPCMax) = Ok bound.

(** The nSigma that [isSelectedV0Daughter] tests: entry 1 for a pion
    daughter, entry 0 for a proton daughter. *)
Definition daughterNSigma (species : V0Daughters) (nSigmaTPCDaug : double * double)
  : double :=
  match species with kDaughPion => snd nSigmaTPCDaug | _ => fst nSigmaTPCDaug end.

(** The cuts of [isSelectedV0Daughter], each as the comparison that lets
    the daughter pass. *)
Definition v0DaughterCuts (cfg : Config) (trk : Track) (charge : float)
    (nSigmaTPC : double) (tpcMin tpcMax : float) : Prop :=
  (flt charge (f32_of_int 0) = true -> (track.sign trk >? 0) = false) /\
  (fgt charge (f32_of_int 0) = true -> (track.sign trk <? 0) = false) /\
  fle (fabs (track.eta trk)) (ConfDaughEta cfg) = true /\
  fge (f32_of_int (track.tpcNClsFound trk)) (ConfDaughTPCnclsMin cfg) = true /\
  fge (fabs (track.dcaXY trk)) (ConfDaughDCAMin cfg) = true /\
  fge nSigmaTPC (f64_of_f32 tpcMin) = true /\
  fle nSigmaTPC (f64_of_f32 tpcMax) = true.

(** The compared quantities are numbers. *)
Definition numericDaughter (cfg : Config) (trk : Track) (nSigmaTPC : double)
    (tpcMin tpcMax : float) : Prop :=
  is_nan (track.eta trk) = false /\
  is_nan (track.dcaXY trk) = false /\
  is_nan nSigmaTPC = false /\
  is_nan (ConfDaughEta cfg) = false /\
  is_nan (ConfDaughTPCnclsMin cfg) = false /\
  is_nan (ConfDaughDCAMin cfg) = false /\
  is_nan tpcMin = false /\
  is_nan tpcMax = false.

(** The two requests of [BB = setValuesBB(bc, path); BBAnti =
    setValuesBB(bc, antiPath)], made when the switch [on] is set. *)
Definition pairRequests (on : bool) (path antiPath : string) (ts : Z)
  : list (string * Z) :=
  if on then [(path, ts); (antiPath, ts)] else [].

(** The requests of one reload, in order. *)
Definition reloadRequests (cfg : Config) (ts : Z) : list (string * Z) :=
  (pairRequests (ConfUseManualPIDproton cfg || ConfUseManualPIDdaughterProton cfg)
                (ConfPIDBBProton cfg) (ConfPIDBBAntiProton cfg) ts
   ++ pairRequests (ConfUseManualPIDdeuteron cfg)
                   (ConfPIDBBDeuteron cfg) (ConfPIDBBAntiDeuteron cfg) ts
   ++ pairRequests (ConfUseManualPIDpion cfg || ConfUseManualPIDdaughterPion cfg)
                   (ConfPIDBBPion cfg) (ConfPIDBBAntiPion cfg) ts
   ++ pairRequests (ConfUseManualPIDpion cfg)
                   (ConfPIDBBElectron cfg) (ConfPIDBBAntiElectron cfg) ts)%list.

(** [process] reloads: manual proton or deuteron PID is on and the
    collision's run is not the one recorded in [lastRunNumber]. *)
Definition reloads (st : CFFilterQA) (c : Collision) : bool :=
  (ConfUseManualPIDproton (conf st) || ConfUseManualPIDdeuteron (conf st))
  && negb (col.bc_runNumber c =? lastRunNumber st).

(** A Bethe-Bloch vector is empty or has its six entries. *)
Definition sized (v : list double) : Prop :=
  List.length v = 0%nat \/ List.length v = 6%nat.

Definition sizedVectors (st : CFFilterQA) : Prop :=
  sized (BBProton st) /\ sized (BBAntiproton st) /\
  sized (BBDeuteron st) /\ sized (BBAntideuteron st) /\
  sized (BBPion st) /\ sized (BBAntipion st) /\
  sized (BBElectron st) /\ sized (BBAntielectron st).

(** From a state that satisfies [I], [m] returns and [I] holds again. *)
Definition total {S A} (I : S -> Prop) (m : Task S A) : Prop :=
  forall st, I st -> exists a st', m st = Done a st' /\ I st'.

(** The table [a] has the columns, the labels and the size of [d]. *)
Definition declaredShape (a d : LabeledArray) : Prop :=
  la_cols a = la_cols d /\
  la_labels_rows a = la_labels_rows d /\
  la_labels_cols a = la_labels_cols d /\
  List.length (la_data a) = List.length (la_data d).

(** The tables that [process] reads have their declared shapes. *)
Definition declaredTables (cfg : Config) : Prop :=
  declaredShape (ConfPtCuts cfg) (ConfPtCuts defaultConfig) /\
  declaredShape (ConfTPCNClustersMin cfg) (ConfTPCNClustersMin defaultConfig) /\
  declaredShape (ConfPIDCuts cfg) (ConfPIDCuts defaultConfig) /\
  declaredShape (ConfPIDCutsAnti cfg) (ConfPIDCutsAnti defaultConfig) /\
  declaredShape (ConfPIDTPCTOFAvg cfg) (ConfPIDTPCTOFAvg defaultConfig).

(** What the reload keeps: the configuration and the cached run numbers. *)
Definition reloadKept (st : CFFilterQA) := (conf st, currentRunNumber st, lastRunNumber st).

(** The task runs with the configuration [cfg]. *)
Definition configured (cfg : Config) (st : CFFilterQA) : Prop := conf st = cfg.

(** ** The particle rows of [process] *)

(** The row that [process] writes for a track: the current collision row's
    index, the track's kinematics, the cut bit and the proton PID bit. *)
Definition particleRowOf (cfg : Config) (collisionId : Z) (trk : Track) (cutbit : Z)
  : ParticleRow :=
  {| pr_collisionId := collisionId;
     pr_pt := track.pt trk;
     pr_eta := track.eta trk;
     pr_phi := track.phi trk;
     pr_partType := kTrack;
     pr_cut := to_uint32 cutbit;
     pr_pidcut := to_uint32 (ConfPidBitProton cfg);
     pr_tempFitVar := track.dcaXY trk;
     pr_childrenIds := (0, 0);
     pr_mLambda := f32_of_int 0;
     pr_mAntiLambda := f32_of_int 0 |}.

(** The rows a track gives rise to, from the predicates evaluated against the
    task [st]: a proton row when the track passes the proton cuts, is
    positive and passes the PID with its nSigma for particles; an antiproton
    row when it passes the cuts, is negative and passes the PID with its
    nSigma for antiparticles; no row otherwise. *)
Definition protonRows (aleph : AlephFn) (st : CFFilterQA) (collisionId : Z)
    (trk : Track) : list ParticleRow :=
  match isSelectedTrack st trk kProton, nTPCSigma aleph st trk with
  | Ok true, Ok nS =>
      if track.sign trk >? 0 then
        match isSelectedTrackPID aleph st trk kProton false (fst nS) 1 with
        | Ok true =>
            [particleRowOf (conf st) collisionId trk (ConfCutBitPart (conf st))]
        | _ => []
        end
      else if track.sign trk <? 0 then
        match isSelectedTrackPID aleph st trk kProton false (snd nS) (-1) with
        | Ok true =>
            [particleRowOf (conf st) collisionId trk (ConfCutBitAntiPart (conf st))]
        | _ => []
        end
      else []
  | _, _ => []
  end.

(** The task without its histogram fills. *)
Definition withoutFills (st : CFFilterQA) : CFFilterQA := set_registry [] st.

(** The task without its outputs: what the predicates read. *)
Definition settings (st : CFFilterQA) : CFFilterQA :=
  set_outputCollision [] (set_outputParts [] (set_registry [] st)).

(* ===================================================================== *)
(** * Facts about IEEE-754 comparisons and rounding *)
(* ===================================================================== *)

Module IEEE_facts.

Lemma SFcompare_antisym (x y : spec_float) :
  SFcompare y x = option_map CompOpp (SFcompare x y).
Proof.
  destruct x as [sx | sx | | sx mx ex], y as [sy | sy | | sy my ey];
    simpl; try reflexivity;
    try (destruct sx; reflexivity); try (destruct sy; reflexivity);
    try (destruct sx, sy; reflexivity).
  pose proof (Pos.compare_cont_antisym mx my Eq) as Hm. simpl in Hm.
  destruct sx, sy; simpl; try reflexivity;
    rewrite (Z.compare_antisym ex ey);
    destruct (ex ?= ey); simpl; try reflexivity;
    rewrite <- Hm; try rewrite CompOpp_involutive; reflexivity.
Qed.

Lemma SFcompare_numbers (x y : spec_float) :
  is_nan x = false -> is_nan y = false -> exists c, SFcompare x y = Some c.
Proof.
  destruct x, y; simpl; intros; try discriminate; eauto.
Qed.

(** A test that fired contradicts the complementary comparison, NaN or not. *)
Lemma flt_fge_contra (a b : spec_float) : flt a b = true -> fge a b = true -> False.
Proof.
  unfold flt, fge, SFltb, SFleb. rewrite (SFcompare_antisym a b).
  destruct (SFcompare a b) as [[| |]|]; simpl; congruence.
Qed.

Lemma fgt_fle_contra (a b : spec_float) : fgt a b = true -> fle a b = true -> False.
Proof.
  unfold fgt, fle, SFltb, SFleb. rewrite (SFcompare_antisym a b).
  destruct (SFcompare a b) as [[| |]|]; simpl; congruence.
Qed.

Lemma fge_flt_contra (a b : spec_float) : fge a b = true -> flt a b = true -> False.
Proof. intros H1 H2. exact (flt_fge_contra a b H2 H1). Qed.

(** On numbers, a test that did not fire gives the complementary comparison. *)
Lemma flt_false_fge (a b : spec_float) :
  is_nan a = false -> is_nan b = false -> flt a b = false -> fge a b = true.
Proof.
  intros Ha Hb. unfold flt, fge, SFltb, SFleb. rewrite (SFcompare_antisym a b).
  destruct (SFcompare_numbers a b Ha Hb) as [c ->].
  destruct c; simpl; congruence.
Qed.

Lemma fgt_false_fle (a b : spec_float) :
  is_nan a = false -> is_nan b = false -> fgt a b = false -> fle a b = true.
Proof.
  intros Ha Hb. unfold fgt, fle, SFltb, SFleb. rewrite (SFcompare_antisym a b).
  destruct (SFcompare_numbers a b Ha Hb) as [c ->].
  destruct c; simpl; congruence.
Qed.

Lemma fge_false_flt (a b : spec_float) :
  is_nan a = false -> is_nan b = false -> fge a b = false -> flt a b = true.
Proof.
  intros Ha Hb. unfold flt, fge, SFltb, SFleb. rewrite (SFcompare_antisym a b).
  destruct (SFcompare_numbers a b Ha Hb) as [c ->].
  destruct c; simpl; congruence.
Qed.

Lemma is_nan_fabs (x : spec_float) : is_nan (fabs x) = is_nan x.
Proof. destruct x; reflexivity. Qed.

(** Rounding a non-negative mantissa never yields NaN. *)
Section Rounding.
Variables prec emax : Z.

Lemma shr_1_nonneg (mrs : shr_record) : 0 <= shr_m mrs -> 0 <= shr_m (shr_1 mrs).
Proof.
  destruct mrs as [m r s]. simpl. destruct m as [|q|q]; simpl; try lia;
    destruct q; simpl; lia.
Qed.

Lemma iter_pos_shr_1_nonneg (n : positive) :
  forall mrs, 0 <= shr_m mrs -> 0 <= shr_m (iter_pos shr_1 n mrs).
Proof.
  induction n; intros mrs H; simpl; auto using shr_1_nonneg.
Qed.

Lemma shr_nonneg (mrs : shr_record) (e n : Z) :
  0 <= shr_m mrs -> 0 <= shr_m (fst (shr mrs e n)).
Proof.
  intros H. unfold shr. destruct n; simpl; auto using iter_pos_shr_1_nonneg.
Qed.

Lemma shr_fexp_nonneg (m e : Z) (l : location) :
  0 <= m -> 0 <= shr_m (fst (shr_fexp prec emax m e l)).
Proof.
  intros H. unfold shr_fexp. apply shr_nonneg.
  destruct l as [|[| |]]; simpl; assumption.
Qed.

Lemma round_nearest_even_nonneg (m : Z) (l : location) :
  0 <= m -> 0 <= round_nearest_even m l.
Proof.
  intros H. unfold round_nearest_even. destruct l as [|[| |]]; try lia.
  destruct (Z.even m); lia.
Qed.

Lemma binary_round_aux_not_nan (sx : bool) (mx ex : Z) (lx : location) :
  0 <= mx -> is_nan (binary_round_aux prec emax sx mx ex lx) = false.
Proof.
  intros H. unfold binary_round_aux.
  pose proof (shr_fexp_nonneg mx ex lx H) as H1.
  destruct (shr_fexp prec emax mx ex lx) as [mrs' e'].
  simpl in H1.
  pose proof (shr_fexp_nonneg _ e' loc_Exact
                (round_nearest_even_nonneg (shr_m mrs') (loc_of_shr_record mrs') H1)) as H2.
  destruct (shr_fexp prec emax
              (round_nearest_even (shr_m mrs') (loc_of_shr_record mrs')) e' loc_Exact)
    as [mrs'' e''].
  simpl in H2.
  destruct (shr_m mrs'') as [|q|q]; simpl; try reflexivity.
  - destruct (e'' <=? emax - prec); reflexivity.
  - lia.
Qed.

Lemma binary_round_not_nan (sx : bool) (mx : positive) (ex : Z) :
  is_nan (binary_round prec emax sx mx ex) = false.
Proof.
  unfold binary_round.
  destruct (shl_align mx ex (fexp prec emax (Z.pos (digits2_pos mx) + ex))) as [mz ez].
  apply binary_round_aux_not_nan. lia.
Qed.

Lemma binary_normalize_not_nan (m e : Z) (szero : bool) :
  is_nan (binary_normalize prec emax m e szero) = false.
Proof.
  unfold binary_normalize. destruct m; simpl; auto using binary_round_not_nan.
Qed.

End Rounding.

Lemma is_nan_f32_of_int (z : Z) : is_nan (f32_of_int z) = false.
Proof. apply binary_normalize_not_nan. Qed.

Lemma is_nan_f64_of_int (z : Z) : is_nan (f64_of_int z) = false.
Proof. apply binary_normalize_not_nan. Qed.

Lemma is_nan_f64_of_f32 (x : float) : is_nan (f64_of_f32 x) = is_nan x.
Proof. destruct x; simpl; auto using binary_round_not_nan. Qed.

Lemma is_nan_f32_of_f64 (x : double) : is_nan (f32_of_f64 x) = is_nan x.
Proof. destruct x; simpl; auto using binary_round_not_nan. Qed.

End IEEE_facts.
Import IEEE_facts.

(* ===================================================================== *)
(** * Track cuts (C1) *)
(* ===================================================================== *)

Ltac fire H :=
  eexists; split; [reflexivity|]; split; [discriminate|];
  let Hc := fresh "Hc" in
  intros Hc; unfold trackCuts in Hc; decompose [and] Hc; clear Hc; exfalso;
  first [ eapply flt_fge_contra; eassumption
        | eapply fgt_fle_contra; eassumption
        | apply andb_prop in H; destruct H as [Hflag Htest];
          first [ eapply fgt_fle_contra; [exact Htest | eauto]
                | eapply fge_flt_contra; [exact Htest | eauto]
                | match goal with
                  | Hr : _ = true -> _ = true |- _ =>
                      rewrite (Hr Hflag) in Htest; discriminate
                  end ] ].

(** C1, amended: for a species whose three thresholds the tables hold, a
    track whose compared quantities are numbers and numeric thresholds,
    [isSelectedTrack] returns, and it returns true if and only if every cut
    of the list holds. *)
Theorem C1_isSelectedTrack_iff (st : CFFilterQA) (trk : Track)
    (s : ParticleSpecies) (ptMin ptMax nClsMin : float) :
  get_is (ConfPtCuts (conf st)) (speciesIndex s) "Pt min" = Ok ptMin ->
  get_is (ConfPtCuts (conf st)) (speciesIndex s) "Pt max" = Ok ptMax ->
  get_si (ConfTPCNClustersMin (conf st)) "TPCNClusMin" (speciesIndex s) = Ok nClsMin ->
  numericTrack trk ->
  numericTrackCuts (conf st) ptMin ptMax nClsMin ->
  exists b, isSelectedTrack st trk s = Ok b /\
            (b = true <-> trackCuts (conf st) trk ptMin ptMax nClsMin).
Proof.
  intros Hmin Hmax Hncl Ht Hc.
  destruct Ht as (Npt & Neta & Nrc & Nxy & Nz & Nct & Nci).
  destruct Hc as (Nmin & Nmax & Nncl & Ceta & Cf & Ccr & Cs & Cin & Cib & Cxy & Cz & Cct & Cci).
  unfold isSelectedTrack. rewrite Hmin. cbn [rbind].
  destruct (flt (track.pt trk) ptMin) eqn:T1; [fire T1|].
  rewrite Hmax. cbn [rbind].
  destruct (fgt (track.pt trk) ptMax) eqn:T2; [fire T2|].
  destruct (fgt (fabs (track.eta trk)) (ConfTrkEta (conf st))) eqn:T3; [fire T3|].
  rewrite Hncl. cbn [rbind].
  destruct (flt (f32_of_int (track.tpcNClsFound trk)) nClsMin) eqn:T4; [fire T4|].
  destruct (flt (track.tpcCrossedRowsOverFindableCls trk) (ConfTrkTPCfCls (conf st))) eqn:T5; [fire T5|].
  destruct (flt (f32_of_int (track.tpcNClsCrossedRows trk)) (ConfTrkTPCcRowsMin (conf st))) eqn:T6; [fire T6|].
  destruct (fgt (f32_of_int (track.tpcNClsShared trk)) (ConfTrkTPCsClsMax (conf st))) eqn:T7; [fire T7|].
  destruct (flt (f32_of_int (track.itsNCls trk)) (ConfTrkITSnclsMin (conf st))) eqn:T8; [fire T8|].
  destruct (flt (f32_of_int (track.itsNClsInnerBarrel trk)) (ConfTrkITSnclsIbMin (conf st))) eqn:T9; [fire T9|].
  destruct (fgt (fabs (track.dcaXY trk)) (ConfTrkDCAxyMax (conf st))) eqn:T10; [fire T10|].
  destruct (fgt (fabs (track.dcaZ trk)) (ConfTrkDCAzMax (conf st))) eqn:T11; [fire T11|].
  destruct (ConfRejectNotPropagatedTracks (conf st) && _) eqn:T12; [fire T12|].
  destruct (ConfTrkRequireChi2MaxTPC (conf st) && _) eqn:T13; [fire T13|].
  destruct (ConfTrkRequireChi2MaxITS (conf st) && _) eqn:T14; [fire T14|].
  destruct (ConfTrkTPCRefit (conf st) && _) eqn:T15; [fire T15|].
  destruct (ConfTrkITSRefit (conf st) && _) eqn:T16; [fire T16|].
  eexists; split; [reflexivity|]. split; [intros _|reflexivity].
  unfold trackCuts.
  repeat match goal with |- _ /\ _ => split end.
  all: try (apply flt_false_fge; auto using is_nan_f32_of_int; fail).
  all: try (apply fgt_false_fle; rewrite ?is_nan_fabs; auto using is_nan_f32_of_int; fail).
  - intros F. rewrite F, andb_true_l in T12.
    apply fgt_false_fle;
      [rewrite is_nan_f64_of_f32, is_nan_fabs; exact Nxy
      | apply is_nan_f64_of_int | exact T12].
  - intros F. rewrite F, andb_true_l in T13. apply fge_false_flt; assumption.
  - intros F. rewrite F, andb_true_l in T14. apply fge_false_flt; assumption.
  - intros F. rewrite F, andb_true_l in T15.
    destruct (track.hasTPC trk); [reflexivity|discriminate].
  - intros F. rewrite F, andb_true_l in T16.
    destruct (track.hasITS trk); [reflexivity|discriminate].
Qed.

(** The cuts on a sample track, for protons. *)
Lemma C1_witness :
  exists b, isSelectedTrack sampleTask goodTrack kProton = Ok b /\
            (b = true <-> trackCuts (conf sampleTask) goodTrack
                            (f32_dec 35 100) (f32_of_int 6) (f32_of_int 60)).
Proof.
  apply (C1_isSelectedTrack_iff sampleTask goodTrack kProton
           (f32_dec 35 100) (f32_of_int 6) (f32_of_int 60));
    try reflexivity; vm_compute; repeat split; reflexivity.
Defined.

(** C1 as stated fails twice: for Lambda the cluster threshold is read
    outside the 1x2 table, and a track whose pt is NaN passes every cut. *)
Lemma C1_counterexample :
  (isSelectedTrack sampleTask goodTrack kLambda = OutOfRange LabeledArrayAccess /\
   ~ isSelectedTrack_spec sampleTask goodTrack kLambda) /\
  (isSelectedTrack sampleTask nanPtTrack kProton = Ok true /\
   ~ isSelectedTrack_spec sampleTask nanPtTrack kProton).
Proof.
  split; split; try reflexivity.
  - intros (ptMin & ptMax & nClsMin & b & _ & _ & H & _). vm_compute in H. discriminate.
  - intros (ptMin & ptMax & nClsMin & b & H1 & _ & _ & Hb & Hiff).
    vm_compute in H1. injection H1 as <-.
    vm_compute in Hb. injection Hb as <-.
    destruct Hiff as [Hiff _]. specialize (Hiff eq_refl).
    destruct Hiff as [Hpt _]. vm_compute in Hpt. discriminate.
Qed.

(* ===================================================================== *)
(** * Frames of the task's member functions (C4, C5, C7) *)
(* ===================================================================== *)

Section Ensures.

Context {S : Type}.

Variable R : S -> S -> Prop.

Variable E : Abort -> Prop.

Hypothesis R_refl : forall s, R s s.

Hypothesis R_trans : forall a b c, R a b -> R b c -> R a c.

Lemma ensures_ret {A} (a : A) : ensures R E (ret a).
Proof. intros st. apply R_refl. Qed.

Lemma ensures_this : ensures R E this.
Proof. intros st. apply R_refl. Qed.

Lemma ensures_bind {A B} (m : Task S A) (k : A -> Task S B) :
  ensures R E m -> (forall a, ensures R E (k a)) -> ensures R E (bind m k).
Proof.
  intros Hm Hk st. unfold bind. specialize (Hm st).
  destruct (m st) as [a st1 | why st1].
  - specialize (Hk a st1). destruct (k a st1) as [b st2 | why st2].
    + eauto.
    + destruct Hk; split; eauto.
  - exact Hm.
Qed.

Lemma ensures_modify (f : S -> S) : (forall st, R st (f st)) -> ensures R E (modify f).
Proof. intros H st. apply H. Qed.

Lemma ensures_fatal {A} (msg : string) : E (AbortFatal msg) -> ensures R E (@fatal S A msg).
Proof. intros H st. split; [apply R_refl | exact H]. Qed.

Lemma ensures_lift {A} (r : Res A) : res_allowed E r -> ensures R E (lift r).
Proof.
  intros H st. unfold lift. destruct r; simpl in *; auto.
Qed.

Lemma ensures_call {A} (f : S -> Res A) :
  (forall st, res_allowed E (f st)) -> ensures R E (call f).
Proof. intros H st. unfold call. apply ensures_lift. apply H. Qed.

Lemma ensures_when (b : bool) (m : Task S unit) :
  ensures R E m -> ensures R E (when b m).
Proof. intros H. destruct b; simpl; [exact H | apply ensures_ret]. Qed.

Lemma ensures_if {A} (b : bool) (m1 m2 : Task S A) :
  ensures R E m1 -> ensures R E m2 -> ensures R E (if b then m1 else m2).
Proof. destruct b; auto. Qed.

Lemma ensures_forEach {A} (xs : list A) (body : A -> Task S unit) :
  (forall x, ensures R E (body x)) -> ensures R E (forEach xs body).
Proof.
  intros H. induction xs as [|x xs IH]; simpl.
  - apply ensures_ret.
  - apply ensures_bind; auto.
Qed.

End Ensures.

Lemma keeps_refl {S X} (f : S -> X) : forall s, keeps f s s.
Proof. reflexivity. Qed.

Lemma keeps_trans {S X} (f : S -> X) : forall a b c, keeps f a b -> keeps f b c -> keeps f a c.
Proof. unfold keeps. intros. congruence. Qed.

Lemma res_allowed_any {A} (r : Res A) : res_allowed anyAbort r.
Proof. destruct r; exact I. Qed.

Lemma ensures_outcome {S A} (R : S -> S -> Prop) (E : Abort -> Prop) (m : Task S A) (st : S) :
  ensures R E m -> R st (outcome_state (m st)).
Proof. intros H. specialize (H st). destruct (m st); simpl; tauto. Qed.

Lemma ensures_done {S A} (R : S -> S -> Prop) (m : Task S A) (st : S) :
  ensures R noAbort m -> exists a st', m st = Done a st' /\ R st st'.
Proof.
  intros H. specialize (H st). destruct (m st) as [a st'|why st'].
  - eauto.
  - destruct H as [_ []].
Qed.

(** One step of a frame proof: [f] is the part of the state that is kept. *)
Ltac keeps_step f E :=
  lazymatch goal with
  | |- ensures _ _ (bind _ _) =>
      apply (ensures_bind (keeps f) E (keeps_trans f)); [ | intros ]
  | |- ensures _ _ (ret _) => apply (ensures_ret (keeps f) E (keeps_refl f))
  | |- ensures _ _ this => apply (ensures_this (keeps f) E (keeps_refl f))
  | |- ensures _ _ (when _ _) => apply (ensures_when (keeps f) E (keeps_refl f))
  | |- ensures _ _ (if _ then _ else _) => apply (ensures_if (keeps f) E)
  | |- ensures _ _ (call _) =>
      apply (ensures_call (keeps f) E (keeps_refl f)); intros; try apply res_allowed_any
  | |- ensures _ _ (lift _) =>
      apply (ensures_lift (keeps f) E (keeps_refl f)); try apply res_allowed_any
  | |- ensures _ _ (forEach _ _) =>
      apply (ensures_forEach (keeps f) E (keeps_refl f) (keeps_trans f)); intros
  | |- ensures _ _ (let _ := _ in _) => cbv zeta
  end.

Section Frames.

Variable aleph : double -> double -> double -> double -> double -> double -> double.

Context {X : Type}.

Variable f : CFFilterQA -> X.

Variable E : Abort -> Prop.

Lemma modify_keeps (g : CFFilterQA -> CFFilterQA) :
  (forall st, f (g st) = f st) -> ensures (keeps f) E (modify g).
Proof. intros H st. unfold modify, keeps. apply H. Qed.

Lemma fill_keeps (name : string) (vals : list HVal) :
  (forall v st, f (set_registry v st) = f st) ->
  ensures (keeps f) E (fill name vals).
Proof. intros H. apply modify_keeps. intros. apply H. Qed.

Lemma appendParticle_keeps trk cutbit :
  (forall v st, f (set_outputParts v st) = f st) ->
  ensures (keeps f) E (appendParticle trk cutbit).
Proof. intros H. apply modify_keeps. intros. apply H. Qed.

Lemma appendCollision_keeps c :
  (forall v st, f (set_outputCollision v st) = f st) ->
  ensures (keeps f) E (appendCollision c).
Proof. intros H. apply modify_keeps. intros; apply H. Qed.

Lemma setValuesBB_keeps ccdb c path :
  (forall v st, f (set_ccdbApi v st) = f st) ->
  ensures (keeps f) E (setValuesBB ccdb c path).
Proof.
  intros H. unfold setValuesBB.
  keeps_step f E.
  - apply modify_keeps. intros. apply H.
  - destruct (ccdb path (col.bc_timestamp c)); keeps_step f E.
Qed.

Lemma reloadBB_keeps ccdb c :
  (forall v st, f (set_ccdbApi v st) = f st) ->
  (forall v st, f (set_currentRunNumber v st) = f st) ->
  (forall v st, f (set_lastRunNumber v st) = f st) ->
  (forall v st, f (set_BBProton v st) = f st) ->
  (forall v st, f (set_BBAntiproton v st) = f st) ->
  (forall v st, f (set_BBDeuteron v st) = f st) ->
  (forall v st, f (set_BBAntideuteron v st) = f st) ->
  (forall v st, f (set_BBPion v st) = f st) ->
  (forall v st, f (set_BBAntipion v st) = f st) ->
  (forall v st, f (set_BBElectron v st) = f st) ->
  (forall v st, f (set_BBAntielectron v st) = f st) ->
  ensures (keeps f) E (reloadBB ccdb c).
Proof.
  intros. unfold reloadBB, reloadVectors, fetchPair.
  repeat first [ keeps_step f E
               | apply setValuesBB_keeps; assumption
               | apply modify_keeps; intros; auto ].
Qed.

End Frames.

Section FramesAny.

Variable aleph : double -> double -> double -> double -> double -> double -> double.

Context {X : Type}.

Variable f : CFFilterQA -> X.

Hypothesis f_registry : forall v st, f (set_registry v st) = f st.

Hypothesis f_outputParts : forall v st, f (set_outputParts v st) = f st.

Lemma fillCombined_keeps name trk n row :
  ensures (keeps f) anyAbort (fillCombined name trk n row).
Proof.
  unfold fillCombined.
  repeat first [ keeps_step f anyAbort | apply fill_keeps; assumption ].
Qed.

Lemma fillSelected_keeps tag trk n :
  ensures (keeps f) anyAbort (fillSelected tag trk n).
Proof.
  unfold fillSelected. cbv zeta.
  repeat first [ keeps_step f anyAbort | apply fill_keeps; assumption
               | apply fillCombined_keeps ].
Qed.

Lemma processTrack_keeps trk :
  ensures (keeps f) anyAbort (processTrack aleph trk).
Proof.
  unfold processTrack.
  repeat first [ keeps_step f anyAbort
               | apply fill_keeps; assumption | apply fillCombined_keeps
               | apply fillSelected_keeps | apply appendParticle_keeps; assumption ].
Qed.

Lemma processEvent_keeps c tracks :
  (forall v st, f (set_outputCollision v st) = f st) ->
  ensures (keeps f) anyAbort (processEvent aleph c tracks).
Proof.
  intros H. unfold processEvent.
  repeat first [ keeps_step f anyAbort
               | apply fill_keeps; assumption | apply processTrack_keeps
               | apply appendCollision_keeps; assumption ].
Qed.

End FramesAny.

Ltac field_frame := intros; match goal with st : CFFilterQA |- _ => destruct st end; reflexivity.

Section Process.

Variable aleph : double -> double -> double -> double -> double -> double -> double.

Lemma process_run2 ccdb c tracks st :
  ConfIsRun3 (conf st) = false ->
  process aleph ccdb c tracks st
  = Aborted (AbortFatal "Run 2 processing is not implemented!") st.
Proof.
  intros H. unfold process, bind, this, when, fatal. rewrite H. reflexivity.
Qed.

(** C4: with ConfIsRun3 false, [process] ends in the framework's fatal abort
    and leaves the task exactly as it found it: no histogram is filled, no
    CCDB object is fetched, no row is appended to either output table. *)
Theorem C4_run2_aborts ccdb c tracks st :
  ConfIsRun3 (conf st) = false ->
  process aleph ccdb c tracks st
  = Aborted (AbortFatal "Run 2 processing is not implemented!") st.
Proof. exact (process_run2 ccdb c tracks st). Qed.

Lemma process_run3 ccdb c tracks st :
  ConfIsRun3 (conf st) = true ->
  process aleph ccdb c tracks st = (reloadBB ccdb c ;; processEvent aleph c tracks) st.
Proof.
  intros H. unfold process. unfold bind at 1 2. unfold this, when. rewrite H. reflexivity.
Qed.

Lemma process_keeps_constants ccdb c tracks :
  ensures (keeps constantsOf) anyAbort (process aleph ccdb c tracks).
Proof.
  unfold process.
  repeat first [ keeps_step constantsOf anyAbort
               | apply ensures_fatal; [apply keeps_refl | exact I]
               | apply reloadBB_keeps; field_frame
               | apply processEvent_keeps; field_frame ].
Qed.

End Process.

Lemma isSelectedEvent_conf st st' c :
  conf st' = conf st -> isSelectedEvent st' c = isSelectedEvent st c.
Proof. intros H. unfold isSelectedEvent. rewrite H. reflexivity. Qed.

Lemma isSelectedEvent_iff st c :
  is_nan (col.posZ c) = false -> is_nan (ConfEvtZvtx (conf st)) = false ->
  isSelectedEvent st c = true <-> eventCuts (conf st) c.
Proof.
  intros Nz Nc. unfold isSelectedEvent, eventCuts.
  destruct (ConfEvtSelectZvtx (conf st)); simpl.
  - destruct (fgt (fabs (col.posZ c)) (ConfEvtZvtx (conf st))) eqn:T.
    + split; [discriminate|]. intros [[H|H] _]; [discriminate|].
      exfalso. exact (fgt_fle_contra _ _ T H).
    + assert (fle (fabs (col.posZ c)) (ConfEvtZvtx (conf st)) = true) as L
        by (apply fgt_false_fle; rewrite ?is_nan_fabs; assumption).
      destruct (ConfEvtOfflineCheck (conf st)); simpl.
      * destruct (col.sel8 c); simpl; split; auto; intros [_ [H|H]]; discriminate.
      * split; auto.
  - destruct (ConfEvtOfflineCheck (conf st)); simpl.
    + destruct (col.sel8 c); simpl; split; auto; intros [_ [H|H]]; discriminate.
    + split; auto.
Qed.

Section Process2.

Variable aleph : double -> double -> double -> double -> double -> double -> double.

Lemma reloadBB_off ccdb c st :
  ConfUseManualPIDproton (conf st) || ConfUseManualPIDdeuteron (conf st) = false ->
  reloadBB ccdb c st = Done tt st.
Proof.
  intros H. unfold reloadBB, bind, this, when. rewrite H. reflexivity.
Qed.

Lemma reloadBB_same_run ccdb c st :
  ConfUseManualPIDproton (conf st) || ConfUseManualPIDdeuteron (conf st) = true ->
  col.bc_runNumber c = lastRunNumber st ->
  reloadBB ccdb c st = Done tt (set_currentRunNumber (col.bc_runNumber c) st).
Proof.
  intros H Hr. unfold reloadBB, bind, this, when, modify. rewrite H.
  destruct st; simpl in *. subst. rewrite Z.eqb_refl. reflexivity.
Qed.

Lemma bind_done {S A B} (m : Task S A) (k : A -> Task S B) st a st1 :
  m st = Done a st1 -> bind m k st = k a st1.
Proof. intros H. unfold bind. rewrite H. reflexivity. Qed.

Lemma process_frame ccdb c tracks st :
  let st' := outcome_state (process aleph ccdb c tracks st) in
  constantsOf st' = constantsOf st /\
  (ConfUseManualPIDproton (conf st) || ConfUseManualPIDdeuteron (conf st) = false ->
   runNumbersOf st' = runNumbersOf st /\ betheBlochOf st' = betheBlochOf st /\
   ccdbApi st' = ccdbApi st) /\
  (col.bc_runNumber c = lastRunNumber st ->
   lastRunNumber st' = lastRunNumber st /\ betheBlochOf st' = betheBlochOf st /\
   ccdbApi st' = ccdbApi st).
Proof.
  cbv zeta. split.
  { exact (ensures_outcome _ _ _ st (process_keeps_constants aleph ccdb c tracks)). }
  assert (forall st1, betheBlochOf (outcome_state (processEvent aleph c tracks st1))
                      = betheBlochOf st1) as Hbb.
  { intros st1. apply (ensures_outcome (keeps betheBlochOf) anyAbort).
    apply processEvent_keeps; field_frame. }
  assert (forall st1, runNumbersOf (outcome_state (processEvent aleph c tracks st1))
                      = runNumbersOf st1) as Hrn.
  { intros st1. apply (ensures_outcome (keeps runNumbersOf) anyAbort).
    apply processEvent_keeps; field_frame. }
  assert (forall st1, ccdbApi (outcome_state (processEvent aleph c tracks st1))
                      = ccdbApi st1) as Hcc.
  { intros st1. apply (ensures_outcome (keeps ccdbApi) anyAbort).
    apply processEvent_keeps; field_frame. }
  destruct (ConfIsRun3 (conf st)) eqn:R3.
  2:{ rewrite (process_run2 aleph ccdb c tracks st R3). simpl. auto. }
  rewrite (process_run3 aleph ccdb c tracks st R3).
  destruct (ConfUseManualPIDproton (conf st) || ConfUseManualPIDdeuteron (conf st)) eqn:M.
  - split; [discriminate|]. intros Hr.
    rewrite (bind_done _ _ _ _ _ (reloadBB_same_run ccdb c st M Hr)).
    rewrite Hbb, Hcc.
    specialize (Hrn (set_currentRunNumber (col.bc_runNumber c) st)).
    unfold runNumbersOf in Hrn. injection Hrn as _ ->.
    destruct st; simpl. auto.
  - rewrite (bind_done _ _ _ _ _ (reloadBB_off ccdb c st M)).
    rewrite Hbb, Hcc, Hrn.
    split; [intros _|intros _]; repeat split.
    specialize (Hrn st). unfold runNumbersOf in Hrn. congruence.
Qed.

(** C5, amended: [process] never changes the configurables or the mass
    constants; with both manual-PID switches off it changes neither the
    run-number cache nor the Bethe-Bloch vectors nor the CCDB handle; and for
    a collision of the run recorded in lastRunNumber it changes neither
    lastRunNumber nor the Bethe-Bloch vectors nor the CCDB handle. *)
Theorem C5_process_frame ccdb c tracks st :
  let st' := outcome_state (process aleph ccdb c tracks st) in
  constantsOf st' = constantsOf st /\
  (ConfUseManualPIDproton (conf st) || ConfUseManualPIDdeuteron (conf st) = false ->
   runNumbersOf st' = runNumbersOf st /\ betheBlochOf st' = betheBlochOf st /\
   ccdbApi st' = ccdbApi st) /\
  (col.bc_runNumber c = lastRunNumber st ->
   lastRunNumber st' = lastRunNumber st /\ betheBlochOf st' = betheBlochOf st /\
   ccdbApi st' = ccdbApi st).
Proof. exact (process_frame ccdb c tracks st). Qed.

Lemma app_one_neq {A} (l : list A) (x : A) : l <> (l ++ [x])%list.
Proof.
  intros H. apply (f_equal (@List.length A)) in H. rewrite length_app in H. simpl in H. lia.
Qed.

Lemma processEvent_selection c tracks st1 :
  exists st3,
    processEvent aleph c tracks st1
    = when (isSelectedEvent st1 c)
        (appendCollision c ;;
         fill "EventCuts/fMultiplicityAfter" [HInt (col.multNTracksPV c)] ;;
         fill "EventCuts/fZvtxAfter" [HFloat (col.posZ c)] ;;
         forEach tracks (processTrack aleph)) st3 /\
    conf st3 = conf st1 /\
    outputCollision st3 = outputCollision st1 /\
    outputParts st3 = outputParts st1.
Proof.
  eexists. split.
  - unfold processEvent. unfold bind at 1 2 3. unfold fill at 1 2. unfold modify.
    unfold call, lift.
    rewrite (isSelectedEvent_conf st1 _ c) by (destruct st1; reflexivity).
    reflexivity.
  - destruct st1; simpl; auto.
Qed.

(** C7, amended: with ConfIsRun3 true, for a collision whose posZ is a
    number and a numeric ConfEvtZvtx, exactly the one collision row is
    appended if and only if the event passes the cuts, and a rejected event
    appends nothing to either output table. *)
Theorem C7_collision_row ccdb st c tracks :
  ConfIsRun3 (conf st) = true ->
  is_nan (col.posZ c) = false ->
  is_nan (ConfEvtZvtx (conf st)) = false ->
  process_appends_spec aleph ccdb st c tracks.
Proof.
  intros R3 Nz Nc. unfold process_appends_spec. cbv zeta.
  rewrite (process_run3 aleph ccdb c tracks st R3).
  destruct (ensures_done (keeps (fun s => (conf s, outputCollision s, outputParts s)))
              (reloadBB ccdb c) st) as ([] & st1 & Hre & Hk).
  { apply reloadBB_keeps; field_frame. }
  rewrite (bind_done _ _ _ _ _ Hre).
  unfold keeps in Hk.
  assert (conf st1 = conf st) as Hconf by exact (f_equal (fun t => fst (fst t)) Hk).
  assert (outputCollision st1 = outputCollision st) as Hoc
    by exact (f_equal (fun t => snd (fst t)) Hk).
  assert (outputParts st1 = outputParts st) as Hop by exact (f_equal snd Hk).
  clear Hk Hre.
  destruct (processEvent_selection c tracks st1) as (st3 & -> & Hconf3 & Hoc3 & Hop3).
  rewrite Hconf in Hconf3. rewrite Hoc in Hoc3. rewrite Hop in Hop3.
  rewrite (isSelectedEvent_conf st st1 c Hconf).
  pose proof (isSelectedEvent_iff st c Nz Nc) as Hiff.
  destruct (isSelectedEvent st c) eqn:Sel; unfold when.
  - assert (eventCuts (conf st) c) as Hc by (apply Hiff; reflexivity).
    rewrite (bind_done _ _ st3 tt
               (set_outputCollision (outputCollision st3 ++ [collisionRowOf c]) st3))
      by reflexivity.
    match goal with |- context [outcome_state (?m ?s)] =>
      pose proof (ensures_outcome (keeps outputCollision) anyAbort m s) as Hk end.
    unfold keeps in Hk. rewrite Hk.
    2:{ repeat first [ keeps_step outputCollision anyAbort
                     | apply fill_keeps; field_frame
                     | apply processTrack_keeps; field_frame ]. }
    assert (outputCollision
              (set_outputCollision (outputCollision st3 ++ [collisionRowOf c]) st3)
            = (outputCollision st ++ [collisionRowOf c])%list) as ->
      by (rewrite <- Hoc3; destruct st3; reflexivity).
    split; [tauto|]. intros Hn. contradiction.
  - assert (~ eventCuts (conf st) c) as Hc by (intros Hc; apply Hiff in Hc; discriminate).
    unfold ret. cbn [outcome_state]. rewrite Hoc3, Hop3.
    split; [|auto]. split; [|tauto]. intros H. exfalso. exact (app_one_neq _ _ H).
Qed.

End Process2.

(* ===================================================================== *)
(** * Bounds of the Bethe-Bloch vectors (C8) and the PID cuts (C2) *)
(* ===================================================================== *)

Lemma res_allowed_rbind {A B} (E : Abort -> Prop) (r : Res A) (k : A -> Res B) :
  res_allowed E r -> (forall a, res_allowed E (k a)) -> res_allowed E (rbind r k).
Proof. intros Hr Hk. destruct r; simpl in *; auto. Qed.

Lemma la_at_safe a y x : res_allowed noVectorOverrun (la_at a y x).
Proof. unfold la_at. destruct (nth_error _ _); simpl; [exact I | discriminate]. Qed.

Lemma get_ii_safe a y x : res_allowed noVectorOverrun (get_ii a y x).
Proof. apply la_at_safe. Qed.

Lemma get_is_safe a y x : res_allowed noVectorOverrun (get_is a y x).
Proof. unfold get_is. destruct (label_index _ _); [apply la_at_safe | simpl; discriminate]. Qed.

Lemma get_si_safe a y x : res_allowed noVectorOverrun (get_si a y x).
Proof. unfold get_si. destruct (label_index _ _); [apply la_at_safe | simpl; discriminate]. Qed.

Lemma get_ss_safe a y x : res_allowed noVectorOverrun (get_ss a y x).
Proof.
  unfold get_ss. destruct (label_index _ y); [|simpl; discriminate].
  destruct (label_index _ x); [apply la_at_safe | simpl; discriminate].
Qed.

Lemma vec_at_in_range (v : list double) (i : nat) :
  (i < List.length v)%nat -> exists x, vec_at v i = Ok x.
Proof.
  intros H. unfold vec_at. destruct (nth_error v i) eqn:E; eauto.
  apply nth_error_None in E. lia.
Qed.

Ltac safe_step :=
  lazymatch goal with
  | |- res_allowed _ (rbind _ _) => apply res_allowed_rbind; [ | intros ]
  | |- res_allowed _ (Ok _) => exact I
  | |- res_allowed _ (Fatal _) => simpl; discriminate
  | |- res_allowed _ (get_ii _ _ _) => apply get_ii_safe
  | |- res_allowed _ (get_is _ _ _) => apply get_is_safe
  | |- res_allowed _ (get_si _ _ _) => apply get_si_safe
  | |- res_allowed _ (get_ss _ _ _) => apply get_ss_safe
  | |- res_allowed _ (if ?b then _ else _) => destruct b eqn:?
  | |- res_allowed _ (match ?s with kProton => _ | _ => _ end) => destruct s
  | |- res_allowed _ (match ?s with kDaughPion => _ | _ => _ end) => destruct s
  | |- res_allowed _ (let _ := _ in _) => cbv zeta
  end.

Section Safety.

Variable aleph : double -> double -> double -> double -> double -> double -> double.

Lemma updatePID_six trk bg BB :
  List.length BB = 6%nat -> exists v, updatePID aleph trk bg BB = Ok v.
Proof.
  intros H. destruct BB as [|b0 [|b1 [|b2 [|b3 [|b4 [|b5 [|]]]]]]]; try discriminate.
  eexists. reflexivity.
Qed.

Lemma updatePID_guarded trk bg BB (g : bool) :
  (List.length BB =? 6)%nat && g = true ->
  res_allowed noVectorOverrun (updatePID aleph trk bg BB).
Proof.
  intros H. apply andb_prop in H. destruct H as [H _]. apply Nat.eqb_eq in H.
  destruct (updatePID_six trk bg BB H) as [v ->]. exact I.
Qed.

Lemma updatePID_guarded' trk bg BB :
  (List.length BB =? 6)%nat = true ->
  res_allowed noVectorOverrun (updatePID aleph trk bg BB).
Proof.
  intros H. apply Nat.eqb_eq in H.
  destruct (updatePID_six trk bg BB H) as [v ->]. exact I.
Qed.

Lemma isSelectedTrack_safe st trk s : res_allowed noVectorOverrun (isSelectedTrack st trk s).
Proof. unfold isSelectedTrack. repeat safe_step. Qed.

Lemma nTPCSigma_safe st trk : res_allowed noVectorOverrun (nTPCSigma aleph st trk).
Proof.
  unfold nTPCSigma.
  repeat first [ safe_step | apply updatePID_guarded'; assumption ].
Qed.

Lemma rejectedAsOther_safe st trk nsig charge :
  res_allowed noVectorOverrun (rejectedAsOther aleph st trk nsig charge).
Proof.
  unfold rejectedAsOther, rejectionNSigmaPi, rejectionNSigmaEl, withinRejection.
  repeat first [ safe_step | eapply updatePID_guarded; eassumption ].
Qed.

Lemma isSelectedTrackPID_safe st trk s rej nsig charge :
  res_allowed noVectorOverrun (isSelectedTrackPID aleph st trk s rej nsig charge).
Proof.
  unfold isSelectedTrackPID, momentumBelowThreshold, pidNSigma, pidCut.
  repeat first [ safe_step | apply rejectedAsOther_safe ].
Qed.

End Safety.

Lemma anyState_refl {S} : forall s : S, anyState s s.
Proof. intros; exact I. Qed.

Lemma anyState_trans {S} : forall a b c : S, anyState a b -> anyState b c -> anyState a c.
Proof. intros; exact I. Qed.

Lemma modify_safe {S} (E : Abort -> Prop) (g : S -> S) : ensures anyState E (modify g).
Proof. intros st. exact I. Qed.

Ltac safe_task_step :=
  lazymatch goal with
  | |- ensures _ _ (bind _ _) =>
      apply (ensures_bind anyState noVectorOverrun anyState_trans); [ | intros ]
  | |- ensures _ _ (ret _) => apply (ensures_ret anyState noVectorOverrun anyState_refl)
  | |- ensures _ _ this => apply (ensures_this anyState noVectorOverrun anyState_refl)
  | |- ensures _ _ (when _ _) => apply (ensures_when anyState noVectorOverrun anyState_refl)
  | |- ensures _ _ (if _ then _ else _) => apply (ensures_if anyState noVectorOverrun)
  | |- ensures _ _ (call _) =>
      apply (ensures_call anyState noVectorOverrun anyState_refl); intros
  | |- ensures _ _ (forEach _ _) =>
      apply (ensures_forEach anyState noVectorOverrun anyState_refl anyState_trans); intros
  | |- ensures _ _ (fatal _) =>
      apply (ensures_fatal anyState noVectorOverrun anyState_refl); discriminate
  | |- ensures _ _ (modify _) => apply modify_safe
  | |- ensures _ _ (fill _ _) => apply modify_safe
  | |- ensures _ _ (appendParticle _ _) => apply modify_safe
  | |- ensures _ _ (appendCollision _) => apply modify_safe
  | |- ensures _ _ (let _ := _ in _) => cbv zeta
  | |- ensures _ _ (match ?x with Some _ => _ | None => _ end) => destruct x
  end.

Section Safety2.

Variable aleph : double -> double -> double -> double -> double -> double -> double.

Lemma process_safe ccdb c tracks :
  ensures anyState noVectorOverrun (process aleph ccdb c tracks).
Proof.
  unfold process, reloadBB, reloadVectors, fetchPair, setValuesBB, processEvent, processTrack, fillSelected,
    fillCombined.
  repeat first [ safe_task_step
               | apply isSelectedTrack_safe | apply isSelectedTrackPID_safe
               | apply nTPCSigma_safe | apply get_ss_safe | exact I ].
Qed.

(** C8: [updatePID] returns a value on every vector of six entries, and
    neither the nSigma computation of the track loop, nor [isSelectedTrackPID],
    nor a whole call of [process] ever reads a vector outside its bounds:
    every call of [updatePID] is behind the test that its vector has six
    entries. *)
Theorem C8_updatePID_in_bounds :
  (forall trk bg BB, List.length BB = 6%nat -> exists v, updatePID aleph trk bg BB = Ok v) /\
  (forall st trk, nTPCSigma aleph st trk <> OutOfRange VectorAccess) /\
  (forall st trk s rej nsig charge,
      isSelectedTrackPID aleph st trk s rej nsig charge <> OutOfRange VectorAccess) /\
  (forall ccdb c tracks st st',
      process aleph ccdb c tracks st <> Aborted (AbortOutOfRange VectorAccess) st').
Proof.
  repeat split.
  - apply updatePID_six.
  - intros st trk H. pose proof (nTPCSigma_safe aleph st trk) as S. rewrite H in S.
    apply S. reflexivity.
  - intros st trk s rej nsig charge H.
    pose proof (isSelectedTrackPID_safe aleph st trk s rej nsig charge) as S.
    rewrite H in S. apply S. reflexivity.
  - intros ccdb c tracks st st' H.
    pose proof (process_safe ccdb c tracks st) as S. rewrite H in S.
    destruct S as [_ S]. apply S. reflexivity.
Qed.

End Safety2.

Section C2.

Variable aleph : double -> double -> double -> double -> double -> double -> double.

Lemma pidCut_cutsFor st s charge limit :
  pidCut st s charge limit
  = get_ii (cutsFor (conf st) charge) (speciesIndex s) (limitIndex limit).
Proof. unfold pidCut, cutsFor. destruct (charge >? 0); reflexivity. Qed.

Lemma fle_fgt_numeric (a b : spec_float) :
  is_nan a = false -> is_nan b = false -> fle a b = negb (fgt a b).
Proof.
  intros Ha Hb. destruct (fgt a b) eqn:G; cbn [negb].
  - destruct (fle a b) eqn:L; [| reflexivity].
    exfalso. exact (fgt_fle_contra a b G L).
  - apply fgt_false_fle; assumption.
Qed.

Lemma pidNSigma_stored st trk s nSigmaTPC charge avgTPC avgTOF (pThres : bool) :
  s = kProton \/ s = kDeuteron ->
  get_ss (ConfPIDTPCTOFAvg (conf st)) (avgRow s charge) "TPC Avg" = Ok avgTPC ->
  get_ss (ConfPIDTPCTOFAvg (conf st)) (avgRow s charge) "TOF Avg" = Ok avgTOF ->
  pidNSigma st trk s pThres nSigmaTPC charge
  = Ok (if pThres then f32_of_f64 (speciesTPC s nSigmaTPC)
        else storedCombinedValue (speciesTPC s nSigmaTPC) avgTPC (speciesTOF s trk) avgTOF).
Proof.
  intros [-> | ->] Ha1 Ha2; cbn [avgRow speciesTPC speciesTOF] in *;
    unfold pidNSigma; destruct pThres; try reflexivity;
    rewrite Ha1, Ha2; reflexivity.
Qed.

Lemma momentumBelowThreshold_numeric st trk s pThresCut :
  s = kProton \/ s = kDeuteron ->
  get_is (ConfPtCuts (conf st)) (speciesIndex s) "P thres" = Ok pThresCut ->
  numericMomentum (conf st) trk s pThresCut ->
  momentumBelowThreshold st trk s
  = Ok (negb (fgt (thresholdMomentum (conf st) trk s) pThresCut)).
Proof.
  intros Hs Hp [Nm Np]. unfold momentumBelowThreshold.
  destruct Hs as [-> | ->]; cbn [thresholdMomentum] in *; rewrite Hp; cbn [rbind].
  - rewrite fle_fgt_numeric by assumption. reflexivity.
  - destruct (ConfDeuteronThPVMom (conf st)); rewrite ?Hp; cbn [rbind];
      rewrite fle_fgt_numeric by assumption; reflexivity.
Qed.

(** C2, amended: for Proton or Deuteron with Rejection off, the thresholds
    and averages of the species at hand (the cuts from [ConfPIDCuts] for a
    positive charge and from [ConfPIDCutsAnti] otherwise) and a numeric
    momentum and threshold, [isSelectedTrackPID] returns, and it accepts if
    and only if: when the momentum does not exceed "P thres", the TPC nSigma
    narrowed to [float] lies strictly between TPC min and TPC max; otherwise
    the combined value, with its TOF difference taken in single precision
    and the result narrowed to [float], lies strictly below TPCTOF max. *)
Theorem C2_isSelectedTrackPID_iff (st : CFFilterQA) (trk : Track) (s : ParticleSpecies)
    (nSigmaTPC : double * double) (charge : Z)
    (pThresCut TPCmin TPCmax TPCTOFmax avgTPC avgTOF : float) :
  s = kProton \/ s = kDeuteron ->
  configuredPID (conf st) s charge pThresCut TPCmin TPCmax TPCTOFmax avgTPC avgTOF ->
  numericMomentum (conf st) trk s pThresCut ->
  exists b,
    isSelectedTrackPID aleph st trk s false nSigmaTPC charge = Ok b /\
    (b = true <->
     pidAcceptsStored (conf st) trk s nSigmaTPC pThresCut TPCmin TPCmax TPCTOFmax
       avgTPC avgTOF).
Proof.
  intros Hs (Hp & Hmin & Hmax & Htof & Ha1 & Ha2) Hn.
  unfold isSelectedTrackPID.
  rewrite (momentumBelowThreshold_numeric st trk s pThresCut Hs Hp Hn). cbn [rbind].
  rewrite (pidNSigma_stored st trk s nSigmaTPC charge avgTPC avgTOF _ Hs Ha1 Ha2).
  cbn [rbind].
  rewrite !pidCut_cutsFor, Hmin, Hmax, Htof. cbn [rbind].
  eexists. split; [reflexivity |].
  unfold pidAcceptsStored.
  destruct (fgt (thresholdMomentum (conf st) trk s) pThresCut); cbn [negb].
  - split.
    + intros H. split; [discriminate | intros _; exact H].
    + intros [_ H]. exact (H eq_refl).
  - unfold fgt at 1. rewrite andb_true_iff. split.
    + intros H. split; [intros _; exact H | discriminate].
    + intros [H _]. exact (H eq_refl).
Qed.

End C2.

(* ===================================================================== *)
(** * What the predicates depend on (C6) *)
(* ===================================================================== *)

Lemma isSelectedTrack_conf st1 st2 trk s :
  conf st1 = conf st2 -> isSelectedTrack st1 trk s = isSelectedTrack st2 trk s.
Proof. intros H. unfold isSelectedTrack. rewrite H. reflexivity. Qed.

Lemma isSelectedV0Daughter_conf st1 st2 trk charge s n :
  conf st1 = conf st2 ->
  isSelectedV0Daughter st1 trk charge s n = isSelectedV0Daughter st2 trk charge s n.
Proof. intros H. unfold isSelectedV0Daughter. rewrite H. reflexivity. Qed.

Section Stateless.

Variable aleph : AlephFn.

Lemma isSelectedTrackPID_no_rejection st1 st2 trk s n charge :
  conf st1 = conf st2 ->
  isSelectedTrackPID aleph st1 trk s false n charge
  = isSelectedTrackPID aleph st2 trk s false n charge.
Proof.
  intros H. unfold isSelectedTrackPID, momentumBelowThreshold, pidNSigma, pidCut.
  rewrite H. reflexivity.
Qed.

Lemma isSelectedTrackPID_rejection st1 st2 trk s rej n charge :
  conf st1 = conf st2 ->
  rejectionInputsOf st1 = rejectionInputsOf st2 ->
  isSelectedTrackPID aleph st1 trk s rej n charge
  = isSelectedTrackPID aleph st2 trk s rej n charge.
Proof.
  intros H Hr. unfold rejectionInputsOf in Hr.
  injection Hr as H1 H2 H3 H4 H5 H6.
  unfold isSelectedTrackPID, momentumBelowThreshold, pidNSigma, pidCut,
    rejectedAsOther, rejectionNSigmaPi, rejectionNSigmaEl, withinRejection.
  rewrite H, H1, H2, H3, H4, H5, H6. reflexivity.
Qed.

(** C6, amended: with the configuration fixed, [isSelectedTrack],
    [isSelectedV0Daughter] and [isSelectedTrackPID] without Rejection depend
    on their arguments only; [isSelectedTrackPID] with Rejection depends, in
    addition, on the pion and electron masses and Bethe-Bloch vectors held by
    the task, and on nothing else. *)
Theorem C6_predicates_state_dependence :
  (forall st1 st2 trk s,
      conf st1 = conf st2 -> isSelectedTrack st1 trk s = isSelectedTrack st2 trk s) /\
  (forall st1 st2 trk charge s nSigmaTPCDaug,
      conf st1 = conf st2 ->
      isSelectedV0Daughter st1 trk charge s nSigmaTPCDaug
      = isSelectedV0Daughter st2 trk charge s nSigmaTPCDaug) /\
  (forall st1 st2 trk s nSigmaTPC charge,
      conf st1 = conf st2 ->
      isSelectedTrackPID aleph st1 trk s false nSigmaTPC charge
      = isSelectedTrackPID aleph st2 trk s false nSigmaTPC charge) /\
  (forall st1 st2 trk s nSigmaTPC charge,
      conf st1 = conf st2 ->
      rejectionInputsOf st1 = rejectionInputsOf st2 ->
      isSelectedTrackPID aleph st1 trk s true nSigmaTPC charge
      = isSelectedTrackPID aleph st2 trk s true nSigmaTPC charge).
Proof.
  repeat split; intros.
  - apply isSelectedTrack_conf; assumption.
  - apply isSelectedV0Daughter_conf; assumption.
  - apply isSelectedTrackPID_no_rejection; assumption.
  - apply isSelectedTrackPID_rejection; assumption.
Qed.

(** With a zero resolution the corrected nSigma is infinite or NaN, whatever
    the Bethe-Bloch function returns. *)
Lemma updatePID_zero_resolution trk bg b0 b1 b2 b3 b4 :
  exists v, updatePID aleph trk bg [b0; b1; b2; b3; b4; f64_zero] = Ok v /\
            (v = S754_nan \/ exists sg, v = S754_infinity sg).
Proof.
  unfold updatePID. cbn [vec_at nth_error rbind].
  set (e := aleph _ b0 b1 b2 b3 b4).
  set (n := f64_sub _ e).
  eexists. split; [reflexivity|].
  assert (f64_mul e f64_zero = S754_nan \/ exists sg, f64_mul e f64_zero = S754_zero sg) as [-> | [sg ->]].
  { destruct e; simpl; eauto. }
  - left. destruct n; reflexivity.
  - destruct n; simpl; eauto.
Qed.

Lemma loaded_task_accepts :
  isSelectedTrackPID aleph pionTaskLoaded goodTrack kDeuteron true
    (f64_of_int 10, f64_zero) 1 = Ok true.
Proof.
  unfold isSelectedTrackPID.
  replace (momentumBelowThreshold pionTaskLoaded goodTrack kDeuteron) with (Ok true)
    by (vm_compute; reflexivity).
  cbn [rbind].
  replace (pidNSigma pionTaskLoaded goodTrack kDeuteron true (f64_of_int 10, f64_zero) 1)
    with (Ok (S754_zero false)) by (vm_compute; reflexivity).
  cbn [rbind].
  replace (pidCut pionTaskLoaded kDeuteron 1 kTPCMin) with (Ok (f32_of_int (-6)))
    by (vm_compute; reflexivity).
  replace (pidCut pionTaskLoaded kDeuteron 1 kTPCMax) with (Ok (f32_of_int 6))
    by (vm_compute; reflexivity).
  replace (pidCut pionTaskLoaded kDeuteron 1 kTPCTOF) with (Ok (f32_of_int 99))
    by (vm_compute; reflexivity).
  cbn [rbind].
  unfold rejectedAsOther.
  replace (rejectionNSigmaEl aleph pionTaskLoaded goodTrack 1) with (Ok (S754_zero false))
    by (vm_compute; reflexivity).
  unfold rejectionNSigmaPi.
  replace (ConfUseManualPIDpion (conf pionTaskLoaded)) with true by reflexivity.
  replace (BBPion pionTaskLoaded) with flatBB by reflexivity.
  replace (BBAntipion pionTaskLoaded) with (@nil double) by reflexivity.
  unfold flatBB.
  cbv zeta. cbn [List.length Nat.eqb andb Z.gtb Z.ltb Z.compare].
  destruct (updatePID_zero_resolution goodTrack
              (f64_of_f32 (f32_div (f32_of_int 1) (mMassPion pionTaskLoaded)))
              (f64_of_int 1) (f64_of_int 1) (f64_of_int 1) (f64_of_int 1) (f64_of_int 1))
    as (v & Hv & Hinf).
  rewrite Hv. cbn [rbind].
  replace (withinRejection pionTaskLoaded kRejProton (fst (f64_of_int 10, f64_zero)))
    with (Ok false) by (vm_compute; reflexivity).
  cbn [rbind].
  assert (withinRejection pionTaskLoaded kRejPion v = Ok false) as ->.
  { destruct Hinf as [-> | [[|] ->]]; vm_compute; reflexivity. }
  cbn [rbind].
  replace (withinRejection pionTaskLoaded kRejElectron (S754_zero false)) with (Ok false)
    by (vm_compute; reflexivity).
  vm_compute. reflexivity.
Qed.

End Stateless.

(** C6 as stated fails: the same deuteron candidate is rejected by a task
    whose pion vector is empty and accepted by one whose vector is loaded,
    whatever the Bethe-Bloch function. *)
Lemma C6_counterexample : ~ exists aleph, predicates_stateless_spec aleph.
Proof.
  intros [aleph H].
  destruct (H pionTask pionTaskLoaded eq_refl) as (_ & Hpid & _).
  specialize (Hpid goodTrack kDeuteron true (f64_of_int 10, f64_zero) 1).
  rewrite (loaded_task_accepts aleph) in Hpid.
  vm_compute in Hpid. discriminate.
Qed.

(* ===================================================================== *)
(** * A missing conditions object (C3) *)
(* ===================================================================== *)

Section MissingObject.

Variable aleph : AlephFn.

Lemma setValuesBB_run ccdb c path st :
  setValuesBB ccdb c path st
  = Done match ccdb path (col.bc_timestamp c) with
         | None => []
         | Some h => [h "bb1"; h "bb2"; h "bb3"; h "bb4"; h "bb5"; h "Resolution"]
         end
         (set_ccdbApi (ccdbApi st ++ [(path, col.bc_timestamp c)])%list st).
Proof.
  unfold setValuesBB, bind, modify. destruct (ccdb path (col.bc_timestamp c)); reflexivity.
Qed.

Lemma fetchPair_run ccdb c path antiPath set setAnti st :
  exists vec vec' st1 st2,
    fetchPair ccdb c path antiPath set setAnti st = Done tt (setAnti vec' st2) /\
    st2 = set_ccdbApi (ccdbApi st1 ++ [(antiPath, col.bc_timestamp c)])%list st1 /\
    st1 = set vec (set_ccdbApi (ccdbApi st ++ [(path, col.bc_timestamp c)])%list st) /\
    (ccdb path (col.bc_timestamp c) = None -> vec = []) /\
    (ccdb antiPath (col.bc_timestamp c) = None -> vec' = []).
Proof.
  unfold fetchPair. unfold bind at 1. rewrite setValuesBB_run.
  unfold bind at 1. unfold modify at 1. unfold bind at 1. rewrite setValuesBB_run.
  unfold modify.
  do 4 eexists. split; [reflexivity|]. split; [reflexivity|]. split; [reflexivity|].
  split; intros ->; reflexivity.
Qed.

(** After a reload in which the object for [v] is missing, [v] is empty. *)
Lemma reloadVectors_missing ccdb c cfg st v :
  vectorReloaded cfg v = true ->
  ccdb (vectorPath cfg v) (col.bc_timestamp c) = None ->
  exists st', reloadVectors ccdb c cfg st = Done tt st' /\
              vectorOf st' v = [] /\
              runNumbersOf st' = runNumbersOf st /\ constantsOf st' = constantsOf st.
Proof.
  intros Hre Hnone. unfold reloadVectors.
  (* the proton pair *)
  assert (exists s1, when (ConfUseManualPIDproton cfg || ConfUseManualPIDdaughterProton cfg)
                       (fetchPair ccdb c (ConfPIDBBProton cfg) (ConfPIDBBAntiProton cfg)
                                  set_BBProton set_BBAntiproton) st = Done tt s1 /\
                     (match v with vProton | vAntiproton => vectorOf s1 v = [] | _ => True end) /\
                     runNumbersOf s1 = runNumbersOf st /\ constantsOf s1 = constantsOf st)
    as (s1 & E1 & V1 & R1 & C1).
  { destruct (ConfUseManualPIDproton cfg || ConfUseManualPIDdaughterProton cfg) eqn:F; simpl.
    - destruct (fetchPair_run ccdb c (ConfPIDBBProton cfg) (ConfPIDBBAntiProton cfg)
                  set_BBProton set_BBAntiproton st)
        as (vec & vec' & st1 & st2 & -> & -> & -> & N1 & N2).
      eexists; split; [reflexivity|].
      destruct st; destruct v; simpl in *; repeat split; auto.
    - eexists; split; [reflexivity|]. destruct v; simpl in *; auto; congruence. }
  rewrite (bind_done _ _ _ _ _ E1).
  assert (exists s2, when (ConfUseManualPIDdeuteron cfg)
                       (fetchPair ccdb c (ConfPIDBBDeuteron cfg) (ConfPIDBBAntiDeuteron cfg)
                                  set_BBDeuteron set_BBAntideuteron) s1 = Done tt s2 /\
                     vectorOf s2 v = [] /\
                     runNumbersOf s2 = runNumbersOf st /\ constantsOf s2 = constantsOf st)
    as (s2 & E2 & V2 & R2 & C2).
  { destruct (ConfUseManualPIDdeuteron cfg) eqn:F; simpl.
    - destruct (fetchPair_run ccdb c (ConfPIDBBDeuteron cfg) (ConfPIDBBAntiDeuteron cfg)
                  set_BBDeuteron set_BBAntideuteron s1)
        as (vec & vec' & st1 & st2 & -> & -> & -> & N1 & N2).
      eexists; split; [reflexivity|].
      rewrite <- R1, <- C1.
      destruct s1; destruct v; simpl in *; repeat split; auto.
    - eexists; split; [reflexivity|]. destruct v; simpl in *; auto; congruence. }
  rewrite (bind_done _ _ _ _ _ E2).
  match goal with |- exists st', ?m s2 = _ /\ _ =>
    destruct (ensures_done (keeps (fun s => (vectorOf s v, runNumbersOf s, constantsOf s))) m s2)
      as ([] & s3 & E3 & K3) end.
  { unfold fetchPair.
    repeat first [ keeps_step (fun s => (vectorOf s v, runNumbersOf s, constantsOf s)) noAbort
                 | apply setValuesBB_keeps; field_frame
                 | apply modify_keeps; intros; destruct v; field_frame ]. }
  exists s3. split; [exact E3|]. unfold keeps in K3.
  pose proof (f_equal (fun t => fst (fst t)) K3) as K31.
  pose proof (f_equal (fun t => snd (fst t)) K3) as K32.
  pose proof (f_equal snd K3) as K33. simpl in K31, K32, K33.
  repeat split; congruence.
Qed.

Lemma reloadBB_missing ccdb c st v :
  ConfUseManualPIDproton (conf st) || ConfUseManualPIDdeuteron (conf st) = true ->
  col.bc_runNumber c <> lastRunNumber st ->
  vectorReloaded (conf st) v = true ->
  ccdb (vectorPath (conf st) v) (col.bc_timestamp c) = None ->
  exists st', reloadBB ccdb c st = Done tt st' /\
              vectorOf st' v = [] /\
              lastRunNumber st' = col.bc_runNumber c /\
              constantsOf st' = constantsOf st.
Proof.
  intros Hon Hrun Hre Hnone. unfold reloadBB.
  unfold bind at 1. unfold this at 1. rewrite Hon. unfold when at 1.
  unfold bind at 1. unfold modify at 1. unfold bind at 1. unfold this at 1.
  set (st1 := set_currentRunNumber (col.bc_runNumber c) st).
  assert (currentRunNumber st1 = col.bc_runNumber c) as Hc1 by (destruct st; reflexivity).
  assert (lastRunNumber st1 = lastRunNumber st) as Hl1 by (destruct st; reflexivity).
  assert (constantsOf st1 = constantsOf st) as Hk1 by (destruct st; reflexivity).
  assert (conf st1 = conf st) as Hcf1 by (destruct st; reflexivity).
  clearbody st1.
  rewrite Hc1, Hl1. 
  destruct (col.bc_runNumber c =? lastRunNumber st) eqn:Heq;
    [apply Z.eqb_eq in Heq; contradiction|].
  unfold when at 1. cbn [negb].
  rewrite <- Hcf1 in Hre, Hnone.
  destruct (reloadVectors_missing ccdb c (conf st1) st1 v Hre Hnone)
    as (st2 & E2 & V2 & R2 & C2).
  rewrite (bind_done _ _ _ _ _ E2).
  unfold bind, this, modify.
  exists (set_lastRunNumber (currentRunNumber st2) st2). split; [reflexivity|].
  assert (vectorOf (set_lastRunNumber (currentRunNumber st2) st2) v = vectorOf st2 v) as ->
    by (destruct st2, v; reflexivity).
  assert (lastRunNumber (set_lastRunNumber (currentRunNumber st2) st2) = currentRunNumber st2)
    as -> by (destruct st2; reflexivity).
  assert (constantsOf (set_lastRunNumber (currentRunNumber st2) st2) = constantsOf st2) as ->
    by (destruct st2; reflexivity).
  pose proof (f_equal fst R2) as R21. simpl in R21.
  repeat split; congruence.
Qed.

Lemma reloadBB_no_reload ccdb c st :
  col.bc_runNumber c = lastRunNumber st ->
  betheBlochOf (stateAtTrackLoop ccdb c st) = betheBlochOf st /\
  constantsOf (stateAtTrackLoop ccdb c st) = constantsOf st /\
  lastRunNumber (stateAtTrackLoop ccdb c st) = lastRunNumber st.
Proof.
  intros Hr. unfold stateAtTrackLoop.
  destruct (ConfUseManualPIDproton (conf st) || ConfUseManualPIDdeuteron (conf st)) eqn:M.
  - rewrite (reloadBB_same_run ccdb c st M Hr). destruct st; simpl; auto.
  - rewrite (reloadBB_off ccdb c st M). simpl; auto.
Qed.

Lemma vectorOf_betheBloch st1 st2 v :
  betheBlochOf st1 = betheBlochOf st2 -> vectorOf st1 v = vectorOf st2 v.
Proof.
  unfold betheBlochOf. intros H. injection H as H1 H2 H3 H4 H5 H6 H7 H8.
  destruct v; simpl; assumption.
Qed.

Ltac nominal_step :=
  match goal with
  | |- context [if ?b then _ else _] => destruct b eqn:?
  | H : (List.length ?BB =? 6)%nat = true
    |- context [updatePID ?aleph ?trk ?bg ?BB] =>
      let x := fresh "x" in
      let Hx := fresh "Hx" in
      destruct (updatePID_six aleph trk bg BB (proj1 (Nat.eqb_eq _ _) H)) as [x Hx];
      rewrite Hx
  end.

Lemma nTPCSigma_nominal st v :
  List.length (vectorOf st v) <> 6%nat -> usesNominal aleph st v.
Proof.
  intros Hlen trk. unfold nTPCSigma.
  assert ((List.length (vectorOf st v) =? 6)%nat = false) as Hb
    by (apply Nat.eqb_neq; exact Hlen).
  destruct v; cbn [vectorOf] in Hb; rewrite ?Hb;
    repeat nominal_step; cbn [rbind fst snd]; eexists; (split; [reflexivity|]); reflexivity.
Qed.

Lemma processAll_same_run ccdb evs :
  forall st,
    Forall (fun ev => col.bc_runNumber (fst ev) = lastRunNumber st) evs ->
    let st' := outcome_state (processAll aleph ccdb evs st) in
    betheBlochOf st' = betheBlochOf st /\ lastRunNumber st' = lastRunNumber st.
Proof.
  induction evs as [|[c tracks] rest IH]; intros st Hall; cbv zeta.
  - simpl. auto.
  - inversion Hall as [|x l Hc Hrest]; subst. simpl in Hc.
    destruct (process_frame aleph ccdb c tracks st) as (_ & _ & Hsame).
    destruct (Hsame Hc) as (Hl & Hbb & _).
    cbn [processAll]. unfold bind.
    destruct (process aleph ccdb c tracks st) as [[] s1 | why s1]; simpl in Hl, Hbb.
    + rewrite <- Hl in Hrest. destruct (IH s1 Hrest) as (H1 & H2).
      split; congruence.
    + simpl. auto.
Qed.

(** C3, amended: when no object is found at the configured path,
    [setValuesBB] returns the empty vector, and the nominal nSigma is used
    for every track of this call and of every later call for a collision of
    the same run. *)
Theorem C3_missing_object ccdb st c tracks later c' v :
  Forall (sameRun c) later ->
  col.bc_runNumber c' = col.bc_runNumber c ->
  missing_object_spec aleph ccdb st c tracks later c' v.
Proof.
  intros Hlater Hc' R3 Hon Hrun Hre Hnone.
  split.
  { rewrite setValuesBB_run, Hnone. eexists; reflexivity. }
  destruct (reloadBB_missing ccdb c st v Hon Hrun Hre Hnone) as (sr & Er & Vr & Lr & Kr).
  split.
  { unfold stateAtTrackLoop. rewrite Er. cbn [outcome_state].
    apply nTPCSigma_nominal. rewrite Vr. discriminate. }
  apply nTPCSigma_nominal.
  assert (exists sK,
            outcome_state (processAll aleph ccdb ((c, tracks) :: later) st) = sK /\
            vectorOf sK v = [] /\ lastRunNumber sK = col.bc_runNumber c)
    as (sK & -> & VK & LK).
  { cbn [processAll]. unfold bind at 1.
    rewrite (process_run3 aleph ccdb c tracks st R3).
    rewrite (bind_done _ _ _ _ _ Er).
    pose proof (ensures_outcome (keeps betheBlochOf) anyAbort
                  (processEvent aleph c tracks) sr
                  (processEvent_keeps aleph betheBlochOf
                     ltac:(field_frame) ltac:(field_frame) c tracks ltac:(field_frame)))
      as Hbb.
    pose proof (ensures_outcome (keeps lastRunNumber) anyAbort
                  (processEvent aleph c tracks) sr
                  (processEvent_keeps aleph lastRunNumber
                     ltac:(field_frame) ltac:(field_frame) c tracks ltac:(field_frame)))
      as Hl.
    unfold keeps in Hbb, Hl.
    destruct (processEvent aleph c tracks sr) as [[] s1 | why s1]; cbn [outcome_state] in *.
    - eexists; split; [reflexivity|].
      assert (Forall (fun ev => col.bc_runNumber (fst ev) = lastRunNumber s1) later) as Hall.
      { rewrite Hl, Lr. exact Hlater. }
      destruct (processAll_same_run ccdb later s1 Hall) as (H1 & H2).
      split.
      + rewrite (vectorOf_betheBloch _ _ v H1), (vectorOf_betheBloch _ _ v Hbb). exact Vr.
      + congruence.
    - eexists; split; [reflexivity|]. split.
      + rewrite (vectorOf_betheBloch _ _ v Hbb). exact Vr.
      + congruence. }
  destruct (reloadBB_no_reload ccdb c' sK) as (Hb & _ & _); [congruence|].
  rewrite (vectorOf_betheBloch _ _ v Hb), VK. discriminate.
Qed.

End MissingObject.

(** C3 as stated fails: after a missing object in run 1, a collision of run
    2 reloads the proton vector, and its tracks get a corrected nSigma. *)
Lemma C3_counterexample :
  ~ exists aleph,
      missing_object_spec aleph sampleCCDB protonTask
        (sampleCollision f32_zero 1 1) [] [] (sampleCollision f32_zero 2 2) vProton.
Proof.
  intros [aleph H].
  destruct H as (_ & _ & H); try reflexivity; try discriminate.
  destruct (H goodTrack) as (nS & HnS & Hentry). clear H.
  match type of HnS with nTPCSigma _ ?s _ = _ =>
    let s' := eval vm_compute in s in change s with s' in HnS end.
  unfold nTPCSigma in HnS. cbn [conf ConfUseManualPIDproton ConfUseManualPIDdeuteron
    configWith BBProton BBAntiproton List.length Nat.eqb mMassProton] in HnS.
  cbv zeta in HnS.
  match type of HnS with context [updatePID aleph ?t ?bg [?b0; ?b1; ?b2; ?b3; ?b4; _]] =>
    destruct (updatePID_zero_resolution aleph t bg b0 b1 b2 b3 b4) as (x & Hx & Hinf) end.
  unfold f64_zero in Hx.
  rewrite Hx in HnS. cbn [rbind fst snd] in HnS.
  injection HnS as <-. cbn [entryOf fst snd] in Hentry.
  vm_compute in Hentry.
  destruct Hinf as [-> | [sg ->]]; discriminate.
Qed.

(** The missing object of run 1, on a sample task. *)
Lemma C3_witness :
  (exists st', setValuesBB sampleCCDB (sampleCollision f32_zero 1 1)
                 (vectorPath (conf protonTask) vProton) protonTask = Done [] st') /\
  usesNominal sampleAleph
    (stateAtTrackLoop sampleCCDB (sampleCollision f32_zero 1 1) protonTask) vProton /\
  usesNominal sampleAleph
    (stateAtTrackLoop sampleCCDB (sampleCollision f32_zero 1 1)
       (outcome_state
          (processAll sampleAleph sampleCCDB
             [(sampleCollision f32_zero 1 1, [goodTrack])] protonTask))) vProton.
Proof.
  apply (C3_missing_object sampleAleph sampleCCDB protonTask
           (sampleCollision f32_zero 1 1) [goodTrack] [] (sampleCollision f32_zero 1 1) vProton);
    try reflexivity; try discriminate.
  constructor.
Defined.

(* ===================================================================== *)
(** * Sample runs *)
(* ===================================================================== *)

(** A task configured for Run 2 aborts on a sample collision. *)
Lemma C4_witness :
  process sampleAleph sampleCCDB (sampleCollision f32_zero 1 1) [goodTrack] run2Task
  = Aborted (AbortFatal "Run 2 processing is not implemented!") run2Task.
Proof. apply C4_run2_aborts. reflexivity. Defined.

(** C5 as stated fails: a call of [process] for a new run fills the proton
    vector of a task with manual proton PID. *)
Lemma C5_counterexample :
  ~ exists aleph,
      process_frame_spec aleph sampleCCDB protonTask (sampleCollision f32_zero 1 2) [].
Proof.
  intros [aleph [_ H]]. vm_compute in H. discriminate H.
Qed.

(** The collision row of a sample collision. *)
Lemma C7_witness :
  process_appends_spec sampleAleph sampleCCDB sampleTask
    (sampleCollision f32_zero 1 1) [goodTrack].
Proof. apply C7_collision_row; reflexivity. Defined.

(** C7 as stated fails: a collision whose posZ is NaN gets its row. *)
Lemma C7_counterexample :
  ~ exists aleph,
      process_appends_spec aleph sampleCCDB sampleTask (sampleCollision S754_nan 1 1) [].
Proof.
  intros [aleph [[H _] _]].
  assert (eventCuts (conf sampleTask) (sampleCollision S754_nan 1 1)) as [[A | A] _]
    by (apply H; vm_compute; reflexivity);
    vm_compute in A; discriminate A.
Qed.

(** The PID cut on a sample track above the proton threshold: the combined
    value is the one compared. *)
Lemma C2_witness :
  exists b,
    isSelectedTrackPID sampleAleph sampleTask nearSixTrack kProton false
      (nominalNSigma nearSixTrack) 1 = Ok b /\
    (b = true <->
     pidAcceptsStored (conf sampleTask) nearSixTrack kProton (nominalNSigma nearSixTrack)
       (f32_dec 75 100) (f32_of_int (-6)) (f32_of_int 6) (f32_of_int 6)
       (f32_of_int 0) (f32_of_int 0)).
Proof.
  apply (C2_isSelectedTrackPID_iff sampleAleph sampleTask nearSixTrack kProton
           (nominalNSigma nearSixTrack) 1
           (f32_dec 75 100) (f32_of_int (-6)) (f32_of_int 6) (f32_of_int 6)
           (f32_of_int 0) (f32_of_int 0)).
  - left; reflexivity.
  - repeat split; reflexivity.
  - split; reflexivity.
Defined.

(** C2 as stated fails twice.  A track above the threshold whose combined
    value, 5.99999995, lies below the TPCTOF max of 6 is rejected: stored in
    the [float] local it is 6.  A track whose momentum is NaN does not exceed
    the threshold and its TPC nSigma of 0 lies between -6 and 6, yet it is
    rejected: the test [tpcInnerParam <= P thres] is false on NaN and the
    combined value, 10, is compared. *)
Lemma C2_counterexample :
  (isSelectedTrackPID sampleAleph sampleTask nearSixTrack kProton false
     (nominalNSigma nearSixTrack) 1 = Ok false /\
   ~ isSelectedTrackPID_spec sampleAleph sampleTask nearSixTrack kProton
       (nominalNSigma nearSixTrack) 1) /\
  (isSelectedTrackPID sampleAleph sampleTask nanMomentumTrack kProton false
     (nominalNSigma nanMomentumTrack) 1 = Ok false /\
   ~ isSelectedTrackPID_spec sampleAleph sampleTask nanMomentumTrack kProton
       (nominalNSigma nanMomentumTrack) 1).
Proof.
  split; split; try reflexivity.
  - intros (pThresCut & TPCmin & TPCmax & TPCTOFmax & avgTPC & avgTOF & b
            & (Hp & Hmin & Hmax & Htof & Ha1 & Ha2) & Hb & Hiff).
    vm_compute in Hp, Hmin, Hmax, Htof, Ha1, Ha2.
    injection Hp as <-. injection Hmin as <-. injection Hmax as <-.
    injection Htof as <-. injection Ha1 as <-. injection Ha2 as <-.
    vm_compute in Hb. injection Hb as <-.
    destruct Hiff as [_ Hiff].
    assert (false = true) as F; [| discriminate F].
    apply Hiff. split; intros H; vm_compute in H; try discriminate H.
    vm_compute. reflexivity.
  - intros (pThresCut & TPCmin & TPCmax & TPCTOFmax & avgTPC & avgTOF & b
            & (Hp & Hmin & Hmax & Htof & Ha1 & Ha2) & Hb & Hiff).
    vm_compute in Hp, Hmin, Hmax, Htof, Ha1, Ha2.
    injection Hp as <-. injection Hmin as <-. injection Hmax as <-.
    injection Htof as <-. injection Ha1 as <-. injection Ha2 as <-.
    vm_compute in Hb. injection Hb as <-.
    destruct Hiff as [_ Hiff].
    assert (false = true) as F; [| discriminate F].
    apply Hiff. split; intros H; vm_compute in H; try discriminate H.
    vm_compute. split; reflexivity.
Qed.

(* ===================================================================== *)
(** * ft0Task: channel numbering (C10) and amplitude sums (C9) *)
(* ===================================================================== *)

Module ft0Facts.
Import ft0Task.

Section RoundShape.

Variables prec emax : Z.

Lemma shr_exponent mrs e n : snd (shr mrs e n) = e + Z.max n 0.
Proof. unfold shr. destruct n; simpl; lia. Qed.

Lemma shr_fexp_exponent m e l :
  snd (shr_fexp prec emax m e l) = Z.max e (fexp prec emax (Zdigits2 m + e)).
Proof. unfold shr_fexp. rewrite shr_exponent. lia. Qed.

Lemma binary_round_aux_finite sx mx ex lx s' m' e' :
  binary_round_aux prec emax sx mx ex lx = S754_finite s' m' e' ->
  s' = sx /\ ex <= e' /\ fexp prec emax (Zdigits2 mx + ex) <= e'.
Proof.
  unfold binary_round_aux.
  pose proof (shr_fexp_exponent mx ex lx) as H1.
  destruct (shr_fexp prec emax mx ex lx) as [mrs1 e1]. simpl in H1.
  pose proof (shr_fexp_exponent
                (round_nearest_even (shr_m mrs1) (loc_of_shr_record mrs1)) e1 loc_Exact) as H2.
  destruct (shr_fexp prec emax
              (round_nearest_even (shr_m mrs1) (loc_of_shr_record mrs1)) e1 loc_Exact)
    as [mrs2 e2]. simpl in H2.
  destruct (shr_m mrs2); try discriminate.
  destruct (e2 <=? emax - prec); try discriminate.
  intros H. injection H as <- _ <-. split; [reflexivity | lia].
Qed.

Lemma binary_round_finite sx mx ex s' m' e' :
  binary_round prec emax sx mx ex = S754_finite s' m' e' ->
  s' = sx /\ fexp prec emax (Z.pos (digits2_pos mx) + ex) <= e'.
Proof.
  unfold binary_round, shl_align.
  destruct (fexp prec emax (Z.pos (digits2_pos mx) + ex) - ex) eqn:D; intros H;
    apply binary_round_aux_finite in H; simpl in H; destruct H as (Hs & He & Hf);
    split; auto; lia.
Qed.

End RoundShape.

Lemma digits2_pos_upper (q : positive) : Z.pos q < 2 ^ Z.pos (digits2_pos q).
Proof.
  induction q as [q IH | q IH |]; simpl digits2_pos.
  - rewrite Pos2Z.inj_succ, Z.pow_succ_r by lia. lia.
  - rewrite Pos2Z.inj_succ, Z.pow_succ_r by lia. lia.
  - reflexivity.
Qed.

Lemma digits2_pos_lower (q : positive) : 2 ^ (Z.pos (digits2_pos q) - 1) <= Z.pos q.
Proof.
  induction q as [q IH | q IH |]; simpl digits2_pos.
  - rewrite Pos2Z.inj_succ. replace (Z.succ (Z.pos (digits2_pos q)) - 1) with (Z.succ (Z.pos (digits2_pos q) - 1)) by lia.
    rewrite Z.pow_succ_r by lia. lia.
  - rewrite Pos2Z.inj_succ. replace (Z.succ (Z.pos (digits2_pos q)) - 1) with (Z.succ (Z.pos (digits2_pos q) - 1)) by lia.
    rewrite Z.pow_succ_r by lia. lia.
  - simpl. lia.
Qed.

Lemma digits2_pos_ge (q : positive) (k : Z) :
  0 <= k -> 2 ^ k <= Z.pos q -> k + 1 <= Z.pos (digits2_pos q).
Proof.
  intros Hk H. pose proof (digits2_pos_upper q) as U.
  assert (2 ^ k < 2 ^ Z.pos (digits2_pos q)) as L by lia.
  assert (k < Z.pos (digits2_pos q)); [| lia].
  apply (Z.pow_lt_mono_r_iff 2); [lia | lia | exact L].
Qed.

Lemma pos_iter_xO (m d : positive) : Z.pos (Pos.iter xO m d) = Z.pos m * 2 ^ Z.pos d.
Proof.
  revert m. induction d using Pos.peano_ind; intros m.
  - cbn [Pos.iter]. rewrite Pos2Z.inj_xO, Z.pow_1_r. ring.
  - rewrite Pos.iter_succ, Pos2Z.inj_xO, IHd, Pos2Z.inj_succ, Z.pow_succ_r by lia.
    generalize (2 ^ Z.pos d). intros z. ring.
Qed.

Lemma shl_align_value (m : positive) (e e' : Z) :
  e' <= e -> Z.pos (fst (shl_align m e e')) = Z.pos m * 2 ^ (e - e').
Proof.
  intros H. unfold shl_align. destruct (e' - e) eqn:D; cbn [fst].
  - replace (e - e') with 0 by lia. rewrite Z.pow_0_r. ring.
  - lia.
  - rewrite pos_iter_xO. replace (e - e') with (Z.pos p) by lia. reflexivity.
Qed.

Lemma noSignal_value : noSignal = S754_finite true 9765625 10.
Proof. vm_compute. reflexivity. Qed.

Lemma small_finite_shape sg m e :
  smallSum (S754_finite sg m e) ->
  Z.pos m < 2 ^ 24 /\ e <= 10 /\
  (e = 10 -> Z.pos m < 9765625 /\ 2 ^ 23 <= Z.pos m).
Proof.
  intros [V L].
  unfold valid_binary, bounded, canonical_mantissa, fexp, emin, prec32, emax32 in V.
  apply andb_true_iff in V. destruct V as [V _]. apply Z.eqb_eq in V.
  pose proof (digits2_pos_upper m) as U. pose proof (digits2_pos_lower m) as Lo.
  assert (Z.pos (digits2_pos m) <= 24) as D by lia.
  assert (Z.pos m < 2 ^ 24) as M.
  { eapply Z.lt_le_trans; [exact U |]. apply Z.pow_le_mono_r; lia. }
  change (f32_of_int 10000000000) with (S754_finite false 9765625 10) in L.
  unfold flt, fabs, SFltb in L. cbn [SFabs SFcompare] in L.
  destruct (e ?= 10) eqn:C.
  - apply Z.compare_eq in C. subst e. split; [exact M |]. split; [lia |]. intros _.
    split.
    + change (Pos.compare_cont Eq m 9765625) with (m ?= 9765625)%positive in L.
      destruct (m ?= 9765625)%positive eqn:P; try discriminate.
      exact P.
    + assert (Z.pos (digits2_pos m) = 24) as D24 by lia.
      rewrite D24 in Lo. exact Lo.
  - change (e < 10) in C. split; [exact M |]. split; [lia |]. intros ->. lia.
  - discriminate.
Qed.

(** Adding [-1e10] to a float of smaller magnitude never gives that float
    back. *)
Lemma shifted_sum_differs sg m e :
  smallSum (S754_finite sg m e) ->
  binary_normalize prec32 emax32
    (cond_Zopp sg (Z.pos m) - 9765625 * 2 ^ (10 - e)) e false
  <> S754_finite sg m e.
Proof.
  intros Hs. destruct (small_finite_shape _ _ _ Hs) as (M & E & E10).
  assert (2 ^ 23 * 2 ^ (10 - e) <= 9765625 * 2 ^ (10 - e)) as X23.
  { apply Z.mul_le_mono_nonneg_r; [apply Z.pow_nonneg; lia | lia]. }
  assert (2 ^ (33 - e) <= 9765625 * 2 ^ (10 - e)) as X33.
  { replace (33 - e) with (23 + (10 - e)) by lia. rewrite Z.pow_add_r by lia. exact X23. }
  assert (2 ^ 24 < 9765625 * 2 ^ (10 - e) \/ e = 10) as Big.
  { destruct (Z.eq_dec e 10) as [-> | Ne]; [right; reflexivity | left].
    assert (2 ^ 1 <= 2 ^ (10 - e)) by (apply Z.pow_le_mono_r; lia).
    change (2 ^ 1) with 2 in *. lia. }
  destruct sg; cbn [cond_Zopp].
  - (* both negative: the exponent of the sum is too large *)
    set (X := 9765625 * 2 ^ (10 - e)) in *.
    assert (0 < X) as Xpos.
    { assert (0 < 2 ^ (33 - e)) by (apply Z.pow_pos_nonneg; lia). lia. }
    destruct (Z.opp (Z.pos m) - X) as [| q | q] eqn:S; try lia.
    unfold binary_normalize. intros R.
    apply binary_round_finite in R. destruct R as [_ R].
    unfold fexp, emin, prec32, emax32 in R.
    assert (Z.pos q = Z.pos m + X) as Q by lia.
    destruct (Z.eq_dec e 10) as [-> | Ne].
    + destruct (E10 eq_refl) as [_ M23].
      assert (X = 9765625) as XV by (unfold X; reflexivity).
      assert (2 ^ 24 <= Z.pos q) as Q24 by (change (2 ^ 23) with 8388608 in M23; change (2 ^ 24) with 16777216; lia).
      apply digits2_pos_ge in Q24; lia.
    + assert (2 ^ (33 - e) <= Z.pos q) as Q33 by lia.
      apply digits2_pos_ge in Q33; lia.
  - (* opposite signs: the sum is negative *)
    set (X := 9765625 * 2 ^ (10 - e)) in *.
    assert (Z.pos m < X) as Lt.
    { destruct Big as [B | ->]; [lia |]. destruct (E10 eq_refl) as [M10 _].
      unfold X. change (2 ^ (10 - 10)) with 1. lia. }
    destruct (Z.pos m - X) as [| q | q] eqn:S; try lia.
    unfold binary_normalize. intros R.
    apply binary_round_finite in R. destruct R as [R _]. discriminate R.
Qed.

Lemma substituted_finite sg m e :
  substituted (S754_finite sg m e) = S754_finite sg m e.
Proof. unfold substituted. destruct sg; reflexivity. Qed.

Lemma sum_differs s :
  smallSum s ->
  f32_add noSignal (substituted s) <> f32_add f32_zero s /\
  f32_add (substituted s) noSignal <> f32_add s f32_zero.
Proof.
  intros Hs. destruct s as [sg | sg | | sg m e].
  - destruct sg; vm_compute; split; discriminate.
  - destruct Hs as [_ L]. destruct sg; discriminate L.
  - destruct Hs as [_ L]. discriminate L.
  - destruct (small_finite_shape _ _ _ Hs) as (_ & E & _).
    pose proof (shifted_sum_differs _ _ _ Hs) as D.
    rewrite substituted_finite, noSignal_value.
    unfold f32_add, f32_zero, SFadd. cbv zeta.
    rewrite Z.min_r, Z.min_l by lia.
    rewrite !shl_align_value by lia.
    rewrite Z.sub_diag, Z.pow_0_r, Z.mul_1_r.
    replace (cond_Zopp true (9765625 * 2 ^ (10 - e)) + cond_Zopp sg (Z.pos m))
      with (cond_Zopp sg (Z.pos m) - 9765625 * 2 ^ (10 - e))
      by (cbn [cond_Zopp]; ring).
    replace (cond_Zopp sg (Z.pos m) + cond_Zopp true (9765625 * 2 ^ (10 - e)))
      with (cond_Zopp sg (Z.pos m) - 9765625 * 2 ^ (10 - e))
      by (cbn [cond_Zopp]; ring).
    split; exact D.
Qed.

Lemma appendsOnly_refl P : forall s, appendsOnly P s s.
Proof. intros s. exists []. split; [symmetry; apply app_nil_r | constructor]. Qed.

Lemma appendsOnly_trans P : forall a b c, appendsOnly P a b -> appendsOnly P b c -> appendsOnly P a c.
Proof.
  intros a b c (n1 & H1 & F1) (n2 & H2 & F2). exists (n1 ++ n2)%list. split.
  - rewrite H2, H1. symmetry. apply app_assoc.
  - apply Forall_app; auto.
Qed.

Lemma appendsOnly_mono (P Q : Fill -> Prop) s s' :
  (forall f, P f -> Q f) -> appendsOnly P s s' -> appendsOnly Q s s'.
Proof.
  intros H (new & E & F). exists new. split; [exact E |].
  eapply Forall_impl; [exact H | exact F].
Qed.

Lemma ensures_weaken {S A} (R R' : S -> S -> Prop) E (m : Task S A) :
  (forall s s', R s s' -> R' s s') -> ensures R E m -> ensures R' E m.
Proof.
  intros H Hm st. specialize (Hm st). destruct (m st); [auto | destruct Hm; auto].
Qed.

Lemma fill_appends (P : Fill -> Prop) E name vals :
  P {| h_name := name; h_values := vals |} ->
  ensures (appendsOnly P) E (ft0Task.fill name vals).
Proof.
  intros H st. unfold ft0Task.fill, modify, appendsOnly. simpl.
  eexists; split; [reflexivity|]. constructor; [exact H | constructor].
Qed.

Lemma newFills_app st st' new :
  histos st' = (histos st ++ new)%list -> newFills st st' = new.
Proof.
  intros H. unfold newFills. rewrite H.
  rewrite skipn_app, skipn_all, Nat.sub_diag. reflexivity.
Qed.

Lemma newFills_appends P st st' :
  appendsOnly P st st' -> Forall P (newFills st st').
Proof. intros (new & H & F). rewrite (newFills_app _ _ _ H). exact F. Qed.

Lemma named_app n l1 l2 : named n (l1 ++ l2) = (named n l1 ++ named n l2)%list.
Proof. apply filter_app. Qed.

Lemma named_none n l : Forall (fun f => h_name f <> n) l -> named n l = [].
Proof.
  induction 1 as [| f l Hf _ IH]; [reflexivity |].
  unfold named in *. simpl. rewrite IH.
  destruct (String.eqb_spec (h_name f) n); [contradiction | reflexivity].
Qed.

(** One step of a proof that a computation only appends fills satisfying
    [P]. *)
Ltac appends_step P :=
  lazymatch goal with
  | |- ensures _ _ (bind _ _) =>
      apply (ensures_bind (appendsOnly P) anyAbort (appendsOnly_trans P)); [ | intros ]
  | |- ensures _ _ (ret _) => apply (ensures_ret (appendsOnly P) anyAbort (appendsOnly_refl P))
  | |- ensures _ _ (when _ _) => apply (ensures_when (appendsOnly P) anyAbort (appendsOnly_refl P))
  | |- ensures _ _ (forEach _ _) =>
      apply (ensures_forEach (appendsOnly P) anyAbort (appendsOnly_refl P) (appendsOnly_trans P)); intros
  | |- ensures _ _ (ft0Task.fill _ _) => apply fill_appends
  end.

Lemma bodyA_appends r vrt acc idx :
  ensures (appendsOnly (fun f => ampFill f /\ aSideEntry r f)) anyAbort (bodyA r vrt acc idx).
Proof.
  intros st. unfold bodyA, bind, span_at.
  destruct (nth_error (ft0.amplitudeA r) idx) as [amp |] eqn:Ea;
    [| split; [apply appendsOnly_refl | exact I]].
  cbn [ret].
  destruct (nth_error (ft0.channelA r) idx) as [ch |] eqn:Ec;
    [| split; [apply appendsOnly_refl | exact I]].
  apply nth_error_In in Ec.
  assert (forall name, aSideEntry r {| h_name := name; h_values := [HInt (Z.of_N ch); HFloat amp] |}) as HA.
  { intros name. exists ch, amp. split; [exact Ec | reflexivity]. }
  destruct vrt; cbn; eexists; (split; [rewrite <- ?app_assoc; reflexivity |]);
    repeat (apply Forall_cons; [split; [unfold ampFill; cbn; auto | apply HA] |]);
    apply Forall_nil.
Qed.

Lemma bodyC_appends r vrt acc idx :
  ensures (appendsOnly (fun f => ampFill f /\ cSideEntry r f)) anyAbort (bodyC r vrt acc idx).
Proof.
  intros st. unfold bodyC, bind, span_at.
  destruct (nth_error (ft0.amplitudeC r) idx) as [amp |] eqn:Ea;
    [| split; [apply appendsOnly_refl | exact I]].
  cbn [ret].
  destruct (nth_error (ft0.channelC r) idx) as [ch |] eqn:Ec;
    [| split; [apply appendsOnly_refl | exact I]].
  apply nth_error_In in Ec.
  assert (forall name, cSideEntry r {| h_name := name; h_values := [HInt (Z.of_N ch + 96); HFloat amp] |}) as HC.
  { intros name. exists ch, amp. split; [exact Ec | reflexivity]. }
  destruct vrt; cbn; eexists; (split; [rewrite <- ?app_assoc; reflexivity |]);
    repeat (apply Forall_cons; [split; [unfold ampFill; cbn; auto | apply HC] |]);
    apply Forall_nil.
Qed.

Lemma loopOver_appends P body :
  (forall acc idx, ensures (appendsOnly P) anyAbort (body acc idx)) ->
  forall idxs acc, ensures (appendsOnly P) anyAbort (loopOver body acc idxs).
Proof.
  intros Hb idxs. induction idxs as [| idx rest IH]; intros acc; cbn [loopOver].
  - appends_step P.
  - appends_step P; [apply Hb | apply IH].
Qed.

Lemma loopA_appends r :
  ensures (appendsOnly (fun f => ampFill f /\ aSideEntry r f)) anyAbort (loopA r).
Proof. apply loopOver_appends. intros. apply bodyA_appends. Qed.

Lemma loopC_appends r :
  ensures (appendsOnly (fun f => ampFill f /\ cSideEntry r f)) anyAbort (loopC r).
Proof. apply loopOver_appends. intros. apply bodyC_appends. Qed.






Lemma skipn_nth_error {A} (l : list A) k a :
  nth_error l k = Some a -> skipn k l = a :: skipn (S k) l.
Proof.
  revert k. induction l as [| x l IH]; intros [| k] H; try discriminate.
  - injection H as ->. reflexivity.
  - cbn [nth_error] in H. apply IH in H. exact H.
Qed.

Lemma nth_error_below {A} (l : list A) k :
  (k < List.length l)%nat -> exists a, nth_error l k = Some a.
Proof.
  intros H. destruct (nth_error l k) eqn:E; [eauto |].
  apply nth_error_None in E. lia.
Qed.

Lemma loopOver_run body (amps : list float) (chans : list N) :
  (forall acc idx a ch st,
      nth_error amps idx = Some a -> nth_error chans idx = Some ch ->
      exists st', body acc idx st = Done (f32_add acc a) st' /\
                  appendsOnly ampFill st st') ->
  List.length amps = List.length chans ->
  forall m k acc st, (k + m = List.length chans)%nat ->
    exists st', loopOver body acc (seq k m) st
                = Done (fold_left f32_add (skipn k amps) acc) st' /\
                appendsOnly ampFill st st'.
Proof.
  intros Hb Hlen m. induction m as [| m IH]; intros k acc st Hk; cbn [seq loopOver].
  - exists st. split; [| apply appendsOnly_refl].
    rewrite skipn_all2 by lia. reflexivity.
  - destruct (nth_error_below amps k ltac:(lia)) as [a Ha].
    destruct (nth_error_below chans k ltac:(lia)) as [ch Hc].
    destruct (Hb acc k a ch st Ha Hc) as (st1 & R1 & A1).
    destruct (IH (S k) (f32_add acc a) st1 ltac:(lia)) as (st2 & R2 & A2).
    exists st2. split; [| eapply appendsOnly_trans; eauto].
    rewrite (bind_done _ _ _ _ _ R1), R2, (skipn_nth_error _ _ _ Ha). reflexivity.
Qed.

Lemma bodyA_run r vrt acc idx a ch st :
  nth_error (ft0.amplitudeA r) idx = Some a ->
  nth_error (ft0.channelA r) idx = Some ch ->
  exists st', bodyA r vrt acc idx st = Done (f32_add acc a) st' /\
              appendsOnly ampFill st st'.
Proof.
  intros Ha Hc. unfold bodyA, bind, span_at. rewrite Ha, Hc.
  destruct vrt; cbn; eexists; (split; [reflexivity |]); eexists;
    (split; [cbn; rewrite <- ?app_assoc; reflexivity |]);
    repeat (apply Forall_cons; [unfold ampFill; cbn; auto |]); apply Forall_nil.
Qed.

Lemma bodyC_run r vrt acc idx a ch st :
  nth_error (ft0.amplitudeC r) idx = Some a ->
  nth_error (ft0.channelC r) idx = Some ch ->
  exists st', bodyC r vrt acc idx st = Done (f32_add acc a) st' /\
              appendsOnly ampFill st st'.
Proof.
  intros Ha Hc. unfold bodyC, bind, span_at. rewrite Ha, Hc.
  destruct vrt; cbn; eexists; (split; [reflexivity |]); eexists;
    (split; [cbn; rewrite <- ?app_assoc; reflexivity |]);
    repeat (apply Forall_cons; [unfold ampFill; cbn; auto |]); apply Forall_nil.
Qed.

Lemma loopA_run r st :
  wellFormed r ->
  exists st', loopA r st = Done (rawSum (ft0.amplitudeA r)) st' /\
              appendsOnly ampFill st st'.
Proof.
  intros [WA _]. unfold loopA, rawSum.
  apply (loopOver_run _ (ft0.amplitudeA r) (ft0.channelA r)
           (fun acc idx a ch st => bodyA_run r _ acc idx a ch st) WA
           (List.length (ft0.channelA r)) 0%nat f32_zero st eq_refl).
Qed.

Lemma loopC_run r st :
  wellFormed r ->
  exists st', loopC r st = Done (rawSum (ft0.amplitudeC r)) st' /\
              appendsOnly ampFill st st'.
Proof.
  intros [_ WC]. unfold loopC, rawSum.
  apply (loopOver_run _ (ft0.amplitudeC r) (ft0.channelC r)
           (fun acc idx a ch st => bodyC_run r _ acc idx a ch st) WC
           (List.length (ft0.channelC r)) 0%nat f32_zero st eq_refl).
Qed.

Lemma triggerLoop_appends (trg : N) (bcid : Z) :
  ensures (appendsOnly trigFill) noAbort
    (forEach (map Z.of_nat (seq 0 8)) (fun iTrg =>
       when (TESTBIT trg (Z.to_N iTrg)) (
         ft0Task.fill "hTriggers" [HInt iTrg] ;;
         ft0Task.fill "hTriggersPerBC" [HInt bcid; HInt iTrg]))).
Proof.
  apply (ensures_forEach _ _ (appendsOnly_refl _) (appendsOnly_trans _)). intros iTrg.
  apply (ensures_when _ _ (appendsOnly_refl _)).
  apply (ensures_bind _ _ (appendsOnly_trans _)); [| intros _];
    apply fill_appends; [left | right]; reflexivity.
Qed.

Lemma named_ampFill n l :
  n <> "hAmpPerChannelID" -> n <> "hAmpPerChannelID_VrtTrg" ->
  Forall ampFill l -> named n l = [].
Proof.
  intros N1 N2 F. apply named_none. eapply Forall_impl; [| exact F].
  intros f [E | E]; rewrite E; auto.
Qed.

Lemma named_trigFill n l :
  n <> "hTriggers" -> n <> "hTriggersPerBC" ->
  Forall trigFill l -> named n l = [].
Proof.
  intros N1 N2 F. apply named_none. eapply Forall_impl; [| exact F].
  intros f [E | E]; rewrite E; auto.
Qed.

Lemma processRecord_sums r st :
  wellFormed r ->
  exists st', processRecord r st = Done tt st' /\
    named "hSumAmp" (newFills st st')
    = [sumFill "hSumAmp"
         (f32_add (rawSum (ft0.amplitudeA r)) (rawSum (ft0.amplitudeC r)))] /\
    named "hSumAmp_vrtTrg" (newFills st st')
    = if isVrtTrg r
      then [sumFill "hSumAmp_vrtTrg"
              (f32_add (substituted (rawSum (ft0.amplitudeA r)))
                       (substituted (rawSum (ft0.amplitudeC r))))]
      else [].
Proof.
  intros W.
  destruct (loopA_run r st W) as (s1 & R1 & (nA & H1 & F1)).
  destruct (loopC_run r s1 W) as (s2 & R2 & (nC & H2 & F2)).
  unfold processRecord. cbv zeta.
  rewrite (bind_done _ _ _ _ _ R1), (bind_done _ _ _ _ _ R2).
  fold (substituted (rawSum (ft0.amplitudeA r))).
  fold (substituted (rawSum (ft0.amplitudeC r))).
  set (sum := f32_add (rawSum (ft0.amplitudeA r)) (rawSum (ft0.amplitudeC r))).
  set (sum' := f32_add (substituted (rawSum (ft0.amplitudeA r)))
                       (substituted (rawSum (ft0.amplitudeC r)))).
  set (a' := substituted (rawSum (ft0.amplitudeA r))).
  set (c' := substituted (rawSum (ft0.amplitudeC r))).
  set (isTimeOk := (_ && _)%bool).
  set (vrtPos := f64_mul _ _). set (collTime := f32_div _ _).
  clearbody sum sum' a' c' isTimeOk vrtPos collTime.
  destruct isTimeOk, (isVrtTrg r); cbn [bind ft0Task.fill modify when ret];
    match goal with
    | |- exists st', forEach ?xs ?body ?s = _ /\ _ =>
        destruct (ensures_done _ _ s
                    (triggerLoop_appends (ft0.triggerMask r) (ft0.bc_globalBC r mod 3564)))
          as ([] & s3 & R3 & (nT & H3 & F3))
    end;
    (exists s3; split; [exact R3 |]);
    cbn [histos] in H3;
    (erewrite newFills_app;
       [| rewrite H3, H2, H1, <- !app_assoc; reflexivity]);
    rewrite !named_app;
    rewrite !(named_ampFill _ nA), !(named_ampFill _ nC), !(named_trigFill _ nT)
      by (discriminate || assumption);
    split; reflexivity.
Qed.

Lemma In_named n x l :
  In (sumFill n x) l -> In (sumFill n x) (named n l).
Proof.
  intros H. apply filter_In. split; [exact H |]. cbn. apply String.eqb_refl.
Qed.

Lemma sumFill_only n x y l :
  named n l = [sumFill n y] -> In (sumFill n x) l -> x = y.
Proof.
  intros E H. apply In_named in H. rewrite E in H.
  destruct H as [H | []]. injection H as H. symmetry. exact H.
Qed.

(** C9, amended: for a record with one amplitude per channel,
    [processRecord] returns, hSumAmp receives exactly the sum of the two
    sides computed before the substitution, and hSumAmp_vrtTrg receives, for a
    vertex-triggered record and only then, exactly the sum computed after it;
    for a vertex-triggered record with an empty A-side (C-side) list whose
    other side sums to a float of magnitude below 1e10, the two values
    differ. *)
Theorem C9_sum_histograms (r : ft0.t) (st : ft0Task.t) :
  wellFormed r ->
  exists st',
    processRecord r st = Done tt st' /\
    named "hSumAmp" (newFills st st')
    = [sumFill "hSumAmp"
         (f32_add (rawSum (ft0.amplitudeA r)) (rawSum (ft0.amplitudeC r)))] /\
    named "hSumAmp_vrtTrg" (newFills st st')
    = (if isVrtTrg r
       then [sumFill "hSumAmp_vrtTrg"
               (f32_add (substituted (rawSum (ft0.amplitudeA r)))
                        (substituted (rawSum (ft0.amplitudeC r))))]
       else []) /\
    (isVrtTrg r = true ->
     (ft0.channelA r = [] /\ smallSum (rawSum (ft0.amplitudeC r))) \/
     (ft0.channelC r = [] /\ smallSum (rawSum (ft0.amplitudeA r))) ->
     forall x y, In (sumFill "hSumAmp" x) (newFills st st') ->
                 In (sumFill "hSumAmp_vrtTrg" y) (newFills st st') -> x <> y).
Proof.
  intros W. destruct (processRecord_sums r st W) as (st' & R & H1 & H2).
  exists st'. split; [exact R |]. split; [exact H1 |]. split; [exact H2 |].
  intros V Side x y Hx Hy.
  rewrite V in H2.
  rewrite (sumFill_only _ _ _ _ H1 Hx), (sumFill_only _ _ _ _ H2 Hy).
  intros E. symmetry in E. revert E.
  destruct W as [WA WC].
  destruct Side as [[EA S] | [EC S]].
  - rewrite EA in WA. destruct (ft0.amplitudeA r); [| discriminate WA].
    apply (sum_differs _ S).
  - rewrite EC in WC. destruct (ft0.amplitudeC r); [| discriminate WC].
    apply (sum_differs _ S).
Qed.

(** The two sums of a vertex-triggered record without A-side channels. *)
Lemma C9_witness :
  wellFormed vertexRecord /\
  exists st',
    processRecord vertexRecord emptyTask = Done tt st' /\
    forall x y, In (sumFill "hSumAmp" x) (newFills emptyTask st') ->
                In (sumFill "hSumAmp_vrtTrg" y) (newFills emptyTask st') -> x <> y.
Proof.
  assert (wellFormed vertexRecord) as W by (split; reflexivity).
  split; [exact W |].
  destruct (C9_sum_histograms vertexRecord emptyTask W) as (st' & R & _ & _ & D).
  exists st'. split; [exact R |]. apply D; [reflexivity |].
  left. split; [reflexivity |]. split; vm_compute; reflexivity.
Defined.

(** C9 as stated fails: -1e10 + 2^100 rounds to 2^100, so both histograms
    receive the same value; and a record that lacks an amplitude ends the
    program before hSumAmp is filled. *)
Lemma C9_counterexample :
  ~ sum_histograms_spec absorbRecord emptyTask /\
  ~ sum_histograms_spec shortRecord emptyTask.
Proof.
  split.
  - intros (_ & _ & H).
    apply (H eq_refl (or_introl eq_refl)
             (S754_finite false 8388608 77) (S754_finite false 8388608 77));
      [vm_compute; tauto | vm_compute; tauto | reflexivity].
  - intros (H & _). vm_compute in H. discriminate H.
Qed.

End ft0Facts.

(* ===================================================================== *)
(** * Further properties of ft0Task *)
(* ===================================================================== *)

Module ft0More.
Import ft0Task ft0Spec ft0Facts ft0Props.

Lemma bind_run {S A B} (m : Task S A) (k : A -> Task S B) st a st1 :
  m st = Done a st1 -> bind m k st = k a st1.
Proof. intros H. unfold bind. rewrite H. reflexivity. Qed.

Lemma bind_aborts {S A B} (m : Task S A) (k : A -> Task S B) st why st1 :
  m st = Aborted why st1 -> bind m k st = Aborted why st1.
Proof. intros H. unfold bind. rewrite H. reflexivity. Qed.

Lemma nth_error_some {A} (l : list A) k :
  (k < List.length l)%nat -> exists a, nth_error l k = Some a.
Proof.
  intros H. destruct (nth_error l k) eqn:E; [eauto |].
  apply nth_error_None in E. lia.
Qed.

Lemma skipn_cons_nth {A} (l : list A) k a :
  nth_error l k = Some a -> skipn k l = a :: skipn (S k) l.
Proof.
  revert k. induction l as [| x l IH]; intros [| k] H; try discriminate.
  - injection H as ->. reflexivity.
  - cbn [nth_error] in H. apply IH in H. exact H.
Qed.

Lemma combine_firstn_r {A B} (l : list A) (l' : list B) :
  combine l (firstn (List.length l) l') = combine l l'.
Proof.
  revert l'. induction l as [| x l IH]; intros [| y l']; cbn; try reflexivity.
  rewrite IH. reflexivity.
Qed.

(** An amplitude loop on a side with an amplitude for every channel. *)
Lemma loopOver_exact body (entry : N * float -> list Fill)
    (chans : list N) (amps : list float) :
  (forall acc idx a ch st,
      nth_error amps idx = Some a -> nth_error chans idx = Some ch ->
      body acc idx st
      = Done (f32_add acc a) {| histos := (histos st ++ entry (ch, a))%list |}) ->
  forall m k acc st,
    (k + m <= List.length chans)%nat -> (k + m <= List.length amps)%nat ->
    loopOver body acc (seq k m) st
    = Done (fold_left f32_add (firstn m (skipn k amps)) acc)
           {| histos := (histos st ++
                         flat_map entry (combine (firstn m (skipn k chans))
                                                 (firstn m (skipn k amps))))%list |}.
Proof.
  intros Hb m. induction m as [| m IH]; intros k acc st Hc Ha; cbn [seq loopOver].
  - cbn. rewrite app_nil_r. destruct st. reflexivity.
  - destruct (nth_error_some amps k ltac:(lia)) as [a Ea].
    destruct (nth_error_some chans k ltac:(lia)) as [ch Ec].
    rewrite (bind_run _ _ _ _ _ (Hb acc k a ch st Ea Ec)).
    rewrite (IH (S k) (f32_add acc a) _ ltac:(lia) ltac:(lia)).
    rewrite (skipn_cons_nth _ _ _ Ea), (skipn_cons_nth _ _ _ Ec).
    cbn [firstn combine flat_map fold_left histos].
    rewrite <- app_assoc. reflexivity.
Qed.

Lemma bodyA_exact r vrt acc idx a ch st :
  nth_error (ft0.amplitudeA r) idx = Some a ->
  nth_error (ft0.channelA r) idx = Some ch ->
  bodyA r vrt acc idx st
  = Done (f32_add acc a)
         {| histos := (histos st ++ loopEntries vrt chIDA (ch, a))%list |}.
Proof.
  intros Ha Hc. unfold bodyA, bind, span_at. rewrite Ha, Hc.
  destruct vrt; cbn; rewrite <- ?app_assoc; reflexivity.
Qed.

Lemma bodyC_exact r vrt acc idx a ch st :
  nth_error (ft0.amplitudeC r) idx = Some a ->
  nth_error (ft0.channelC r) idx = Some ch ->
  bodyC r vrt acc idx st
  = Done (f32_add acc a)
         {| histos := (histos st ++ loopEntries vrt chIDC (ch, a))%list |}.
Proof.
  intros Ha Hc. unfold bodyC, bind, span_at. rewrite Ha, Hc.
  destruct vrt; cbn; rewrite <- ?app_assoc; reflexivity.
Qed.

Lemma loopA_exact r st :
  (List.length (ft0.channelA r) <= List.length (ft0.amplitudeA r))%nat ->
  loopA r st
  = Done (rawSum (readA r))
         {| histos := (histos st ++
                       flat_map (loopEntries (isVrtTrg r) chIDA)
                                (combine (ft0.channelA r) (ft0.amplitudeA r)))%list |}.
Proof.
  intros H. unfold loopA, rawSum, readA.
  rewrite (loopOver_exact (bodyA r (isVrtTrg r)) (loopEntries (isVrtTrg r) chIDA)
             (ft0.channelA r) (ft0.amplitudeA r)
             (fun acc idx a ch st => bodyA_exact r (isVrtTrg r) acc idx a ch st)
             (List.length (ft0.channelA r)) 0%nat f32_zero st (le_n _) H).
  cbn [skipn]. rewrite firstn_all, combine_firstn_r. reflexivity.
Qed.

Lemma loopC_exact r st :
  (List.length (ft0.channelC r) <= List.length (ft0.amplitudeC r))%nat ->
  loopC r st
  = Done (rawSum (readC r))
         {| histos := (histos st ++
                       flat_map (loopEntries (isVrtTrg r) chIDC)
                                (combine (ft0.channelC r) (ft0.amplitudeC r)))%list |}.
Proof.
  intros H. unfold loopC, rawSum, readC.
  rewrite (loopOver_exact (bodyC r (isVrtTrg r)) (loopEntries (isVrtTrg r) chIDC)
             (ft0.channelC r) (ft0.amplitudeC r)
             (fun acc idx a ch st => bodyC_exact r (isVrtTrg r) acc idx a ch st)
             (List.length (ft0.channelC r)) 0%nat f32_zero st (le_n _) H).
  cbn [skipn]. rewrite firstn_all, combine_firstn_r. reflexivity.
Qed.

Lemma triggerLoop_exact (trg : N) (bcid : Z) (xs : list Z) st :
  forEach xs (fun iTrg =>
    when (TESTBIT trg (Z.to_N iTrg)) (
      ft0Task.fill "hTriggers" [HInt iTrg] ;;
      ft0Task.fill "hTriggersPerBC" [HInt bcid; HInt iTrg])) st
  = Done tt {| histos := (histos st ++ flat_map (trigEntries trg bcid) xs)%list |}.
Proof.
  revert st. induction xs as [| x xs IH]; intros st; cbn [forEach flat_map].
  - rewrite app_nil_r. destruct st. reflexivity.
  - unfold bind at 1. unfold trigEntries at 1.
    destruct (TESTBIT trg (Z.to_N x)); cbn [when].
    + cbn. rewrite IH. cbn [histos]. rewrite <- !app_assoc. reflexivity.
    + cbn [ret]. rewrite IH. reflexivity.
Qed.

Lemma named_loopEntries_amp vrt chID ps :
  named "hAmpPerChannelID" (flat_map (loopEntries vrt chID) ps)
  = map (fun p => ampEntry "hAmpPerChannelID" (chID (fst p)) (snd p)) ps.
Proof.
  induction ps as [| p ps IH]; [reflexivity |].
  cbn [flat_map map]. rewrite named_app, IH. destruct vrt; reflexivity.
Qed.

Lemma named_loopEntries_vrt vrt chID ps :
  named "hAmpPerChannelID_VrtTrg" (flat_map (loopEntries vrt chID) ps)
  = if vrt
    then map (fun p => ampEntry "hAmpPerChannelID_VrtTrg" (chID (fst p)) (snd p)) ps
    else [].
Proof.
  induction ps as [| p ps IH]; [destruct vrt; reflexivity |].
  cbn [flat_map map]. rewrite named_app, IH. destruct vrt; reflexivity.
Qed.

Lemma loopEntries_ampFill vrt chID ps :
  Forall ampFill (flat_map (loopEntries vrt chID) ps).
Proof.
  induction ps as [| p ps IH]; [constructor |].
  cbn [flat_map]. apply Forall_app. split; [| exact IH].
  unfold loopEntries. destruct vrt.
  - constructor; [left; reflexivity |].
    constructor; [right; reflexivity | constructor].
  - constructor; [left; reflexivity | constructor].
Qed.

Lemma trigEntries_trigFill trg bcid xs :
  Forall trigFill (flat_map (trigEntries trg bcid) xs).
Proof.
  induction xs as [| x xs IH]; [constructor |].
  cbn [flat_map]. apply Forall_app. split; [| exact IH].
  unfold trigEntries. destruct (TESTBIT trg (Z.to_N x)); [| constructor].
  constructor; [left; reflexivity |]. constructor; [right; reflexivity | constructor].
Qed.

Lemma named_trigEntries_bits trg bcid xs :
  named "hTriggers" (flat_map (trigEntries trg bcid) xs)
  = map (fun iTrg => {| h_name := "hTriggers"; h_values := [HInt iTrg] |})
        (filter (fun iTrg => TESTBIT trg (Z.to_N iTrg)) xs).
Proof.
  induction xs as [| x xs IH]; [reflexivity |].
  cbn [flat_map filter]. rewrite named_app, IH. unfold trigEntries.
  destruct (TESTBIT trg (Z.to_N x)); reflexivity.
Qed.

Lemma named_trigEntries_perBC trg bcid xs :
  named "hTriggersPerBC" (flat_map (trigEntries trg bcid) xs)
  = map (fun iTrg => {| h_name := "hTriggersPerBC"; h_values := [HInt bcid; HInt iTrg] |})
        (filter (fun iTrg => TESTBIT trg (Z.to_N iTrg)) xs).
Proof.
  induction xs as [| x xs IH]; [reflexivity |].
  cbn [flat_map filter]. rewrite named_app, IH. unfold trigEntries.
  destruct (TESTBIT trg (Z.to_N x)); reflexivity.
Qed.

Lemma named_sumHistogram n l :
  sumHistogram n = false ->
  Forall (fun f => sumHistogram (h_name f) = true) l -> named n l = [].
Proof.
  intros Hn F. apply named_none. eapply Forall_impl; [| exact F].
  intros f Hf E. cbv beta in Hf. rewrite E, Hn in Hf. discriminate.
Qed.

(** A record with enough amplitudes: what [processRecord] leaves. *)
Lemma processRecord_exact r st :
  enoughAmplitudes r ->
  exists mid,
    processRecord r st
    = Done tt {| histos :=
        (histos st
         ++ flat_map (loopEntries (isVrtTrg r) chIDA)
                     (combine (ft0.channelA r) (ft0.amplitudeA r))
         ++ flat_map (loopEntries (isVrtTrg r) chIDC)
                     (combine (ft0.channelC r) (ft0.amplitudeC r))
         ++ mid
         ++ flat_map (trigEntries (ft0.triggerMask r) (ft0.bc_globalBC r mod 3564))
                     triggerBits)%list |} /\
    Forall (fun f => sumHistogram (h_name f) = true) mid /\
    named "hSumAmp" mid
    = [sumFill "hSumAmp" (f32_add (rawSum (readA r)) (rawSum (readC r)))] /\
    Forall (fun f => sideSumHistogram (h_name f) = true -> noZeroValue f) mid.
Proof.
  intros [EA EC].
  unfold processRecord. cbv zeta.
  rewrite (bind_run _ _ _ _ _ (loopA_exact r st EA)).
  rewrite (bind_run _ _ _ _ _ (loopC_exact r _ EC)).
  fold (substituted (rawSum (readA r))). fold (substituted (rawSum (readC r))).
  assert (forall x, feq (substituted x) (f32_of_int 0) = false) as NZ.
  { intros x. unfold substituted. destruct (feq x (f32_of_int 0)) eqn:E; [reflexivity | exact E]. }
  pose proof (NZ (rawSum (readA r))) as NA. pose proof (NZ (rawSum (readC r))) as NC.
  set (sum := f32_add (rawSum (readA r)) (rawSum (readC r))).
  set (a' := substituted (rawSum (readA r))) in *.
  set (c' := substituted (rawSum (readC r))) in *.
  set (isTimeOk := (_ && _)%bool).
  set (vrtPos := f64_mul _ _). set (collTime := f32_div _ _).
  clearbody sum a' c' isTimeOk vrtPos collTime. clear NZ.
  assert (forall n vals, (forall x, In (HFloat x) vals -> x = a' \/ x = c') ->
            noZeroValue {| h_name := n; h_values := vals |}) as NZ.
  { intros n vals H x Hx. destruct (H x Hx) as [-> | ->]; assumption. }
  exists ([ {| h_name := "hSumAmpAvsC"; h_values := [HFloat a'; HFloat c'] |};
            {| h_name := "hSumAmpA"; h_values := [HFloat a'] |};
            {| h_name := "hSumAmpC"; h_values := [HFloat c'] |};
            {| h_name := "hSumAmp"; h_values := [HFloat sum] |} ]
          ++ (if isTimeOk
              then [ {| h_name := "hVrtVsCollTime";
                        h_values := [HDouble vrtPos; HFloat collTime] |} ]
              else [])
          ++ (if isVrtTrg r
              then [ {| h_name := "hSumAmpAvsC_vrtTrg"; h_values := [HFloat a'; HFloat c'] |};
                     {| h_name := "hSumAmpA_vrtTrg"; h_values := [HFloat a'] |};
                     {| h_name := "hSumAmpC_vrtTrg"; h_values := [HFloat c'] |};
                     {| h_name := "hSumAmp_vrtTrg"; h_values := [HFloat (f32_add a' c')] |} ]
                   ++ (if isTimeOk
                       then [ {| h_name := "hVrtVsCollTime_vrtTrg";
                                 h_values := [HDouble vrtPos; HFloat collTime] |} ]
                       else [])
              else []))%list.
  split.
  { destruct isTimeOk, (isVrtTrg r); cbn [bind ft0Task.fill modify when ret histos];
      rewrite triggerLoop_exact; cbn [histos]; rewrite <- !app_assoc; reflexivity. }
  split.
  { destruct isTimeOk, (isVrtTrg r); repeat constructor. }
  split.
  { destruct isTimeOk, (isVrtTrg r); reflexivity. }
  destruct isTimeOk, (isVrtTrg r); cbn [app];
    repeat (apply Forall_cons;
            [intros Hs; first [discriminate Hs
                              | apply NZ; cbn; intros x Hx;
                                repeat (destruct Hx as [Hx | Hx];
                                        [injection Hx as <-; auto |]);
                                destruct Hx] |]);
    apply Forall_nil.
Qed.

Lemma newFills_exact st new :
  newFills st {| histos := (histos st ++ new)%list |} = new.
Proof. apply newFills_app. reflexivity. Qed.

(** The amplitude histograms receive one entry per channel: first the
    A-side channels under their raw IDs, then the C-side channels under
    their raw IDs plus 96, each with its amplitude; the vertex-trigger
    histogram receives the same entries when the vertex bit (bit 2 of the
    trigger mask) is set and none otherwise. *)
Theorem amplitude_histograms_entries (r : ft0.t) (st : ft0Task.t) :
  enoughAmplitudes r ->
  exists st',
    processRecord r st = Done tt st' /\
    named "hAmpPerChannelID" (newFills st st')
    = (sideEntries "hAmpPerChannelID" chIDA (ft0.channelA r) (ft0.amplitudeA r)
       ++ sideEntries "hAmpPerChannelID" chIDC (ft0.channelC r) (ft0.amplitudeC r))%list /\
    named "hAmpPerChannelID_VrtTrg" (newFills st st')
    = if N.testbit (ft0.triggerMask r) 2
      then (sideEntries "hAmpPerChannelID_VrtTrg" chIDA
              (ft0.channelA r) (ft0.amplitudeA r)
            ++ sideEntries "hAmpPerChannelID_VrtTrg" chIDC
                 (ft0.channelC r) (ft0.amplitudeC r))%list
      else [].
Proof.
  intros E. destruct (processRecord_exact r st E) as (mid & R & Fm & _ & _).
  eexists. split; [exact R |]. rewrite newFills_exact, !named_app.
  rewrite !named_loopEntries_amp, !named_loopEntries_vrt.
  rewrite !(named_sumHistogram _ mid) by (reflexivity || exact Fm).
  rewrite !(named_trigFill _ (flat_map _ triggerBits))
    by (discriminate || apply trigEntries_trigFill).
  rewrite !app_nil_r. split; [reflexivity |].
  change (N.testbit (ft0.triggerMask r) 2) with (isVrtTrg r).
  destruct (isVrtTrg r); reflexivity.
Qed.

Lemma amplitude_histograms_entries_witness :
  enoughAmplitudes sampleRecord /\
  exists st',
    processRecord sampleRecord emptyTask = Done tt st' /\
    named "hAmpPerChannelID" (newFills emptyTask st')
    = [ampEntry "hAmpPerChannelID" 3 (f32_of_int 10);
       ampEntry "hAmpPerChannelID" 95 (f32_of_int 20);
       ampEntry "hAmpPerChannelID" 96 (f32_of_int 5);
       ampEntry "hAmpPerChannelID" 103 (f32_of_int 6)].
Proof.
  assert (enoughAmplitudes sampleRecord) as E by (split; cbn; lia).
  split; [exact E |].
  destruct (amplitude_histograms_entries sampleRecord emptyTask E) as (st' & R & H & _).
  exists st'. split; [exact R | exact H].
Defined.

Lemma firedBits_low r r' :
  (ft0.triggerMask r' mod 256 = ft0.triggerMask r mod 256)%N ->
  firedBits r' = firedBits r.
Proof.
  intros H. unfold firedBits. apply filter_ext_in. intros i Hi.
  assert (Z.to_N i < 8)%N as L.
  { unfold triggerBits in Hi. cbn in Hi.
    repeat (destruct Hi as [<- | Hi]; [cbn; lia |]). destruct Hi. }
  rewrite <- (N.mod_pow2_bits_low (ft0.triggerMask r') 8 _ L).
  rewrite <- (N.mod_pow2_bits_low (ft0.triggerMask r) 8 _ L).
  change (2 ^ 8)%N with 256%N. rewrite H. reflexivity.
Qed.

(** The trigger histograms receive one entry for each of the bits 0 to 7
    that is set in the trigger mask, in increasing order, hTriggersPerBC
    under the bunch-crossing ID [globalBC % 3564]; bits above 7 are never
    looked at. *)
Theorem trigger_histograms_entries (r : ft0.t) (st : ft0Task.t) :
  enoughAmplitudes r ->
  (exists st',
     processRecord r st = Done tt st' /\
     named "hTriggers" (newFills st st')
     = map (fun iTrg => {| h_name := "hTriggers"; h_values := [HInt iTrg] |})
           (firedBits r) /\
     named "hTriggersPerBC" (newFills st st')
     = map (fun iTrg => {| h_name := "hTriggersPerBC";
                           h_values := [HInt (ft0.bc_globalBC r mod 3564); HInt iTrg] |})
           (firedBits r)) /\
  (forall r', (ft0.triggerMask r' mod 256 = ft0.triggerMask r mod 256)%N ->
              firedBits r' = firedBits r).
Proof.
  intros E. split; [| intros r'; apply firedBits_low].
  destruct (processRecord_exact r st E) as (mid & R & Fm & _ & _).
  eexists. split; [exact R |]. rewrite newFills_exact, !named_app.
  rewrite named_trigEntries_bits, named_trigEntries_perBC.
  rewrite !(named_sumHistogram _ mid) by (reflexivity || exact Fm).
  rewrite !(named_ampFill _ (flat_map _ _))
    by (discriminate || apply loopEntries_ampFill).
  split; reflexivity.
Qed.

Lemma trigger_histograms_entries_witness :
  enoughAmplitudes sampleRecord /\
  exists st',
    processRecord sampleRecord emptyTask = Done tt st' /\
    named "hTriggers" (newFills emptyTask st')
    = [{| h_name := "hTriggers"; h_values := [HInt 2] |}].
Proof.
  assert (enoughAmplitudes sampleRecord) as E by (split; cbn; lia).
  split; [exact E |].
  destruct (trigger_histograms_entries sampleRecord emptyTask E)
    as ((st' & R & H & _) & _).
  exists st'. split; [exact R | exact H].
Defined.

Lemma loopOver_ensures P E body :
  (forall acc idx, ensures (appendsOnly P) E (body acc idx)) ->
  forall idxs acc, ensures (appendsOnly P) E (loopOver body acc idxs).
Proof.
  intros Hb idxs. induction idxs as [| idx rest IH]; intros acc; cbn [loopOver].
  - apply (ensures_ret _ _ (appendsOnly_refl P)).
  - apply (ensures_bind _ _ (appendsOnly_trans P)); [apply Hb | apply IH].
Qed.

Lemma loopOver_done_length (body : float -> nat -> Task ft0Task.t float)
    (amps : list float) :
  (forall acc idx st a st',
      body acc idx st = Done a st' -> nth_error amps idx <> None) ->
  forall m k acc st a st',
    loopOver body acc (seq k m) st = Done a st' ->
    m = 0%nat \/ (k + m <= List.length amps)%nat.
Proof.
  intros Hb m. induction m as [| m IH]; intros k acc st a st' H; [left; reflexivity |].
  right. cbn [seq loopOver] in H. unfold bind in H.
  destruct (body acc k st) as [a1 s1 |] eqn:B; [| discriminate].
  apply Hb in B. apply IH in H.
  assert (k < List.length amps)%nat by (apply nth_error_Some; exact B).
  lia.
Qed.

Lemma bodyA_overrun r vrt acc idx :
  ensures (appendsOnly ampFill) spanOverrun (bodyA r vrt acc idx).
Proof.
  intros st. unfold bodyA, bind, span_at.
  destruct (nth_error (ft0.amplitudeA r) idx) as [a |];
    [| split; [apply appendsOnly_refl | reflexivity]].
  cbn [ret].
  destruct (nth_error (ft0.channelA r) idx) as [ch |];
    [| split; [apply appendsOnly_refl | reflexivity]].
  destruct vrt; cbn; eexists; (split; [rewrite <- ?app_assoc; reflexivity |]);
    repeat (apply Forall_cons; [unfold ampFill; cbn; auto |]); apply Forall_nil.
Qed.

Lemma bodyC_overrun r vrt acc idx :
  ensures (appendsOnly ampFill) spanOverrun (bodyC r vrt acc idx).
Proof.
  intros st. unfold bodyC, bind, span_at.
  destruct (nth_error (ft0.amplitudeC r) idx) as [a |];
    [| split; [apply appendsOnly_refl | reflexivity]].
  cbn [ret].
  destruct (nth_error (ft0.channelC r) idx) as [ch |];
    [| split; [apply appendsOnly_refl | reflexivity]].
  destruct vrt; cbn; eexists; (split; [rewrite <- ?app_assoc; reflexivity |]);
    repeat (apply Forall_cons; [unfold ampFill; cbn; auto |]); apply Forall_nil.
Qed.

Lemma bodyA_done r vrt acc idx st a st' :
  bodyA r vrt acc idx st = Done a st' -> nth_error (ft0.amplitudeA r) idx <> None.
Proof.
  unfold bodyA, bind, span_at.
  destruct (nth_error (ft0.amplitudeA r) idx); [discriminate | discriminate].
Qed.

Lemma bodyC_done r vrt acc idx st a st' :
  bodyC r vrt acc idx st = Done a st' -> nth_error (ft0.amplitudeC r) idx <> None.
Proof.
  unfold bodyC, bind, span_at.
  destruct (nth_error (ft0.amplitudeC r) idx); [discriminate | discriminate].
Qed.

(** A record that lacks an amplitude: the read past the end of the span ends
    the program during the amplitude loops. *)
Lemma processRecord_overrun r st :
  ~ enoughAmplitudes r ->
  exists st',
    processRecord r st = Aborted (AbortOutOfRange VectorAccess) st' /\
    appendsOnly ampFill st st'.
Proof.
  intros NE. unfold processRecord. cbv zeta.
  destruct (le_dec (List.length (ft0.channelA r)) (List.length (ft0.amplitudeA r)))
    as [EA | NA].
  - assert (~ (List.length (ft0.channelC r) <= List.length (ft0.amplitudeC r))%nat) as NC
      by (intros EC; apply NE; split; assumption).
    rewrite (bind_run _ _ _ _ _ (loopA_exact r st EA)).
    match goal with |- context [bind (loopC r) _ ?s] => set (s1 := s) end.
    pose proof (loopOver_ensures ampFill spanOverrun _
                  (bodyC_overrun r (isVrtTrg r))
                  (seq 0 (List.length (ft0.channelC r))) f32_zero s1) as HC.
    fold (loopC r) in HC.
    destruct (loopC r s1) as [a s2 | why s2] eqn:RC.
    + exfalso. apply NC.
      destruct (loopOver_done_length _ (ft0.amplitudeC r)
                  (bodyC_done r (isVrtTrg r)) _ _ _ _ _ _ RC) as [Z | L]; lia.
    + destruct HC as [HC ->]. exists s2.
      split; [apply bind_aborts; exact RC |].
      apply (appendsOnly_trans _ st s1 s2); [| exact HC].
      eexists. split; [reflexivity | apply loopEntries_ampFill].
  - pose proof (loopOver_ensures ampFill spanOverrun _
                  (bodyA_overrun r (isVrtTrg r))
                  (seq 0 (List.length (ft0.channelA r))) f32_zero st) as HA.
    fold (loopA r) in HA.
    destruct (loopA r st) as [a s1 | why s1] eqn:RA.
    + exfalso. apply NA.
      destruct (loopOver_done_length _ (ft0.amplitudeA r)
                  (bodyA_done r (isVrtTrg r)) _ _ _ _ _ _ RA) as [Z | L]; lia.
    + destruct HA as [HA ->]. exists s1.
      split; [apply bind_aborts; exact RA | exact HA].
Qed.

Lemma enoughAmplitudes_dec r : {enoughAmplitudes r} + {~ enoughAmplitudes r}.
Proof.
  unfold enoughAmplitudes.
  destruct (le_dec (List.length (ft0.channelA r)) (List.length (ft0.amplitudeA r)));
    destruct (le_dec (List.length (ft0.channelC r)) (List.length (ft0.amplitudeC r)));
    first [left; split; assumption | right; intros [? ?]; contradiction].
Qed.

(** [processRecord] returns exactly for the records that have an amplitude
    for every channel of both sides; for any other record the program ends
    at the read past the end of an amplitude span, having filled nothing but
    amplitude histograms. *)
Theorem processRecord_returns_iff (r : ft0.t) (st : ft0Task.t) :
  ((exists st', processRecord r st = Done tt st') <-> enoughAmplitudes r) /\
  (~ enoughAmplitudes r ->
   exists st',
     processRecord r st = Aborted (AbortOutOfRange VectorAccess) st' /\
     Forall ampFill (newFills st st')).
Proof.
  split; [split |].
  - intros [st' R]. destruct (enoughAmplitudes_dec r) as [E | NE]; [exact E |].
    destruct (processRecord_overrun r st NE) as (s & A & _). congruence.
  - intros E. destruct (processRecord_exact r st E) as (mid & R & _).
    eexists. exact R.
  - intros NE. destruct (processRecord_overrun r st NE) as (s & A & H).
    exists s. split; [exact A | apply newFills_appends; exact H].
Qed.

Lemma loops_then (P : Fill -> Prop) r (k : float -> float -> Task ft0Task.t unit) :
  (forall f, ampFill f -> P f) ->
  (forall a c, ensures (appendsOnly P) anyAbort (k a c)) ->
  ensures (appendsOnly P) anyAbort (a <- loopA r ;; c <- loopC r ;; k a c).
Proof.
  intros HP Hk.
  appends_step P.
  { eapply ensures_weaken; [| apply loopA_appends].
    intros s s'. apply appendsOnly_mono. intros f [H _]. apply HP, H. }
  appends_step P.
  { eapply ensures_weaken; [| apply loopC_appends].
    intros s s'. apply appendsOnly_mono. intros f [H _]. apply HP, H. }
  apply Hk.
Qed.

Lemma process_forall (P : Fill -> Prop) entries :
  (forall r, ensures (appendsOnly P) anyAbort (processRecord r)) ->
  ensures (appendsOnly P) anyAbort (process entries).
Proof.
  intros H. unfold process.
  apply (ensures_forEach _ _ (appendsOnly_refl P) (appendsOnly_trans P)). exact H.
Qed.

Lemma substituted_not_zero x : feq (substituted x) (f32_of_int 0) = false.
Proof.
  unfold substituted. destruct (feq x (f32_of_int 0)) eqn:E; [reflexivity | exact E].
Qed.

Lemma processRecord_no_zero r :
  ensures (appendsOnly (fun f => sideSumHistogram (h_name f) = true -> noZeroValue f))
          anyAbort (processRecord r).
Proof.
  unfold processRecord. cbv zeta.
  apply (loops_then _ r (fun a c => _)).
  { intros f [E | E] Hs; rewrite E in Hs; discriminate Hs. }
  intros a c. fold (substituted a). fold (substituted c).
  pose proof (substituted_not_zero a) as NA. pose proof (substituted_not_zero c) as NC.
  set (a' := substituted a) in *. set (c' := substituted c) in *. clearbody a' c'.
  repeat (appends_step (fun f => sideSumHistogram (h_name f) = true -> noZeroValue f));
    intros Hs; first [discriminate Hs
                     | intros x Hx; cbn in Hx;
                       repeat (destruct Hx as [Hx | Hx]; [injection Hx as <-; assumption |]);
                       destruct Hx].
Qed.

(** Whatever the records, no entry of hSumAmpA, hSumAmpC, hSumAmpAvsC or of
    their vertex-trigger variants carries a value equal to zero: a side that
    sums to zero is entered as -1e10. *)
Theorem side_sums_never_zero (entries : list ft0.t) (st : ft0Task.t) :
  Forall (fun f => sideSumHistogram (h_name f) = true -> noZeroValue f)
         (newFills st (outcome_state (process entries st))).
Proof.
  apply newFills_appends. apply (ensures_outcome _ anyAbort).
  apply process_forall. apply processRecord_no_zero.
Qed.






Lemma process_sums entries :
  Forall enoughAmplitudes entries ->
  forall st, exists new,
    process entries st = Done tt {| histos := (histos st ++ new)%list |} /\
    named "hSumAmp" new = map sumAmpEntry entries.
Proof.
  unfold process. induction 1 as [| r rest E _ IH]; intros st; cbn [forEach map].
  - exists []. rewrite app_nil_r. destruct st. split; reflexivity.
  - destruct (processRecord_exact r st E) as (mid & R & Fm & Hs & _).
    rewrite (bind_run _ _ _ _ _ R).
    match goal with |- context [forEach rest processRecord ?s] =>
      destruct (IH s) as (new & R2 & N2) end.
    rewrite R2. cbn [histos].
    eexists. split; [rewrite <- !app_assoc; reflexivity |].
    rewrite !named_app, Hs, N2.
    rewrite !(named_ampFill _ (flat_map _ _))
      by (discriminate || apply loopEntries_ampFill).
    rewrite (named_trigFill _ (flat_map _ triggerBits))
      by (discriminate || apply trigEntries_trigFill).
    reflexivity.
Qed.

(** When every record has an amplitude for every channel, [process] returns
    and hSumAmp receives exactly one entry per record, in the order of the
    records: the sum of the amplitudes read on the two sides. *)
Theorem process_one_sum_per_record (entries : list ft0.t) (st : ft0Task.t) :
  Forall enoughAmplitudes entries ->
  exists st',
    process entries st = Done tt st' /\
    named "hSumAmp" (newFills st st') = map sumAmpEntry entries.
Proof.
  intros E. destruct (process_sums entries E st) as (new & R & N).
  eexists. split; [exact R |]. rewrite newFills_exact. exact N.
Qed.

Lemma process_one_sum_per_record_witness :
  exists st',
    process [sampleRecord; vertexRecord] emptyTask = Done tt st' /\
    named "hSumAmp" (newFills emptyTask st')
    = [sumAmpEntry sampleRecord; sumAmpEntry vertexRecord].
Proof.
  apply (process_one_sum_per_record [sampleRecord; vertexRecord] emptyTask).
  repeat constructor; cbn; lia.
Defined.

Lemma distinctNames_NoDup names : distinctNames names = true -> NoDup names.
Proof.
  induction names as [| n rest IH]; [constructor |].
  cbn [distinctNames]. rewrite andb_true_iff, negb_true_iff. intros [Hn Hr].
  constructor; [| apply IH; exact Hr].
  intros Hin. assert (existsb (String.eqb n) rest = true) as C.
  { apply existsb_exists. exists n. split; [exact Hin | apply String.eqb_refl]. }
  congruence.
Qed.

Lemma ampEntry_registered r f :
  ampFill f -> aSideEntry r f \/ cSideEntry r f ->
  registeredFill (ft0Init.init []) f = true.
Proof.
  intros Hn Hv. destruct f as [n vals]. unfold ampFill in Hn. cbn [h_name] in Hn.
  assert (List.length vals = 2%nat) as L.
  { destruct Hv as [(raw & amp & _ & E) | (raw & amp & _ & E)];
      cbn in E; rewrite E; reflexivity. }
  unfold registeredFill. cbn [h_name h_values]. rewrite L.
  destruct Hn as [-> | ->]; reflexivity.
Qed.

Lemma processRecord_registered r :
  ensures (appendsOnly (fun f => registeredFill (ft0Init.init []) f = true))
          anyAbort (processRecord r).
Proof.
  unfold processRecord. cbv zeta.
  appends_step (fun f => registeredFill (ft0Init.init []) f = true).
  { eapply ensures_weaken; [| apply loopA_appends].
    intros s s'. apply appendsOnly_mono. intros f [H1 H2].
    apply (ampEntry_registered r); auto. }
  appends_step (fun f => registeredFill (ft0Init.init []) f = true).
  { eapply ensures_weaken; [| apply loopC_appends].
    intros s s'. apply appendsOnly_mono. intros f [H1 H2].
    apply (ampEntry_registered r); auto. }
  repeat (appends_step (fun f => registeredFill (ft0Init.init []) f = true));
    reflexivity.
Qed.

(** [init] adds no histogram twice and gives each one axis per dimension,
    and every fill that [process] makes names a histogram that [init] added,
    with one value per dimension. *)
Theorem ft0_fills_registered :
  wellRegistered (ft0Init.init []) /\
  forall (entries : list ft0.t) (st : ft0Task.t),
    Forall (fun f => registeredFill (ft0Init.init []) f = true)
           (newFills st (outcome_state (process entries st))).
Proof.
  split.
  - split.
    + apply distinctNames_NoDup. vm_compute. reflexivity.
    + repeat constructor.
  - intros entries st. apply newFills_appends. apply (ensures_outcome _ anyAbort).
    apply process_forall. apply processRecord_registered.
Qed.

End ft0More.

(* ===================================================================== *)
(** * Further properties of CFFilterQA *)
(* ===================================================================== *)

Import ft0Props.

Lemma extends_refl {S X} (f : S -> list X) (P : X -> Prop) : forall s, extends f P s s.
Proof. intros s. exists []. split; [symmetry; apply app_nil_r | constructor]. Qed.

Lemma extends_trans {S X} (f : S -> list X) (P : X -> Prop) :
  forall a b c, extends f P a b -> extends f P b c -> extends f P a c.
Proof.
  intros a b c (n1 & H1 & F1) (n2 & H2 & F2). exists (n1 ++ n2)%list. split.
  - rewrite H2, H1. symmetry. apply app_assoc.
  - apply Forall_app; auto.
Qed.

Lemma extends_kept {S X} (f : S -> list X) (P : X -> Prop) (s s' : S) :
  f s' = f s -> extends f P s s'.
Proof. intros H. exists []. split; [rewrite app_nil_r; exact H | constructor]. Qed.

Lemma extends_new {S X} (f : S -> list X) (P : X -> Prop) (s s' : S) :
  extends f P s s' -> Forall P (skipn (List.length (f s)) (f s')).
Proof.
  intros (new & H & F). rewrite H, skipn_app, skipn_all, Nat.sub_diag. exact F.
Qed.

Section Registry.
Variable P : Fill -> Prop.
Variable E : Abort -> Prop.

Lemma fill_extends name vals :
  P {| h_name := name; h_values := vals |} ->
  ensures (extends registry P) E (fill name vals).
Proof.
  intros H st. unfold fill, modify. exists [{| h_name := name; h_values := vals |}].
  split; [destruct st; reflexivity | constructor; [exact H | constructor]].
Qed.

Lemma modify_registry_kept (g : CFFilterQA -> CFFilterQA) :
  (forall st, registry (g st) = registry st) ->
  ensures (extends registry P) E (modify g).
Proof. intros H st. unfold modify. apply extends_kept. apply H. Qed.
End Registry.

(** One step of a proof that a member function only adds fills that satisfy
    [P] to the registry. *)
Ltac registry_step P :=
  lazymatch goal with
  | |- ensures _ _ (bind _ _) =>
      apply (ensures_bind (extends registry P) anyAbort (extends_trans registry P));
      [ | intros ]
  | |- ensures _ _ (ret _) =>
      apply (ensures_ret (extends registry P) anyAbort (extends_refl registry P))
  | |- ensures _ _ this =>
      apply (ensures_this (extends registry P) anyAbort (extends_refl registry P))
  | |- ensures _ _ (when _ _) =>
      apply (ensures_when (extends registry P) anyAbort (extends_refl registry P))
  | |- ensures _ _ (fatal _) =>
      apply (ensures_fatal (extends registry P) anyAbort (extends_refl registry P));
      exact I
  | |- ensures _ _ (call _) =>
      apply (ensures_call (extends registry P) anyAbort (extends_refl registry P));
      intros; apply res_allowed_any
  | |- ensures _ _ (forEach _ _) =>
      apply (ensures_forEach (extends registry P) anyAbort
               (extends_refl registry P) (extends_trans registry P)); intros
  | |- ensures _ _ (modify _) =>
      apply modify_registry_kept; intros;
      match goal with s : CFFilterQA |- _ => destruct s end; reflexivity
  | |- ensures _ _ (if _ then _ else _) =>
      apply (ensures_if (extends registry P) anyAbort)
  | |- ensures _ _ (match ?x with _ => _ end) => destruct x
  end.

Lemma process_registered aleph ccdb c tracks :
  ensures (extends registry (fun f => registeredFill cfRegistry f = true)) anyAbort
          (process aleph ccdb c tracks).
Proof.
  unfold process, reloadBB, reloadVectors, fetchPair, setValuesBB, processEvent,
    processTrack, fillSelected, fillCombined, appendParticle, appendCollision.
  cbv zeta.
  repeat first
    [ lazymatch goal with
      | |- ensures _ _ (fill _ _) => apply fill_extends; vm_compute; reflexivity
      end
    | registry_step (fun f => registeredFill cfRegistry f = true) ].
Qed.

(** [init] adds no histogram twice and gives each one axis per dimension,
    and every fill that [process] makes, whether it returns or aborts, names
    a histogram that [init] added, with one value per dimension. *)
Theorem cf_fills_registered :
  wellRegistered cfRegistry /\
  forall aleph ccdb c tracks st,
    Forall (fun f => registeredFill cfRegistry f = true)
           (newRegistryFills st (outcome_state (process aleph ccdb c tracks st))).
Proof.
  split.
  - split.
    + apply ft0More.distinctNames_NoDup. vm_compute. reflexivity.
    + repeat constructor.
  - intros aleph ccdb c tracks st. unfold newRegistryFills.
    apply (extends_new registry).
    apply (ensures_outcome _ anyAbort). apply process_registered.
Qed.

(** ** Predicates: error and edge behaviour *)

Lemma flt_asym (a b : spec_float) : flt a b = true -> flt b a = false.
Proof.
  unfold flt, SFltb. rewrite (SFcompare_antisym a b).
  destruct (SFcompare a b) as [[| |]|]; simpl; congruence.
Qed.




(** [isSelectedTrackPID] returns for protons and deuterons only: for Lambda
    and for the enumerator kNParticleSpecies it never returns a boolean, and
    for Lambda, once "P thres" is found, it ends in the fatal error "No PID
    selection for Lambdas". *)
Theorem isSelectedTrackPID_other_species aleph :
  (forall st trk rej nSigmaTPC charge b,
      isSelectedTrackPID aleph st trk kLambda rej nSigmaTPC charge <> Ok b) /\
  (forall st trk rej nSigmaTPC charge b,
      isSelectedTrackPID aleph st trk kNParticleSpecies rej nSigmaTPC charge <> Ok b) /\
  (forall st trk rej nSigmaTPC charge pThresCut,
      get_is (ConfPtCuts (conf st)) (speciesIndex kLambda) "P thres" = Ok pThresCut ->
      isSelectedTrackPID aleph st trk kLambda rej nSigmaTPC charge
      = Fatal "No PID selection for Lambdas").
Proof.
  repeat split.
  - intros st trk rej n charge b E.
    unfold isSelectedTrackPID, momentumBelowThreshold, pidNSigma in E.
    destruct (get_is (ConfPtCuts (conf st)) (speciesIndex kLambda) "P thres");
      cbn [rbind] in E; discriminate E.
  - intros st trk rej n charge b E.
    unfold isSelectedTrackPID, momentumBelowThreshold, pidNSigma in E.
    destruct (get_is (ConfPtCuts (conf st)) (speciesIndex kNParticleSpecies) "P thres");
      cbn [rbind] in E; discriminate E.
  - intros st trk rej n charge p H.
    unfold isSelectedTrackPID, momentumBelowThreshold, pidNSigma.
    rewrite H. reflexivity.
Qed.

Lemma withinRejection_empty st r x bound :
  get_ii (ConfPIDRejection (conf st)) (rejectionIndex r) (limitIndex kTPCMin) = Ok bound ->
  get_ii (ConfPIDRejection (conf st)) (rejectionIndex r) (limitIndex kTPCMax) = Ok bound ->
  withinRejection st r x = Ok false.
Proof.
  intros Hlo Hhi. unfold withinRejection. rewrite Hlo. cbn [rbind].
  destruct (flt (f64_of_f32 bound) x) eqn:L; [| reflexivity].
  rewrite Hhi. cbn [rbind].
  change (fgt (f64_of_f32 bound) x) with (flt x (f64_of_f32 bound)).
  rewrite (flt_asym _ _ L). reflexivity.
Qed.

Section ElectronWindow.
Variable aleph : AlephFn.

Lemma rejectionNSigmaEl_returns st trk charge :
  exists v, rejectionNSigmaEl aleph st trk charge = Ok v.
Proof.
  unfold rejectionNSigmaEl.
  destruct (ConfUseManualPIDel (conf st)); [| eexists; reflexivity]. cbv zeta.
  destruct ((List.length (BBElectron st) =? 6)%nat && (charge <? 0)) eqn:E1.
  - apply andb_prop in E1 as [L _]. apply Nat.eqb_eq in L.
    destruct (updatePID_six aleph trk
                (f64_of_f32 (f32_div (f32_of_int 1) (mMassElectron st))) _ L) as [v ->].
    cbn [rbind].
    destruct ((List.length (BBAntielectron st) =? 6)%nat && (charge >? 0)) eqn:E2;
      [| eexists; reflexivity].
    apply andb_prop in E2 as [L2 _]. apply Nat.eqb_eq in L2.
    apply updatePID_six. exact L2.
  - cbn [rbind].
    destruct ((List.length (BBAntielectron st) =? 6)%nat && (charge >? 0)) eqn:E2;
      [| eexists; reflexivity].
    apply andb_prop in E2 as [L2 _]. apply Nat.eqb_eq in L2.
    apply updatePID_six. exact L2.
Qed.

(** With an empty electron window, the rejection is decided by the proton
    and the pion window alone. *)
Lemma rejectedAsOther_without_electron st trk n charge :
  electronWindowEmpty (conf st) ->
  rejectedAsOther aleph st trk n charge
  = (nSigmaPi <-- rejectionNSigmaPi aleph st trk charge ;;
     isPr <-- withinRejection st kRejProton (fst n) ;;
     if isPr then Ok true else withinRejection st kRejPion nSigmaPi).
Proof.
  intros (bound & Hlo & Hhi). unfold rejectedAsOther.
  destruct (rejectionNSigmaPi aleph st trk charge) as [nSigmaPi | |]; cbn [rbind];
    try reflexivity.
  destruct (rejectionNSigmaEl_returns st trk charge) as [v ->]. cbn [rbind].
  destruct (withinRejection st kRejProton (fst n)) as [[|] | |]; cbn [rbind];
    try reflexivity.
  rewrite (withinRejection_empty st kRejElectron v bound Hlo Hhi).
  destruct (withinRejection st kRejPion nSigmaPi) as [[|] | |]; reflexivity.
Qed.

(** When the electron row of the rejection table has equal bounds, as in the
    declared table whose third row is zero-initialised, the electron window
    is empty and [isSelectedTrackPID] with Rejection on looks at nothing
    electron-related: neither the track's electron nSigma, nor the electron
    Bethe-Bloch vectors of the task, nor the manual electron PID they feed,
    changes its result. *)
Theorem electron_rejection_inert (st : CFFilterQA) (trk : Track)
    (s : ParticleSpecies) (n : double * double) (charge : Z) :
  electronWindowEmpty (conf st) ->
  (forall x,
      isSelectedTrackPID aleph st (withElectronNSigma x trk) s true n charge
      = isSelectedTrackPID aleph st trk s true n charge) /\
  (forall v w,
      isSelectedTrackPID aleph (set_BBElectron v (set_BBAntielectron w st)) trk s true n charge
      = isSelectedTrackPID aleph st trk s true n charge).
Proof.
  intros H. split.
  - intros x. unfold isSelectedTrackPID.
    rewrite !rejectedAsOther_without_electron by exact H.
    destruct trk; reflexivity.
  - intros v w. unfold isSelectedTrackPID.
    rewrite !rejectedAsOther_without_electron
      by (try exact H; destruct st; exact H).
    destruct st; reflexivity.
Qed.

End ElectronWindow.

Lemma electron_rejection_inert_witness :
  isSelectedTrackPID sampleAleph sampleTask (withElectronNSigma (f32_of_int 1) goodTrack)
    kDeuteron true (f64_zero, f64_of_int 3) 1
  = isSelectedTrackPID sampleAleph sampleTask goodTrack kDeuteron true
      (f64_zero, f64_of_int 3) 1.
Proof.
  apply (proj1 (electron_rejection_inert sampleAleph sampleTask goodTrack kDeuteron
                  (f64_zero, f64_of_int 3) 1
                  (ex_intro _ (f32_of_int 0) (conj eq_refl eq_refl)))).
Defined.

(** ** A zero resolution *)

(** Case analysis on the calls of [H], innermost first: each returned a
    value, or [H] is absurd. *)
Ltac run_calls H :=
  repeat match type of H with
         | context [rbind ?r _] =>
             lazymatch r with
             | context [rbind _ _] => fail
             | Ok _ => fail
             | _ => destruct r; cbn [rbind] in H; try discriminate H
             end
         end.

Section ZeroResolution.
Variable aleph : AlephFn.

Lemma updatePID_zero trk bg b0 b1 b2 b3 b4 s :
  exists v, updatePID aleph trk bg [b0; b1; b2; b3; b4; S754_zero s] = Ok v /\
            notFinite v.
Proof.
  unfold updatePID. cbn [vec_at nth_error rbind].
  set (e := aleph _ b0 b1 b2 b3 b4).
  set (n := f64_sub _ e).
  eexists. split; [reflexivity |].
  assert (f64_mul e (S754_zero s) = S754_nan
          \/ exists sg, f64_mul e (S754_zero s) = S754_zero sg) as [-> | [sg ->]].
  { destruct e; simpl; eauto. }
  - left. destruct n; reflexivity.
  - unfold notFinite. destruct n; simpl; eauto.
Qed.

Lemma flt_not_below_plus_inf_nan x y :
  x = S754_nan \/ x = S754_infinity false -> flt x y = false.
Proof. intros [-> | ->]; destruct y as [| [|] | |]; reflexivity. Qed.

Lemma window_notFinite (x lo hi : spec_float) :
  notFinite x -> fgt x lo && flt x hi = false.
Proof.
  intros [-> | [[|] ->]].
  - destruct lo; reflexivity.
  - destruct lo as [| [|] | |]; reflexivity.
  - destruct lo as [| [|] | |], hi as [| [|] | |]; reflexivity.
Qed.

Lemma f32_of_f64_notFinite x : notFinite x -> notFinite (f32_of_f64 x).
Proof. intros [-> | [s ->]]; [left | right; exists s]; reflexivity. Qed.

Lemma combined_notFinite x avgTPC tof avgTOF :
  notFinite x ->
  combinedNSigma x avgTPC tof avgTOF = S754_nan
  \/ combinedNSigma x avgTPC tof avgTOF = S754_infinity false.
Proof.
  intros Hx. unfold combinedNSigma, combinedNSigma64, f64_pow2.
  set (t := f64_mul (f64_of_f32 (f32_sub tof avgTOF)) _).
  assert (notFinite (f64_sub x (f64_of_f32 avgTPC))) as Hd.
  { unfold notFinite. destruct Hx as [-> | [s ->]]; [left; reflexivity |].
    unfold f64_sub. destruct (f64_of_f32 avgTPC) as [| [|] | |]; destruct s; simpl; eauto. }
  assert (f64_mul (f64_sub x (f64_of_f32 avgTPC)) (f64_sub x (f64_of_f32 avgTPC)) = S754_nan
          \/ f64_mul (f64_sub x (f64_of_f32 avgTPC)) (f64_sub x (f64_of_f32 avgTPC))
             = S754_infinity false) as Hq.
  { destruct Hd as [-> | [s ->]]; [left; reflexivity | right].
    simpl. destruct s; reflexivity. }
  destruct Hq as [-> | ->].
  - left. reflexivity.
  - destruct t as [| [|] | |]; simpl; auto.
Qed.

Lemma pid_notFinite st trk x y charge :
  notFinite x ->
  isSelectedTrackPID aleph st trk kProton false (x, y) charge <> Ok true.
Proof.
  intros Hx E.
  unfold isSelectedTrackPID, momentumBelowThreshold, pidNSigma in E.
  destruct (get_is (ConfPtCuts (conf st)) (speciesIndex kProton) "P thres") as [p | |];
    cbn [rbind] in E; try discriminate E.
  destruct (fle (track.tpcInnerParam trk) p); cbn [rbind fst] in E.
  - run_calls E.
    rewrite (window_notFinite _ _ _ (f32_of_f64_notFinite _ Hx)) in E. discriminate E.
  - cbv zeta in E. run_calls E.
    rewrite (flt_not_below_plus_inf_nan _ _ (combined_notFinite x _ _ _ Hx)) in E.
    discriminate E.
Qed.

(** If the "Resolution" entry of the loaded proton vector is zero, the
    corrected nSigma of the track loop is infinite or NaN and the proton PID
    accepts no track, whatever the Bethe-Bloch function returns; likewise for
    the antiproton vector. *)
Theorem zero_resolution_rejects :
  (forall st trk b0 b1 b2 b3 b4 s nS,
      ConfUseManualPIDproton (conf st) = true ->
      BBProton st = [b0; b1; b2; b3; b4; S754_zero s] ->
      nTPCSigma aleph st trk = Ok nS ->
      notFinite (fst (fst nS)) /\
      isSelectedTrackPID aleph st trk kProton false (fst nS) 1 <> Ok true) /\
  (forall st trk b0 b1 b2 b3 b4 s nS,
      ConfUseManualPIDproton (conf st) = true ->
      BBAntiproton st = [b0; b1; b2; b3; b4; S754_zero s] ->
      nTPCSigma aleph st trk = Ok nS ->
      notFinite (fst (snd nS)) /\
      isSelectedTrackPID aleph st trk kProton false (snd nS) (-1) <> Ok true).
Proof.
  split; intros st trk b0 b1 b2 b3 b4 s nS Hm Hb H.
  - assert (notFinite (fst (fst nS))) as N.
    { unfold nTPCSigma in H. cbv zeta in H. rewrite Hm, Hb in H.
      cbn [List.length Nat.eqb] in H.
      destruct (updatePID_zero trk
                  (f64_of_f32 (f32_div (f32_of_int 1) (mMassProton st)))
                  b0 b1 b2 b3 b4 s) as (v & Hv & Nv).
      rewrite Hv in H.
      destruct (ConfUseManualPIDdeuteron (conf st));
        repeat match type of H with
               | context [if (?n =? 6)%nat then _ else _] => destruct (n =? 6)%nat
               end;
        run_calls H; injection H as <-; exact Nv. }
    split; [exact N |]. destruct nS as [[x y] nN]. apply pid_notFinite. exact N.
  - assert (notFinite (fst (snd nS))) as N.
    { unfold nTPCSigma in H. cbv zeta in H. rewrite Hm, Hb in H.
      cbn [List.length Nat.eqb] in H.
      destruct (updatePID_zero trk
                  (f64_of_f32 (f32_div (f32_of_int 1) (mMassProton st)))
                  b0 b1 b2 b3 b4 s) as (v & Hv & Nv).
      rewrite Hv in H.
      destruct (ConfUseManualPIDdeuteron (conf st));
        repeat match type of H with
               | context [if (?n =? 6)%nat then _ else _] => destruct (n =? 6)%nat
               end;
        run_calls H; injection H as <-; exact Nv. }
    split; [exact N |]. destruct nS as [nP [x y]]. apply pid_notFinite. exact N.
Qed.
End ZeroResolution.

(** The sample conditions database holds a zero resolution at timestamp 2:
    after the reload the sample track's corrected nSigma is not finite and
    the proton PID rejects it. *)
Lemma zero_resolution_rejects_witness :
  exists nS,
    nTPCSigma sampleAleph
      (stateAtTrackLoop sampleCCDB (sampleCollision f32_zero 1 2) protonTask) goodTrack
    = Ok nS /\
    notFinite (fst (fst nS)) /\
    isSelectedTrackPID sampleAleph
      (stateAtTrackLoop sampleCCDB (sampleCollision f32_zero 1 2) protonTask) goodTrack
      kProton false (fst nS) 1 <> Ok true.
Proof.
  eexists. split; [vm_compute; reflexivity |].
  apply (proj1 (zero_resolution_rejects sampleAleph)
           (stateAtTrackLoop sampleCCDB (sampleCollision f32_zero 1 2) protonTask)
           goodTrack (f64_of_int 1) (f64_of_int 1) (f64_of_int 1) (f64_of_int 1)
           (f64_of_int 1) false);
    vm_compute; reflexivity.
Defined.

(** ** V0 daughters *)

(** For a pion or proton daughter with numeric inputs and the two PID bounds
    at hand, [isSelectedV0Daughter] returns, and it returns true if and only
    if the charge and the track's sign agree, |eta| <= ConfDaughEta,
    tpcNClsFound >= ConfDaughTPCnclsMin, |dcaXY| >= ConfDaughDCAMin and the
    daughter's nSigma lies between "TPC min" and "TPC max", bounds
    included. *)
Theorem isSelectedV0Daughter_iff (st : CFFilterQA) (trk : Track) (charge : float)
    (species : V0Daughters) (nSigmaTPCDaug : double * double) (tpcMin tpcMax : float) :
  species = kDaughPion \/ species = kDaughProton ->
  get_is (ConfDaughPIDCuts (conf st)) (daughterIndex species) "TPC min" = Ok tpcMin ->
  get_is (ConfDaughPIDCuts (conf st)) (daughterIndex species) "TPC max" = Ok tpcMax ->
  numericDaughter (conf st) trk (daughterNSigma species nSigmaTPCDaug) tpcMin tpcMax ->
  exists b,
    isSelectedV0Daughter st trk charge species nSigmaTPCDaug = Ok b /\
    (b = true <->
     v0DaughterCuts (conf st) trk charge (daughterNSigma species nSigmaTPCDaug)
                    tpcMin tpcMax).
Proof.
  intros Hs Hmin Hmax (Neta & Nxy & Nn & Ceta & Cn & Cd & Nlo & Nhi).
  unfold isSelectedV0Daughter. cbv zeta.
  destruct (flt charge (f32_of_int 0) && (track.sign trk >? 0)) eqn:T1.
  { eexists; split; [reflexivity |]. split; [discriminate |].
    intros (C & _). apply andb_prop in T1. destruct T1 as [A B].
    rewrite (C A) in B. discriminate B. }
  destruct (fgt charge (f32_of_int 0) && (track.sign trk <? 0)) eqn:T2.
  { eexists; split; [reflexivity |]. split; [discriminate |].
    intros (_ & C & _). apply andb_prop in T2. destruct T2 as [A B].
    rewrite (C A) in B. discriminate B. }
  destruct (fgt (fabs (track.eta trk)) (ConfDaughEta (conf st))) eqn:T3.
  { eexists; split; [reflexivity |]. split; [discriminate |].
    intros (_ & _ & C & _). exfalso. exact (fgt_fle_contra _ _ T3 C). }
  destruct (flt (f32_of_int (track.tpcNClsFound trk)) (ConfDaughTPCnclsMin (conf st))) eqn:T4.
  { eexists; split; [reflexivity |]. split; [discriminate |].
    intros (_ & _ & _ & C & _). exfalso. exact (flt_fge_contra _ _ T4 C). }
  destruct (flt (fabs (track.dcaXY trk)) (ConfDaughDCAMin (conf st))) eqn:T5.
  { eexists; split; [reflexivity |]. split; [discriminate |].
    intros (_ & _ & _ & _ & C & _). exfalso. exact (flt_fge_contra _ _ T5 C). }
  assert (match species with
          | kDaughPion => Ok (snd nSigmaTPCDaug)
          | kDaughProton => Ok (fst nSigmaTPCDaug)
          | kNV0Daughters => Fatal "Particle species for V0 daughters not found"
          end = Ok (daughterNSigma species nSigmaTPCDaug)) as ->
    by (destruct Hs as [-> | ->]; reflexivity).
  cbn [rbind]. rewrite Hmin. cbn [rbind].
  set (x := daughterNSigma species nSigmaTPCDaug) in *.
  destruct (flt x (f64_of_f32 tpcMin)) eqn:T6.
  { eexists; split; [reflexivity |]. split; [discriminate |].
    intros (_ & _ & _ & _ & _ & C & _). exfalso. exact (flt_fge_contra _ _ T6 C). }
  rewrite Hmax. cbn [rbind].
  destruct (fgt x (f64_of_f32 tpcMax)) eqn:T7.
  { eexists; split; [reflexivity |]. split; [discriminate |].
    intros (_ & _ & _ & _ & _ & _ & C). exfalso. exact (fgt_fle_contra _ _ T7 C). }
  eexists; split; [reflexivity |]. split; [intros _ | reflexivity].
  unfold v0DaughterCuts. repeat match goal with |- _ /\ _ => split end.
  - intros A. rewrite A in T1. exact T1.
  - intros A. rewrite A in T2. exact T2.
  - apply fgt_false_fle; rewrite ?is_nan_fabs; assumption.
  - apply flt_false_fge; auto using is_nan_f32_of_int.
  - apply flt_false_fge; rewrite ?is_nan_fabs; assumption.
  - apply flt_false_fge; rewrite ?is_nan_f64_of_f32; assumption.
  - apply fgt_false_fle; rewrite ?is_nan_f64_of_f32; assumption.
Qed.

Lemma isSelectedV0Daughter_iff_witness :
  exists b,
    isSelectedV0Daughter sampleTask goodTrack (f32_of_int 1) kDaughProton
      (f64_of_int 1, f64_of_int 2) = Ok b /\
    (b = true <->
     v0DaughterCuts (conf sampleTask) goodTrack (f32_of_int 1) (f64_of_int 1)
                    (f32_of_int (-6)) (f32_of_int 6)).
Proof.
  apply (isSelectedV0Daughter_iff sampleTask goodTrack (f32_of_int 1) kDaughProton
           (f64_of_int 1, f64_of_int 2) (f32_of_int (-6)) (f32_of_int 6));
    [right; reflexivity | reflexivity | reflexivity
    | vm_compute; repeat split; reflexivity].
Defined.

(** ** The reload of the Bethe-Bloch vectors *)

Section Reload.
Variable aleph : AlephFn.
Variable ccdb : CCDB.
Variable c : Collision.

Lemma ccdbApi_set_ccdbApi l st : ccdbApi (set_ccdbApi l st) = l.
Proof. destruct st; reflexivity. Qed.

Lemma kept_set_ccdbApi l st : reloadKept (set_ccdbApi l st) = reloadKept st.
Proof. destruct st; reflexivity. Qed.

Lemma fetchPair_effect (I : CFFilterQA -> Prop) (on : bool) path antiPath
    (set setAnti : list double -> CFFilterQA -> CFFilterQA) :
  (forall v st, sized v -> I st -> I (set v st)) ->
  (forall v st, sized v -> I st -> I (setAnti v st)) ->
  (forall l st, I st -> I (set_ccdbApi l st)) ->
  (forall v st, ccdbApi (set v st) = ccdbApi st /\ reloadKept (set v st) = reloadKept st) ->
  (forall v st, ccdbApi (setAnti v st) = ccdbApi st /\ reloadKept (setAnti v st) = reloadKept st) ->
  forall st, I st ->
    exists st',
      when on (fetchPair ccdb c path antiPath set setAnti) st = Done tt st' /\
      ccdbApi st' = (ccdbApi st ++ pairRequests on path antiPath (col.bc_timestamp c))%list /\
      reloadKept st' = reloadKept st /\ I st'.
Proof.
  intros Hs Ha Hc Fs Fa st Hst. destruct on; cbn [when pairRequests].
  2:{ exists st. rewrite app_nil_r. auto. }
  unfold fetchPair. unfold bind at 1. rewrite setValuesBB_run.
  unfold bind at 1. unfold modify at 1. unfold bind at 1. rewrite setValuesBB_run.
  unfold modify.
  assert (forall o : option TH1F,
            sized match o with
                  | None => []
                  | Some h => [h "bb1"; h "bb2"; h "bb3"; h "bb4"; h "bb5"; h "Resolution"]
                  end) as Sz
    by (intros [h |]; [right | left]; reflexivity).
  eexists. split; [reflexivity |]. split; [| split].
  - rewrite (proj1 (Fa _ _)), ccdbApi_set_ccdbApi, (proj1 (Fs _ _)), ccdbApi_set_ccdbApi.
    rewrite <- app_assoc. reflexivity.
  - rewrite (proj2 (Fa _ _)), kept_set_ccdbApi, (proj2 (Fs _ _)), kept_set_ccdbApi.
    reflexivity.
  - apply Ha; [apply Sz |]. apply Hc. apply Hs; [apply Sz |]. apply Hc. exact Hst.
Qed.

Ltac setter_frame :=
  intros;
  repeat match goal with
         | s : CFFilterQA |- _ => destruct s
         | H : sizedVectors _ |- _ => unfold sizedVectors in H; cbn in H
         end;
  unfold sizedVectors; cbn; tauto.

Lemma reloadVectors_effect (sizedOnly : bool) st :
  (if sizedOnly then sizedVectors st else True) ->
  exists st',
    reloadVectors ccdb c (conf st) st = Done tt st' /\
    ccdbApi st' = (ccdbApi st ++ reloadRequests (conf st) (col.bc_timestamp c))%list /\
    reloadKept st' = reloadKept st /\
    (if sizedOnly then sizedVectors st' else True).
Proof.
  intros Hst. unfold reloadVectors, reloadRequests.
  set (cfg := conf st). clearbody cfg.
  set (I := fun s : CFFilterQA => if sizedOnly then sizedVectors s else True).
  change (I st) in Hst. change (if sizedOnly then sizedVectors ?s else True) with (I s).
  assert (forall l s, I s -> I (set_ccdbApi l s)) as Hc
    by (unfold I; destruct sizedOnly; [setter_frame | auto]).
  destruct (fetchPair_effect I
              (ConfUseManualPIDproton cfg || ConfUseManualPIDdaughterProton cfg)
              (ConfPIDBBProton cfg) (ConfPIDBBAntiProton cfg)
              set_BBProton set_BBAntiproton) with (st := st)
    as (s1 & R1 & A1 & K1 & I1); try exact Hst; try exact Hc;
    try (unfold I; destruct sizedOnly; [setter_frame | auto]);
    try (intros v s; destruct s; split; reflexivity).
  destruct (fetchPair_effect I (ConfUseManualPIDdeuteron cfg)
              (ConfPIDBBDeuteron cfg) (ConfPIDBBAntiDeuteron cfg)
              set_BBDeuteron set_BBAntideuteron) with (st := s1)
    as (s2 & R2 & A2 & K2 & I2); try exact I1; try exact Hc;
    try (unfold I; destruct sizedOnly; [setter_frame | auto]);
    try (intros v s; destruct s; split; reflexivity).
  destruct (fetchPair_effect I
              (ConfUseManualPIDpion cfg || ConfUseManualPIDdaughterPion cfg)
              (ConfPIDBBPion cfg) (ConfPIDBBAntiPion cfg)
              set_BBPion set_BBAntipion) with (st := s2)
    as (s3 & R3 & A3 & K3 & I3); try exact I2; try exact Hc;
    try (unfold I; destruct sizedOnly; [setter_frame | auto]);
    try (intros v s; destruct s; split; reflexivity).
  destruct (fetchPair_effect I (ConfUseManualPIDpion cfg)
              (ConfPIDBBElectron cfg) (ConfPIDBBAntiElectron cfg)
              set_BBElectron set_BBAntielectron) with (st := s3)
    as (s4 & R4 & A4 & K4 & I4); try exact I3; try exact Hc;
    try (unfold I; destruct sizedOnly; [setter_frame | auto]);
    try (intros v s; destruct s; split; reflexivity).
  exists s4. split.
  - rewrite (bind_done _ _ _ _ _ R1), (bind_done _ _ _ _ _ R2), (bind_done _ _ _ _ _ R3).
    exact R4.
  - split; [| split; [congruence | exact I4]].
    rewrite A4, A3, A2, A1, <- !app_assoc. reflexivity.
Qed.

Lemma reloadBB_effect (sizedOnly : bool) st :
  (if sizedOnly then sizedVectors st else True) ->
  exists st',
    reloadBB ccdb c st = Done tt st' /\
    ccdbApi st'
    = (ccdbApi st ++ if reloads st c
                     then reloadRequests (conf st) (col.bc_timestamp c) else [])%list /\
    conf st' = conf st /\
    (ConfUseManualPIDproton (conf st) || ConfUseManualPIDdeuteron (conf st) = true ->
     currentRunNumber st' = col.bc_runNumber c /\
     lastRunNumber st' = col.bc_runNumber c) /\
    (ConfUseManualPIDproton (conf st) || ConfUseManualPIDdeuteron (conf st) = false ->
     st' = st) /\
    (if sizedOnly then sizedVectors st' else True).
Proof.
  intros Hst. unfold reloadBB, reloads. unfold bind at 1. unfold this at 1.
  destruct (ConfUseManualPIDproton (conf st) || ConfUseManualPIDdeuteron (conf st)) eqn:M;
    cbn [when andb].
  2:{ exists st. split; [reflexivity |]. split; [rewrite app_nil_r; reflexivity |].
      split; [reflexivity |]. split; [discriminate |]. split; [reflexivity | exact Hst]. }
  unfold bind at 1. unfold modify at 1. unfold bind at 1. unfold this at 1.
  set (s1 := set_currentRunNumber (col.bc_runNumber c) st).
  assert (conf s1 = conf st /\ ccdbApi s1 = ccdbApi st /\
          currentRunNumber s1 = col.bc_runNumber c /\
          lastRunNumber s1 = lastRunNumber st) as (C1 & A1 & N1 & L1)
    by (unfold s1; destruct st; repeat split; reflexivity).
  assert (if sizedOnly then sizedVectors s1 else True) as I1.
  { destruct sizedOnly; [| exact I]. unfold s1. destruct st. exact Hst. }
  rewrite N1, L1.
  destruct (col.bc_runNumber c =? lastRunNumber st) eqn:Same; cbn [negb when].
  - exists s1. apply Z.eqb_eq in Same.
    split; [reflexivity |]. split; [rewrite app_nil_r; exact A1 |].
    split; [exact C1 |]. split; [intros _; split; congruence |].
    split; [discriminate | exact I1].
  - destruct (reloadVectors_effect sizedOnly s1 I1) as (s4 & R & A4 & K4 & I4).
    rewrite (bind_done _ _ _ _ _ R). unfold bind, this, modify.
    injection K4 as K4c K4n K4l.
    eexists. split; [reflexivity |].
    assert (forall v s, conf (set_lastRunNumber v s) = conf s /\
                        ccdbApi (set_lastRunNumber v s) = ccdbApi s /\
                        currentRunNumber (set_lastRunNumber v s) = currentRunNumber s /\
                        lastRunNumber (set_lastRunNumber v s) = v) as F
      by (intros v s; destruct s; repeat split; reflexivity).
    destruct (F (currentRunNumber s4) s4) as (Fc & Fa & Fn & Fl).
    split; [rewrite Fa, A4, A1, C1; reflexivity |].
    split; [congruence |]. split; [intros _; split; congruence |].
    split; [discriminate |].
    destruct sizedOnly; [| exact I]. destruct s4. exact I4.
Qed.

(** The conditions-database traffic of [process] in Run 3: when it reloads,
    it requests, in this order and at the collision's timestamp, the proton
    pair, the deuteron pair, the pion pair and the electron pair, each under
    its switches (the electron pair under ConfUseManualPIDpion); otherwise
    it requests nothing.  With manual proton or deuteron PID on, both cached
    run numbers are then the collision's run. *)
Theorem process_ccdb_requests (tracks : list Track) (st : CFFilterQA) :
  ConfIsRun3 (conf st) = true ->
  let st' := outcome_state (process aleph ccdb c tracks st) in
  ccdbApi st'
  = (ccdbApi st ++ if reloads st c
                   then reloadRequests (conf st) (col.bc_timestamp c) else [])%list /\
  (ConfUseManualPIDproton (conf st) || ConfUseManualPIDdeuteron (conf st) = true ->
   currentRunNumber st' = col.bc_runNumber c /\
   lastRunNumber st' = col.bc_runNumber c).
Proof.
  intros R3. cbv zeta. rewrite (process_run3 aleph ccdb c tracks st R3).
  destruct (reloadBB_effect false st I) as (s1 & R & A & _ & N & _ & _).
  rewrite (bind_done _ _ _ _ _ R).
  pose proof (ensures_outcome _ _ _ s1
                (processEvent_keeps aleph
                   (fun s => (ccdbApi s, currentRunNumber s, lastRunNumber s))
                   ltac:(field_frame) ltac:(field_frame) c tracks ltac:(field_frame)))
    as K.
  unfold keeps in K. injection K as Ka Kn Kl.
  split; [congruence |]. intros M. destruct (N M). split; congruence.
Qed.

(** Every Bethe-Bloch vector of the task is empty or has six entries: this
    holds for a fresh task and every call of [process] keeps it, whether it
    returns or aborts. *)
Theorem bethe_bloch_vectors_sized :
  (forall cfg, sizedVectors (newTask cfg)) /\
  (forall tracks st,
      sizedVectors st ->
      sizedVectors (outcome_state (process aleph ccdb c tracks st))).
Proof.
  split.
  - intros cfg. repeat split; left; reflexivity.
  - intros tracks st Hst.
    destruct (ConfIsRun3 (conf st)) eqn:R3.
    2:{ rewrite (process_run2 aleph ccdb c tracks st R3). exact Hst. }
    rewrite (process_run3 aleph ccdb c tracks st R3).
    destruct (reloadBB_effect true st Hst) as (s1 & R & _ & _ & _ & _ & I1).
    rewrite (bind_done _ _ _ _ _ R).
    pose proof (ensures_outcome _ _ _ s1
                  (processEvent_keeps aleph betheBlochOf
                     ltac:(field_frame) ltac:(field_frame) c tracks ltac:(field_frame)))
      as K.
    unfold keeps, betheBlochOf in K.
    injection K as K1 K2 K3 K4 K5 K6 K7 K8.
    unfold sizedVectors in *. rewrite K1, K2, K3, K4, K5, K6, K7, K8. exact I1.
Qed.
End Reload.

Lemma process_ccdb_requests_witness :
  ccdbApi (outcome_state
             (process sampleAleph sampleCCDB (sampleCollision f32_zero 1 2) [goodTrack]
                protonTask))
  = [("Users/l/lserksny/PIDProton", 2); ("Users/l/lserksny/PIDAntiProton", 2)].
Proof.
  apply (proj1 (process_ccdb_requests sampleAleph sampleCCDB (sampleCollision f32_zero 1 2)
                  [goodTrack] protonTask eq_refl)).
Defined.

(** ** Process returns *)

Section Total.
Context {S : Type}.
Variable I : S -> Prop.

Lemma total_ret {A} (a : A) : total I (ret a).
Proof. intros st H. exists a, st. auto. Qed.

Lemma total_this : total I this.
Proof. intros st H. exists st, st. auto. Qed.

Lemma total_bind {A B} (m : Task S A) (k : A -> Task S B) :
  total I m -> (forall a, total I (k a)) -> total I (bind m k).
Proof.
  intros Hm Hk st H. destruct (Hm st H) as (a & s1 & R1 & I1).
  destruct (Hk a s1 I1) as (b & s2 & R2 & I2).
  exists b, s2. unfold bind. rewrite R1. auto.
Qed.

Lemma total_modify (g : S -> S) : (forall st, I st -> I (g st)) -> total I (modify g).
Proof. intros Hg st H. exists tt, (g st). auto. Qed.

Lemma total_call {A} (f : S -> Res A) :
  (forall st, I st -> exists a, f st = Ok a) -> total I (call f).
Proof.
  intros Hf st H. destruct (Hf st H) as [a E]. exists a, st.
  unfold call, lift. rewrite E. auto.
Qed.

Lemma total_when (b : bool) (m : Task S unit) : total I m -> total I (when b m).
Proof. intros H. destruct b; [exact H | apply total_ret]. Qed.

Lemma total_if {A} (b : bool) (m1 m2 : Task S A) :
  total I m1 -> total I m2 -> total I (if b then m1 else m2).
Proof. destruct b; auto. Qed.

Lemma total_forEach {A} (xs : list A) (body : A -> Task S unit) :
  (forall x, total I (body x)) -> total I (forEach xs body).
Proof.
  intros H. induction xs as [| x xs IH]; cbn [forEach].
  - apply total_ret.
  - apply total_bind; [apply H | intros _; exact IH].
Qed.
End Total.

Lemma la_at_shape a d y x :
  declaredShape a d -> (exists v, la_at d y x = Ok v) -> exists v, la_at a y x = Ok v.
Proof.
  intros (Hc & _ & _ & Hl) [v Hv]. unfold la_at in *. rewrite Hc.
  destruct (nth_error (la_data d) (y * la_cols d + x)) eqn:E; [| discriminate].
  assert (y * la_cols d + x < List.length (la_data a))%nat as L
    by (rewrite Hl; apply nth_error_Some; congruence).
  apply nth_error_Some in L.
  destruct (nth_error (la_data a) (y * la_cols d + x)); [eauto | contradiction].
Qed.

Lemma get_ii_shape a d y x :
  declaredShape a d -> (exists v, get_ii d y x = Ok v) -> exists v, get_ii a y x = Ok v.
Proof. apply la_at_shape. Qed.

Lemma get_is_shape a d y x :
  declaredShape a d -> (exists v, get_is d y x = Ok v) -> exists v, get_is a y x = Ok v.
Proof.
  intros Hs [v Hv]. unfold get_is in *.
  destruct Hs as (Hc & Hr & Hl & Hn). rewrite Hl.
  destruct (label_index (la_labels_cols d) x); [| discriminate].
  apply (la_at_shape a d); [repeat split; assumption | eauto].
Qed.

Lemma get_si_shape a d y x :
  declaredShape a d -> (exists v, get_si d y x = Ok v) -> exists v, get_si a y x = Ok v.
Proof.
  intros Hs [v Hv]. unfold get_si in *.
  destruct Hs as (Hc & Hr & Hl & Hn). rewrite Hr.
  destruct (label_index (la_labels_rows d) y); [| discriminate].
  apply (la_at_shape a d); [repeat split; assumption | eauto].
Qed.

Lemma get_ss_shape a d y x :
  declaredShape a d -> (exists v, get_ss d y x = Ok v) -> exists v, get_ss a y x = Ok v.
Proof.
  intros Hs [v Hv]. unfold get_ss in *.
  destruct Hs as (Hc & Hr & Hl & Hn). rewrite Hr, Hl.
  destruct (label_index (la_labels_rows d) y); [| discriminate].
  destruct (label_index (la_labels_cols d) x); [| discriminate].
  apply (la_at_shape a d); [repeat split; assumption | eauto].
Qed.

(** Resolve the next table lookup of the goal with the declared shape
    [Hs]. *)
Ltac lookup_ok Hs :=
  match goal with
  | |- context [get_is ?a ?y ?x] =>
      let v := fresh "v" in let E := fresh "E" in
      destruct (get_is_shape a _ y x Hs ltac:(eexists; reflexivity)) as [v E];
      rewrite E; cbn [rbind]
  | |- context [get_si ?a ?y ?x] =>
      let v := fresh "v" in let E := fresh "E" in
      destruct (get_si_shape a _ y x Hs ltac:(eexists; reflexivity)) as [v E];
      rewrite E; cbn [rbind]
  | |- context [get_ss ?a ?y ?x] =>
      let v := fresh "v" in let E := fresh "E" in
      destruct (get_ss_shape a _ y x Hs ltac:(eexists; reflexivity)) as [v E];
      rewrite E; cbn [rbind]
  | |- context [get_ii ?a ?y ?x] =>
      let v := fresh "v" in let E := fresh "E" in
      destruct (get_ii_shape a _ y x Hs ltac:(eexists; reflexivity)) as [v E];
      rewrite E; cbn [rbind]
  end.

Lemma isSelectedTrack_proton_returns st trk :
  declaredTables (conf st) -> exists b, isSelectedTrack st trk kProton = Ok b.
Proof.
  intros (Hpt & Hn & _). unfold isSelectedTrack. cbv zeta.
  lookup_ok Hpt. destruct (flt _ _); [eauto |].
  lookup_ok Hpt. destruct (fgt _ _); [eauto |].
  destruct (fgt _ _); [eauto |].
  lookup_ok Hn.
  repeat match goal with
         | |- exists b, (if ?t then _ else _) = Ok b => destruct t; [eauto |]
         end.
  eauto.
Qed.

Section TotalProcess.
Variable aleph : AlephFn.

Lemma isSelectedTrackPID_proton_returns st trk nSigmaTPC charge :
  declaredTables (conf st) ->
  exists b, isSelectedTrackPID aleph st trk kProton false nSigmaTPC charge = Ok b.
Proof.
  intros (Hpt & _ & Hp & Ha & Hv).
  unfold isSelectedTrackPID, momentumBelowThreshold, pidNSigma, pidCut. cbv zeta.
  lookup_ok Hpt.
  destruct (fle (track.tpcInnerParam trk) v); cbn [rbind];
    destruct (charge >? 0);
    repeat first [lookup_ok Hp | lookup_ok Ha | lookup_ok Hv]; eauto.
Qed.

Lemma nTPCSigma_returns st trk : exists nS, nTPCSigma aleph st trk = Ok nS.
Proof.
  unfold nTPCSigma. cbv zeta.
  assert (forall bg BB nominal,
            exists v, (if (List.length BB =? 6)%nat then updatePID aleph trk bg BB
                       else Ok nominal) = Ok v) as U.
  { intros bg BB nominal. destruct (List.length BB =? 6)%nat eqn:L; [| eauto].
    apply updatePID_six. apply Nat.eqb_eq. exact L. }
  destruct (ConfUseManualPIDproton (conf st)), (ConfUseManualPIDdeuteron (conf st));
    repeat match goal with
           | |- context [rbind (if (List.length ?BB =? 6)%nat
                                then updatePID aleph trk ?bg ?BB else Ok ?n) _] =>
               let v := fresh "v" in let E := fresh "E" in
               destruct (U bg BB n) as [v E]; rewrite E; cbn [rbind]
           end;
    cbn [rbind]; eauto.
Qed.
End TotalProcess.

Section TotalProcess2.
Variable aleph : AlephFn.
Variable cfg : Config.
Hypothesis tables : declaredTables cfg.

(** One step of a proof that a member function returns when the tables have
    their declared shapes. *)
Ltac total_step :=
  lazymatch goal with
  | |- total _ (bind _ _) => apply total_bind; [ | intros ]
  | |- total _ (ret _) => apply total_ret
  | |- total _ (when _ _) => apply total_when
  | |- total _ (if _ then _ else _) => apply total_if
  | |- total _ (forEach _ _) => apply total_forEach; intros
  | |- total _ (fill _ _) =>
      apply total_modify; unfold configured; intros [] H; exact H
  | |- total _ (modify _) =>
      apply total_modify; unfold configured; intros [] H; exact H
  | |- total _ (call _) =>
      apply total_call; unfold configured; intros ? H;
      first [ eexists; reflexivity
            | apply nTPCSigma_returns
            | apply isSelectedTrack_proton_returns; rewrite H; exact tables
            | apply isSelectedTrackPID_proton_returns; rewrite H; exact tables
            | apply get_ss_shape with (d := ConfPIDTPCTOFAvg defaultConfig);
              [rewrite H; apply tables | eexists; reflexivity] ]
  end.

Lemma processEvent_total c tracks : total (configured cfg) (processEvent aleph c tracks).
Proof.
  unfold processEvent, processTrack, fillSelected, fillCombined,
    appendParticle, appendCollision. cbv zeta.
  repeat total_step.
Qed.
End TotalProcess2.

(** In Run 3, with tables of the declared shapes, [process] returns: no
    lookup of the track loop leaves its table and no vector is read past its
    end. *)
Lemma process_total (aleph : AlephFn) (ccdb : CCDB) (c : Collision)
    (tracks : list Track) (st : CFFilterQA) :
  ConfIsRun3 (conf st) = true ->
  declaredTables (conf st) ->
  exists st', process aleph ccdb c tracks st = Done tt st'.
Proof.
  intros R3 T. rewrite (process_run3 aleph ccdb c tracks st R3).
  destruct (reloadBB_effect ccdb c false st Logic.I) as (s1 & R & _ & C1 & _).
  rewrite (bind_done _ _ _ _ _ R).
  destruct (processEvent_total aleph (conf st) T c tracks s1 C1) as ([] & s2 & R2 & _).
  exists s2. exact R2.
Qed.

(** ** The particle rows *)

Lemma bind_inv {S A B} (m : Task S A) (k : A -> Task S B) st b st' :
  bind m k st = Done b st' ->
  exists a s1, m st = Done a s1 /\ k a s1 = Done b st'.
Proof.
  unfold bind. destruct (m st) as [a s1 | why s1]; [eauto | discriminate].
Qed.

Lemma call_inv {S A} (f : S -> Res A) st a st' :
  call f st = Done a st' -> st' = st /\ f st = Ok a.
Proof.
  unfold call, lift. destruct (f st); intros H; inversion H; auto.
Qed.

Lemma ret_inv {S A} (x : A) (st : S) a st' :
  ret x st = Done a st' -> st' = st /\ a = x.
Proof. unfold ret. intros H. inversion H. auto. Qed.

Lemma keeps_done {S X A} (f : S -> X) (m : Task S A) st a st' :
  ensures (keeps f) anyAbort m -> m st = Done a st' -> f st' = f st.
Proof. intros H E. specialize (H st). rewrite E in H. exact H. Qed.

Lemma withoutFills_registry v st : withoutFills (set_registry v st) = withoutFills st.
Proof. destruct st; reflexivity. Qed.

Lemma settings_withoutFills a b : withoutFills a = withoutFills b -> settings a = settings b.
Proof. unfold settings, withoutFills. intros ->. reflexivity. Qed.

Lemma withoutFills_outputs a b :
  withoutFills a = withoutFills b ->
  outputCollision a = outputCollision b /\ outputParts a = outputParts b /\ conf a = conf b.
Proof.
  intros H. destruct a, b. unfold withoutFills in H. cbn in H.
  injection H. intros. subst. repeat split; reflexivity.
Qed.

Lemma settings_registry v st : settings (set_registry v st) = settings st.
Proof. destruct st; reflexivity. Qed.

Lemma settings_outputParts v st : settings (set_outputParts v st) = settings st.
Proof. destruct st; reflexivity. Qed.

Lemma settings_outputCollision v st : settings (set_outputCollision v st) = settings st.
Proof. destruct st; reflexivity. Qed.

Lemma outputCollision_registry v st : outputCollision (set_registry v st) = outputCollision st.
Proof. destruct st; reflexivity. Qed.

Lemma outputCollision_outputParts v st : outputCollision (set_outputParts v st) = outputCollision st.
Proof. destruct st; reflexivity. Qed.

Section ParticleRows.

Variable aleph : AlephFn.

Lemma isSelectedTrack_settings st trk s :
  isSelectedTrack st trk s = isSelectedTrack (settings st) trk s.
Proof. destruct st; reflexivity. Qed.

Lemma nTPCSigma_settings st trk :
  nTPCSigma aleph st trk = nTPCSigma aleph (settings st) trk.
Proof. destruct st; reflexivity. Qed.

Lemma isSelectedTrackPID_settings st trk s rej n charge :
  isSelectedTrackPID aleph st trk s rej n charge
  = isSelectedTrackPID aleph (settings st) trk s rej n charge.
Proof. destruct st; reflexivity. Qed.

Lemma conf_settings st : conf (settings st) = conf st.
Proof. destruct st; reflexivity. Qed.

Lemma protonRows_settings a b cid trk :
  settings a = settings b -> protonRows aleph a cid trk = protonRows aleph b cid trk.
Proof.
  intros H. unfold protonRows.
  rewrite (isSelectedTrack_settings a), (nTPCSigma_settings a), H,
    <- (isSelectedTrack_settings b), <- (nTPCSigma_settings b).
  rewrite <- (conf_settings a), H, (conf_settings b).
  destruct (isSelectedTrack b trk kProton) as [[|]| |]; try reflexivity.
  destruct (nTPCSigma aleph b trk) as [nS| |]; try reflexivity.
  rewrite !(isSelectedTrackPID_settings a), H, <- !(isSelectedTrackPID_settings b).
  reflexivity.
Qed.

End ParticleRows.

Ltac fills_keep :=
  repeat first [ keeps_step withoutFills anyAbort
               | apply fill_keeps; exact withoutFills_registry
               | apply fillCombined_keeps; exact withoutFills_registry
               | apply fillSelected_keeps; exact withoutFills_registry ].

(** [H : (m ;; rest) s = Done tt st'] where [m] only fills histograms, and
    [K : withoutFills s = withoutFills st]. *)
Ltac peel H K :=
  let s := fresh "s" in
  let E := fresh "E" in
  apply bind_inv in H as ([] & s & E & H);
  apply (keeps_done withoutFills) in E; [ | solve [fills_keep] ];
  rewrite K in E; clear K; rename E into K.

Lemma outputParts_outputCollision v st :
  outputParts (set_outputCollision v st) = outputParts st.
Proof. destruct st; reflexivity. Qed.

Lemma outputCollision_set v st : outputCollision (set_outputCollision v st) = v.
Proof. destruct st; reflexivity. Qed.

Section TrackRows.

Variable aleph : AlephFn.

Lemma appendParticle_then_fills trk cutbit (m : Task CFFilterQA unit) st st' :
  ensures (keeps withoutFills) anyAbort m ->
  (appendParticle trk cutbit ;; m) st = Done tt st' ->
  outputParts st' =
    (outputParts st ++
     [particleRowOf (conf st) (Z.of_nat (List.length (outputCollision st)) - 1) trk
        (cutbit (conf st))])%list.
Proof.
  intros Hm H. apply bind_inv in H as ([] & s1 & E1 & H).
  unfold appendParticle, modify in E1. injection E1 as <-.
  apply (keeps_done _ _ _ _ _ Hm) in H.
  apply withoutFills_outputs in H as (Hc & Hp & _).
  rewrite Hp. destruct st; reflexivity.
Qed.

Lemma processTrack_rows trk st st' :
  processTrack aleph trk st = Done tt st' ->
  outputParts st' =
    (outputParts st ++
     protonRows aleph st (Z.of_nat (List.length (outputCollision st)) - 1) trk)%list.
Proof.
  intros H. unfold processTrack in H.
  apply bind_inv in H as (nS & s0 & E0 & H). apply call_inv in E0 as [-> EnS].
  assert (K : withoutFills st = withoutFills st) by reflexivity.
  revert K H. generalize st at 1 3. intros s K H.
  cbv zeta in H.
  do 5 peel H K.
  pose proof (settings_withoutFills _ _ K) as KS.
  apply withoutFills_outputs in K as (Kc & Kp & Kf).
  apply bind_inv in H as (sel & s5 & E5 & H). apply call_inv in E5 as [-> Esel].
  rewrite isSelectedTrack_settings, KS, <- isSelectedTrack_settings in Esel.
  unfold protonRows. rewrite Esel, EnS.
  destruct sel; cbn [when] in H.
  2:{ apply ret_inv in H as [-> _]. rewrite Kp, app_nil_r. reflexivity. }
  apply bind_inv in H as (pid & s6 & E6 & H).
  destruct (track.sign trk >? 0) eqn:Sp.
  - apply call_inv in E6 as [-> Epid].
    rewrite isSelectedTrackPID_settings, KS, <- isSelectedTrackPID_settings in Epid.
    rewrite Epid.
    assert (Sn : (track.sign trk <? 0) = false) by lia.
    rewrite Sn in H.
    apply bind_inv in H as ([] & s7 & E7 & H).
    apply bind_inv in H as (pid' & s8 & E8 & H).
    apply ret_inv in E8 as [-> ->]. cbn [when] in H.
    apply ret_inv in H as [-> _].
    destruct pid; cbn [when] in E7.
    + apply appendParticle_then_fills in E7; [ | fills_keep ].
      rewrite E7, Kc, Kp, Kf. reflexivity.
    + apply ret_inv in E7 as [-> _]. rewrite Kp, app_nil_r. reflexivity.
  - apply ret_inv in E6 as [-> ->]. cbn [when] in H.
    apply bind_inv in H as ([] & s7 & E7 & H).
    apply ret_inv in E7 as [-> _].
    apply bind_inv in H as (pid' & s8 & E8 & H).
    destruct (track.sign trk <? 0) eqn:Sn.
    + apply call_inv in E8 as [-> Epid].
      rewrite isSelectedTrackPID_settings, KS, <- isSelectedTrackPID_settings in Epid.
      rewrite Epid.
      destruct pid'; cbn [when] in H.
      * apply appendParticle_then_fills in H; [ | fills_keep ].
        rewrite H, Kc, Kp, Kf. reflexivity.
      * apply ret_inv in H as [-> _]. rewrite Kp, app_nil_r. reflexivity.
    + apply ret_inv in E8 as [-> ->]. cbn [when] in H.
      apply ret_inv in H as [-> _]. rewrite Kp, app_nil_r. reflexivity.
Qed.

Lemma trackLoop_rows tracks : forall st st',
  forEach tracks (processTrack aleph) st = Done tt st' ->
  outputParts st' =
    (outputParts st ++
     flat_map (protonRows aleph st (Z.of_nat (List.length (outputCollision st)) - 1))
       tracks)%list.
Proof.
  induction tracks as [|trk rest IH]; intros st st' H; cbn [forEach flat_map] in *.
  - apply ret_inv in H as [-> _]. rewrite app_nil_r. reflexivity.
  - apply bind_inv in H as ([] & s1 & E1 & H).
    pose proof (keeps_done settings _ _ _ _
                  (processTrack_keeps aleph settings settings_registry
                     settings_outputParts trk) E1) as KS.
    pose proof (keeps_done outputCollision _ _ _ _
                  (processTrack_keeps aleph outputCollision outputCollision_registry
                     outputCollision_outputParts trk) E1) as Kc.
    apply processTrack_rows in E1. apply IH in H.
    rewrite H, E1, Kc, <- app_assoc. f_equal. f_equal.
    apply flat_map_ext. intros t. apply protonRows_settings. exact KS.
Qed.

Lemma isSelectedEvent_withoutFills a b c :
  withoutFills a = withoutFills b -> isSelectedEvent a c = isSelectedEvent b c.
Proof.
  intros H. apply withoutFills_outputs in H as (_ & _ & Hf).
  unfold isSelectedEvent. rewrite Hf. reflexivity.
Qed.

Lemma processEvent_rows c tracks st st' :
  processEvent aleph c tracks st = Done tt st' ->
  outputParts st' =
    (outputParts st ++
     if isSelectedEvent st c
     then flat_map (protonRows aleph st (Z.of_nat (List.length (outputCollision st)))) tracks
     else [])%list.
Proof.
  intros H. unfold processEvent in H.
  assert (K : withoutFills st = withoutFills st) by reflexivity.
  revert K H. generalize st at 1 3. intros s K H.
  do 2 peel H K.
  apply bind_inv in H as (sel & s2 & E2 & H). apply call_inv in E2 as [-> Esel].
  injection Esel as <-.
  rewrite (isSelectedEvent_withoutFills _ _ c K) in H.
  pose proof (settings_withoutFills _ _ K) as KS.
  apply withoutFills_outputs in K as (Kc & Kp & Kf).
  destruct (isSelectedEvent st c); cbn [when] in H.
  2:{ apply ret_inv in H as [-> _]. rewrite Kp, app_nil_r. reflexivity. }
  apply bind_inv in H as ([] & s3 & E3 & H).
  unfold appendCollision, modify in E3. injection E3 as <-.
  match type of H with
  | _ ?s = _ => assert (K : withoutFills s = withoutFills s) by reflexivity;
               revert K H; generalize s at 1 3; intros s' K H
  end.
  do 2 peel H K.
  apply trackLoop_rows in H. rewrite H.
  pose proof (settings_withoutFills _ _ K) as KS'.
  apply withoutFills_outputs in K as (Kc' & Kp' & _).
  rewrite Kp', Kc'.
  rewrite outputParts_outputCollision, outputCollision_set, Kp, Kc. f_equal.
  rewrite length_app. cbn [List.length].
  replace (Z.of_nat (List.length (outputCollision st) + 1) - 1)
    with (Z.of_nat (List.length (outputCollision st))) by lia.
  apply flat_map_ext. intros t. apply protonRows_settings.
  rewrite KS', settings_outputCollision. exact KS.
Qed.

End TrackRows.

Section ProcessRows.

Variable aleph : AlephFn.

Variable ccdb : CCDB.

Lemma reloadBB_outputs c :
  ensures (keeps (fun s => (outputParts s, outputCollision s, conf s))) anyAbort
    (reloadBB ccdb c).
Proof.
  apply reloadBB_keeps; intros v s; destruct s; reflexivity.
Qed.

Lemma process_rows_done c tracks st st' :
  process aleph ccdb c tracks st = Done tt st' ->
  outputParts st' =
    (outputParts st ++
     if isSelectedEvent st c
     then flat_map (protonRows aleph (stateAtTrackLoop ccdb c st)
                      (Z.of_nat (List.length (outputCollision st)))) tracks
     else [])%list.
Proof.
  intros H. unfold process in H.
  apply bind_inv in H as (s & s0 & E0 & H). unfold this in E0. injection E0 as <- <-.
  apply bind_inv in H as ([] & s1 & E1 & H).
  destruct (ConfIsRun3 (conf st)); cbn [negb when] in E1; [ | discriminate ].
  apply ret_inv in E1 as [-> _].
  apply bind_inv in H as ([] & s2 & E2 & H).
  pose proof (keeps_done _ _ _ _ _ (reloadBB_outputs c) E2) as K.
  injection K as Kp Kc Kf.
  apply processEvent_rows in H.
  unfold stateAtTrackLoop. rewrite E2. cbn [outcome_state].
  rewrite H, Kp, Kc. unfold isSelectedEvent. rewrite Kf. reflexivity.
Qed.

(** The particle rows of one call of [process] in Run 3, with tables of the
    declared shapes: the call returns, and the table then holds the rows it
    held before, followed, when the collision passes the event selection, by
    the proton and antiproton rows of the tracks in track order, each
    pointing at the collision row appended by this call; the predicates are
    evaluated with the Bethe-Bloch vectors as this call leaves them.  A
    collision that fails the selection adds no particle row. *)
Theorem process_particle_rows c tracks st :
  ConfIsRun3 (conf st) = true ->
  declaredTables (conf st) ->
  exists st',
    process aleph ccdb c tracks st = Done tt st' /\
    outputParts st' =
      (outputParts st ++
       if isSelectedEvent st c
       then flat_map (protonRows aleph (stateAtTrackLoop ccdb c st)
                        (Z.of_nat (List.length (outputCollision st)))) tracks
       else [])%list.
Proof.
  intros R3 T. destruct (process_total aleph ccdb c tracks st R3 T) as [st' R].
  exists st'. split; [exact R | apply process_rows_done; exact R].
Qed.

End ProcessRows.

Lemma process_particle_rows_witness :
  exists st',
    process sampleAleph sampleCCDB (sampleCollision f32_zero 1 1)
      [goodTrack; nanPtTrack] sampleTask = Done tt st' /\
    outputParts st' =
      [particleRowOf defaultConfig 0 goodTrack 8190;
       particleRowOf defaultConfig 0 nanPtTrack 8190].
Proof.
  destruct (process_particle_rows sampleAleph sampleCCDB (sampleCollision f32_zero 1 1)
              [goodTrack; nanPtTrack] sampleTask) as (st' & R & H).
  - reflexivity.
  - repeat split; reflexivity.
  - exists st'. split; [exact R | rewrite H; vm_compute; reflexivity].
Defined.
